(** * Calibre MCP server: orchestration layer

    A shallow embedding of the Python orchestration layer that sits between
    agent-facing operations and the per-library Calibre worker processes:

    - [Permissions]  : src/logic/permissions.py (capability grants, path guard)
    - [TextSearch]   : src/logic/text_search.py (proximity matcher)
    - [SearchCache]  : src/logic/__init__.py    (content-search result cache)
    - [WorkerPool]   : src/worker_pool.py       (process table, RPC transport)
    - [Logic]        : src/logic/metadata_ops.py and src/logic/__init__.py
                       (schema cache, validator, update, field values, details)
    - [Validation]   : what a change set validated without a message holds
    - [Grants]       : the grant checks as the operations use them, pages
    - [BulkUpdate]   : src/logic/metadata_ops.py (bulk update)
    - [CacheFacts]   : the search cache over many calls, the snippet of a hit
    - [PoolFacts]    : the transport of one call: read loop, accounting,
                       broken pipe
    - [LibraryOps]   : src/logic/library_ops.py (delete, convert)
    - [BookContent]  : src/logic/__init__.py (reading a book page by page)

    Python values are modelled by the inductive [value]; Python [str] by
    [string] (one [ascii] per code point, so the string primitives below are
    those of Python restricted to code points below 128); Python [int] by [Z];
    Python [float] by the kernel's binary64 [float].  Exceptions are explicit:
    a call returns [Ok v] or [Raise e].  Functions of the Python runtime and of
    third-party packages that the program calls but does not define
    ([os.path.abspath], [json.loads], [float()] on text, the Porter stemmer,
    [dateutil]) are Section variables: every general theorem holds for each
    behaviour they may have. *)

From Stdlib Require Import ZArith List String Ascii Lia Sorted Permutation.
From Stdlib Require Import DecimalString.
From Stdlib Require Import Floats.PrimFloat.
From stdpp Require Import gmap strings list.

Set Warnings "-register-all".
Open Scope string_scope.
Open Scope Z_scope.

(* ===================================================================== *)
(** * Python data                                                          *)
(* ===================================================================== *)

Module Py.

(** Exception classes the program raises or catches. *)
Inductive exn_kind :=
| ValueError | TypeError | PermissionError | RuntimeError
| OverflowError | AttributeError.

Record exn := Exn { exn_kind_of : exn_kind; exn_msg : string }.

Inductive result (A : Type) :=
| Ok (a : A)
| Raise (e : exn).
Arguments Ok {A} a.
Arguments Raise {A} e.

Definition is_ok {A} (r : result A) : bool :=
  match r with Ok _ => true | Raise _ => false end.

(** JSON-shaped Python values: what [json.loads] produces and what tool
    arguments carry.  [VDatetime] is a [datetime] object, carried by the text
    its [isoformat()] returns (the only thing the program does with one). *)
Inductive value :=
| VNone
| VBool (b : bool)
| VInt (n : Z)
| VFloat (x : float)
| VStr (s : string)
| VList (l : list value)
| VDict (d : list (string * value))
| VDatetime (iso : string).

(** [type(v).__name__] *)
Definition type_name (v : value) : string :=
  match v with
  | VNone => "NoneType"
  | VBool _ => "bool"
  | VInt _ => "int"
  | VFloat _ => "float"
  | VStr _ => "str"
  | VList _ => "list"
  | VDict _ => "dict"
  | VDatetime _ => "datetime"
  end.

(** Truth value of an object ([if v:]). *)
Definition truthy (v : value) : bool :=
  match v with
  | VNone => false
  | VBool b => b
  | VInt n => negb (n =? 0)
  | VFloat x => negb (PrimFloat.eqb x 0%float)
  | VStr s => negb (String.eqb s "")
  | VList l => match l with [] => false | _ => true end
  | VDict d => match d with [] => false | _ => true end
  | VDatetime _ => true
  end.

(** ** Strings *)

(** [str.isspace] on one code point below 128: TAB, LF, VT, FF, CR,
    FS, GS, RS, US and SPACE.  The regular-expression class [\s] is the same
    set for [str] patterns. *)
Definition is_space (c : ascii) : bool :=
  let n := nat_of_ascii c in
  ((9 <=? n) && (n <=? 13) || (28 <=? n) && (n <=? 32))%nat.

(** The class [\w] below 128: letters, digits and the underscore. *)
Definition is_word_char (c : ascii) : bool :=
  let n := nat_of_ascii c in
  ((48 <=? n) && (n <=? 57) || (65 <=? n) && (n <=? 90)
   || (97 <=? n) && (n <=? 122) || (n =? 95))%nat.

Definition lower_char (c : ascii) : ascii :=
  let n := nat_of_ascii c in
  if ((65 <=? n) && (n <=? 90))%nat then ascii_of_nat (n + 32) else c.

(** [s.lower()] *)
Fixpoint lower (s : string) : string :=
  match s with
  | EmptyString => EmptyString
  | String c r => String (lower_char c) (lower r)
  end.

(** [s.lstrip()] *)
Fixpoint lstrip (s : string) : string :=
  match s with
  | EmptyString => EmptyString
  | String c r => if is_space c then lstrip r else s
  end.

(** [s.rstrip()] *)
Fixpoint rstrip (s : string) : string :=
  match s with
  | EmptyString => EmptyString
  | String c r =>
      match rstrip r with
      | EmptyString => if is_space c then EmptyString else String c EmptyString
      | r' => String c r'
      end
  end.

(** [s.strip()] *)
Definition strip (s : string) : string := rstrip (lstrip s).

(** [s.startswith(p)] *)
Fixpoint startswith (s p : string) {struct p} : bool :=
  match p, s with
  | EmptyString, _ => true
  | String _ _, EmptyString => false
  | String a p', String b s' => Ascii.eqb a b && startswith s' p'
  end.

(** [sub in s] *)
Fixpoint contains (sub s : string) : bool :=
  startswith s sub ||
  match s with
  | EmptyString => false
  | String _ r => contains sub r
  end.

(** [s.count(c)] for a one-character [c] *)
Fixpoint count_char (c : ascii) (s : string) : nat :=
  match s with
  | EmptyString => O
  | String a r => ((if Ascii.eqb a c then 1 else 0) + count_char c r)%nat
  end.

(** [s.rfind(c)] for a one-character [c]; [-1] when absent. *)
Fixpoint rfind_char (c : ascii) (s : string) : Z :=
  match s with
  | EmptyString => -1
  | String a r =>
      let k := rfind_char c r in
      if 0 <=? k then k + 1 else if Ascii.eqb a c then 0 else -1
  end.

(** [len(s)] *)
Definition len (s : string) : Z := Z.of_nat (String.length s).

Fixpoint drop_str (n : nat) (s : string) : string :=
  match n, s with
  | O, _ => s
  | S n', String _ r => drop_str n' r
  | S _, EmptyString => EmptyString
  end.

Fixpoint take_str (n : nat) (s : string) : string :=
  match n, s with
  | S n', String c r => String c (take_str n' r)
  | _, _ => EmptyString
  end.

(** Bounds of a slice [x[start:stop]] over a sequence of length [n]:
    negative bounds count from the end, then both are clamped to [0, n]. *)
Definition clamp_index (n i : Z) : Z :=
  let j := if i <? 0 then i + n else i in
  Z.max 0 (Z.min n j).

(** [s[start:stop]] *)
Definition slice_str (s : string) (start stop : Z) : string :=
  let n := len s in
  let a := clamp_index n start in
  let b := clamp_index n stop in
  take_str (Z.to_nat (b - a)) (drop_str (Z.to_nat a) s).

(** [l[start:stop]] *)
Definition slice {A} (l : list A) (start stop : Z) : list A :=
  let n := Z.of_nat (length l) in
  let a := clamp_index n start in
  let b := clamp_index n stop in
  take (Z.to_nat (b - a)) (drop (Z.to_nat a) l).

(** [sep.join(parts)] *)
Fixpoint join (sep : string) (parts : list string) : string :=
  match parts with
  | [] => ""
  | [p] => p
  | p :: rest => p ++ sep ++ join sep rest
  end.

(** [s.split(sep)] for a non-empty [sep]: cut at each leftmost occurrence.
    [fuel] bounds the scan and is the length of [s] plus one at the call. *)
Fixpoint split_go (fuel : nat) (sep cur s : string) : list string :=
  match fuel with
  | O => [cur ++ s]
  | S fuel' =>
      if startswith s sep then
        cur :: split_go fuel' sep "" (drop_str (String.length sep) s)
      else
        match s with
        | EmptyString => [cur]
        | String c r => split_go fuel' sep (cur ++ String c "") r
        end
  end.

Definition split (sep s : string) : list string :=
  split_go (S (String.length s)) sep "" s.

(** Lexicographic comparison of two strings by code point ([a <= b]). *)
Fixpoint str_leb (a b : string) : bool :=
  match a, b with
  | EmptyString, _ => true
  | String _ _, EmptyString => false
  | String x a', String y b' =>
      let nx := nat_of_ascii x in
      let ny := nat_of_ascii y in
      if (nx <? ny)%nat then true
      else if (ny <? nx)%nat then false
      else str_leb a' b'
  end.

(** [str(n)] for an integer *)
Definition str_of_int (n : Z) : string := NilZero.string_of_int (Z.to_int n).

(** A text with every apostrophe replaced by a double quote: lets JSON
    samples be written legibly. *)
Fixpoint dq (s : string) : string :=
  match s with
  | EmptyString => EmptyString
  | String c r =>
      String (if Ascii.eqb c "'" then ascii_of_nat 34 else c) (dq r)
  end.

End Py.
Export Py.

(* ===================================================================== *)
(** * Permission engine and path guard (src/logic/permissions.py)          *)
(* ===================================================================== *)

Module Permissions.

(** A capability grant as the configuration file gives it: absent, a
    boolean, or a list of field names. *)
Inductive grant :=
| GAbsent
| GBool (b : bool)
| GList (fields : list string).

(** [not perm] *)
Definition grant_falsy (g : grant) : bool :=
  match g with
  | GAbsent => true
  | GBool b => negb b
  | GList l => match l with [] => true | _ => false end
  end.

(** [perm is True] *)
Definition grant_is_true (g : grant) : bool :=
  match g with GBool true => true | _ => false end.

Record permissions := {
  perm_read : grant;
  perm_write : grant;
  perm_delete : grant;
  perm_convert : grant
}.

(** The dictionary [get_library_config] returns, reduced to the entries the
    modelled operations read.  [lc_name] is the resolved library name. *)
Record lib_conf := {
  lc_name : string;
  lc_path : string;
  lc_permissions : permissions
}.

Section PathGuard.

(** [os.path.abspath], [os.name == 'nt'] and [os.sep] of the platform. *)
Variable abspath : string -> string.
Variable is_windows : bool.
Variable os_sep : ascii.

Definition check_form (p : string) : string :=
  if is_windows then lower p else p.

(** The boundary test of one allowed root, lines 122-124.  The index
    [len(allowed_check)] is read only when the lengths differ. *)
Definition at_boundary (check_path allowed_check : string) : bool :=
  (String.length check_path =? String.length allowed_check)%nat ||
  match String.get (String.length allowed_check) check_path with
  | Some c => Ascii.eqb c os_sep || Ascii.eqb c "/"
  | None => false
  end.

Definition root_accepts (check_path path : string) : bool :=
  let allowed_check := check_form (abspath path) in
  startswith check_path allowed_check && at_boundary check_path allowed_check.

(** The [for path in allowed_paths] loop, lines 116-125. *)
Fixpoint scan_allowed (check_path : string) (allowed_paths : list string) : bool :=
  match allowed_paths with
  | [] => false
  | path :: rest =>
      if root_accepts check_path path then true
      else scan_allowed check_path rest
  end.

Definition denied_message (operation_name file_path : string) : string :=
  operation_name ++ " denied. Path '" ++ file_path ++ "' is not in allowed_paths.".

Definition validate_path_in_allowed
    (file_path : string) (allowed_paths : list string) (operation_name : string)
    : result string :=
  let abs_file_path := abspath file_path in
  let check_path := check_form abs_file_path in
  if scan_allowed check_path allowed_paths then Ok abs_file_path
  else Raise (Exn PermissionError (denied_message operation_name file_path)).

(** What the specification calls falling under a root at a real
    path-separator boundary: the resolved candidate is the resolved root, or
    the resolved root followed by a separator and anything. *)
Definition under_root (candidate root : string) : Prop :=
  candidate = root \/
  exists c rest, (c = os_sep \/ c = "/"%char) /\ candidate = root ++ String c rest.

End PathGuard.

(** ** [posixpath.abspath] of the Python standard library

    Used for the concrete examples only; [cwd] is [os.getcwd()]. *)
Module Posix.

Fixpoint split_slash_go (cur s : string) : list string :=
  match s with
  | EmptyString => [cur]
  | String c r =>
      if Ascii.eqb c "/" then cur :: split_slash_go "" r
      else split_slash_go (cur ++ String c "") r
  end.

(** [path.split('/')] *)
Definition split_slash (s : string) : list string := split_slash_go "" s.

(** The component loop of [normpath]; [new_comps] is kept reversed. *)
Fixpoint norm_comps (initial_slashes : nat) (comps rev_new : list string) : list string :=
  match comps with
  | [] => rev rev_new
  | comp :: rest =>
      if String.eqb comp "" || String.eqb comp "." then
        norm_comps initial_slashes rest rev_new
      else if negb (String.eqb comp "..")
              || ((initial_slashes =? 0)%nat && match rev_new with [] => true | _ => false end)
              || match rev_new with last :: _ => String.eqb last ".." | [] => false end
      then norm_comps initial_slashes rest (comp :: rev_new)
      else norm_comps initial_slashes rest (tail rev_new)
  end.

Definition normpath (path : string) : string :=
  if String.eqb path "" then "."
  else
    let initial_slashes :=
      if startswith path "/" then
        if startswith path "//" && negb (startswith path "///") then 2%nat else 1%nat
      else 0%nat in
    let comps := norm_comps initial_slashes (split_slash path) [] in
    let body := join "/" comps in
    let res :=
      match initial_slashes with
      | O => body
      | 1%nat => "/" ++ body
      | _ => "//" ++ body
      end in
    if String.eqb res "" then "." else res.

Definition ends_with_slash (a : string) : bool :=
  match String.get (String.length a - 1) a with
  | Some c => Ascii.eqb c "/"
  | None => false
  end.

(** [posixpath.join(a, b)] *)
Definition path_join (a b : string) : string :=
  if startswith b "/" then b
  else if String.eqb a "" || ends_with_slash a then a ++ b
  else a ++ "/" ++ b.

Definition abspath (cwd path : string) : string :=
  if startswith path "/" then normpath path
  else normpath (path_join cwd path).

End Posix.

(** ** Facts about the string primitives the guard uses *)

Lemma append_cons (c : ascii) (a b : string) : String c a ++ b = String c (a ++ b).
Proof. reflexivity. Qed.

Lemma append_nil (b : string) : "" ++ b = b.
Proof. reflexivity. Qed.

Lemma startswith_prefix (s p : string) :
  startswith s p = true <-> exists r, s = p ++ r.
Proof.
  revert s; induction p as [|a p IH]; intros s; simpl.
  - split; [intros _; exists s; reflexivity | reflexivity].
  - destruct s as [|b s]; simpl.
    + split; [discriminate | intros [r Hr]; discriminate].
    + rewrite andb_true_iff, Ascii.eqb_eq, IH. split.
      * intros [-> [r ->]]. exists r. reflexivity.
      * intros [r Hr]. injection Hr as -> ->. split; [reflexivity | exists r; reflexivity].
Qed.

Lemma string_length_append (a b : string) :
  String.length (a ++ b) = (String.length a + String.length b)%nat.
Proof.
  induction a as [|c a IH]; [reflexivity |].
  rewrite append_cons. simpl. rewrite IH. reflexivity.
Qed.

Lemma get_after_prefix (p r : string) :
  String.get (String.length p) (p ++ r) = String.get 0 r.
Proof.
  induction p as [|c p IH]; [reflexivity |].
  rewrite append_cons. simpl. exact IH.
Qed.

Lemma append_empty_r (a : string) : a ++ "" = a.
Proof.
  induction a as [|c a IH]; [reflexivity |].
  rewrite append_cons, IH. reflexivity.
Qed.

Lemma append_assoc (a b c : string) : (a ++ b) ++ c = a ++ (b ++ c).
Proof.
  induction a as [|x a IH]; [reflexivity |].
  rewrite !append_cons, IH. reflexivity.
Qed.

Lemma contains_infix (sub pre post : string) :
  contains sub (pre ++ sub ++ post) = true.
Proof.
  induction pre as [|c pre IH]; simpl.
  - assert (H : startswith (sub ++ post) sub = true)
      by (apply startswith_prefix; exists post; reflexivity).
    destruct (sub ++ post); simpl in *; rewrite H; reflexivity.
  - rewrite IH. apply orb_true_r.
Qed.

Section PathGuardFacts.

Variable abspath : string -> string.
Variable is_windows : bool.
Variable os_sep : ascii.

(** The index the boundary test reads exists whenever it is read: the
    candidate starts with the root and is longer. *)
Lemma boundary_index_in_range (check_path allowed_check : string) :
  startswith check_path allowed_check = true ->
  String.length check_path <> String.length allowed_check ->
  exists c, String.get (String.length allowed_check) check_path = Some c.
Proof.
  intros Hp Hlen. apply startswith_prefix in Hp as [r ->].
  rewrite get_after_prefix. destruct r as [|c r]; simpl.
  - rewrite append_empty_r in Hlen. contradiction.
  - exists c. reflexivity.
Qed.

Lemma root_accepts_under_root (check_path path : string) :
  root_accepts abspath is_windows os_sep check_path path = true <->
  under_root os_sep check_path (check_form is_windows (abspath path)).
Proof.
  unfold root_accepts, at_boundary, under_root.
  set (root := check_form is_windows (abspath path)).
  rewrite andb_true_iff, startswith_prefix. split.
  - intros [[r ->] Hb]. rewrite get_after_prefix in Hb.
    rewrite string_length_append in Hb.
    destruct r as [|c r]; simpl in Hb.
    + left. apply append_empty_r.
    + right. exists c, r. split; [|reflexivity].
      apply orb_true_iff in Hb as [Hb|Hb].
      * apply Nat.eqb_eq in Hb. lia.
      * apply orb_true_iff in Hb as [Hb|Hb]; apply Ascii.eqb_eq in Hb; auto.
  - intros [-> | (c & r & Hc & ->)].
    + split; [exists ""; symmetry; apply append_empty_r |].
      rewrite Nat.eqb_refl. reflexivity.
    + split; [exists (String c r); reflexivity |].
      rewrite get_after_prefix. simpl.
      destruct Hc as [-> | ->]; rewrite Ascii.eqb_refl;
        rewrite ?orb_true_r; reflexivity.
Qed.

Lemma scan_allowed_exists (check_path : string) (allowed_paths : list string) :
  scan_allowed abspath is_windows os_sep check_path allowed_paths = true <->
  exists path, In path allowed_paths /\
    under_root os_sep check_path (check_form is_windows (abspath path)).
Proof.
  induction allowed_paths as [|path rest IH]; simpl.
  - split; [discriminate | intros (? & [] & _)].
  - destruct (root_accepts abspath is_windows os_sep check_path path) eqn:Hacc.
    + split; [intros _ | reflexivity].
      exists path. split; [left; reflexivity | apply root_accepts_under_root, Hacc].
    + rewrite IH. split.
      * intros (p & Hin & Hu). exists p. split; [right; exact Hin | exact Hu].
      * intros (p & [<- | Hin] & Hu).
        -- apply root_accepts_under_root in Hu. congruence.
        -- exists p. split; assumption.
Qed.

Lemma validate_path_in_allowed_cases
    (file_path : string) (allowed_paths : list string) (operation_name : string) :
  let candidate := check_form is_windows (abspath file_path) in
  let resolved root := check_form is_windows (abspath root) in
  (validate_path_in_allowed abspath is_windows os_sep file_path allowed_paths operation_name
     = Ok (abspath file_path)
   /\ exists root, In root allowed_paths /\ under_root os_sep candidate (resolved root))
  \/
  (validate_path_in_allowed abspath is_windows os_sep file_path allowed_paths operation_name
     = Raise (Exn PermissionError (denied_message operation_name file_path))
   /\ contains file_path (denied_message operation_name file_path) = true
   /\ forall root, In root allowed_paths -> ~ under_root os_sep candidate (resolved root)).
Proof.
  intros candidate resolved. unfold validate_path_in_allowed.
  fold candidate.
  destruct (scan_allowed abspath is_windows os_sep candidate allowed_paths) eqn:Hscan.
  - left. split; [reflexivity |]. apply scan_allowed_exists, Hscan.
  - right. split; [reflexivity |]. split.
    + unfold denied_message. rewrite <- append_assoc. apply contains_infix.
    + intros root Hin Hu.
      assert (scan_allowed abspath is_windows os_sep candidate allowed_paths = true)
        by (apply scan_allowed_exists; exists root; split; assumption).
      congruence.
Qed.

End PathGuardFacts.

(** C5.  [validate_path_in_allowed] resolves the candidate and every allowed
    root with [abspath] (lower-cased on Windows), returns the resolved
    candidate exactly when it equals a resolved root or continues one with a
    path separator, and otherwise raises [PermissionError] with a message that
    contains the path as given.  On a POSIX platform, whatever the working
    directory, "/data/exports/out.epub" is denied against ["/data/export"] and
    accepted against ["/data/exports"]. *)
Theorem validate_path_in_allowed_boundary :
  (forall abspath is_windows os_sep file_path allowed_paths operation_name,
     let candidate := check_form is_windows (abspath file_path) in
     let resolved root := check_form is_windows (abspath root) in
     (validate_path_in_allowed abspath is_windows os_sep file_path allowed_paths operation_name
        = Ok (abspath file_path)
      /\ exists root, In root allowed_paths /\ under_root os_sep candidate (resolved root))
     \/
     (validate_path_in_allowed abspath is_windows os_sep file_path allowed_paths operation_name
        = Raise (Exn PermissionError (denied_message operation_name file_path))
      /\ contains file_path (denied_message operation_name file_path) = true
      /\ forall root, In root allowed_paths -> ~ under_root os_sep candidate (resolved root)))
  /\
  (forall cwd,
     validate_path_in_allowed (Posix.abspath cwd) false "/"
       "/data/exports/out.epub" ["/data/export"] "Export"
     = Raise (Exn PermissionError
         "Export denied. Path '/data/exports/out.epub' is not in allowed_paths."))
  /\
  (forall cwd,
     validate_path_in_allowed (Posix.abspath cwd) false "/"
       "/data/exports/out.epub" ["/data/exports"] "Export"
     = Ok "/data/exports/out.epub").
Proof.
  split; [| split].
  - intros. apply validate_path_in_allowed_cases.
  - intros cwd. reflexivity.
  - intros cwd. reflexivity.
Qed.

End Permissions.

(* ===================================================================== *)
(** * Proximity search (src/logic/text_search.py)                          *)
(* ===================================================================== *)

Module TextSearch.

(** One hit of [re.finditer]: start offset, end offset, matched text. *)
Definition token : Type := Z * Z * string.

Definition flush (cur_start pos : Z) (cur : string) : list token :=
  if String.eqb cur "" then [] else [(cur_start, pos, cur)].

(** [re.finditer(r'\w+', text)]: the maximal runs of word characters, left
    to right.  [pos] is the offset of the next character, [cur] the run
    being read and [cur_start] where it began. *)
Fixpoint finditer_go (pos cur_start : Z) (cur s : string) : list token :=
  match s with
  | EmptyString => flush cur_start pos cur
  | String c r =>
      if is_word_char c then
        finditer_go (pos + 1) (if String.eqb cur "" then pos else cur_start)
                    (cur ++ String c "") r
      else flush cur_start pos cur ++ finditer_go (pos + 1) 0 "" r
  end.

Definition finditer_words (text : string) : list token := finditer_go 0 0 "" text.

(** [re.findall(r'\w+', s)] *)
Definition findall_words (s : string) : list string := map snd (finditer_words s).

Record candidate := { c_start : Z; c_end : Z; c_stem : string }.

Definition span : Type := Z * Z.

(** The loop variables of the sliding window. *)
Record window := {
  results : list span;
  counts : gmap string Z;
  unique_stems_in_window : Z;
  left_ : nat
}.

(** [counts[s]] on a [defaultdict(int)] *)
Definition count_of (counts : gmap string Z) (s : string) : Z :=
  default 0 (counts !! s).

(** Tuple order of [results.sort()]. *)
Definition span_leb (a b : span) : bool :=
  (a.1 <? b.1) || ((a.1 =? b.1) && (a.2 <=? b.2)).

Fixpoint insert_sorted (x : span) (l : list span) : list span :=
  match l with
  | [] => [x]
  | y :: r => if span_leb x y then x :: l else y :: insert_sorted x r
  end.

(** [results.sort()] *)
Fixpoint sort_spans (l : list span) : list span :=
  match l with
  | [] => []
  | x :: r => insert_sorted x (sort_spans r)
  end.

(** The merge loop, lines 61-68: [last] is [merged[-1]]. *)
Fixpoint merge_from (last : span) (rest : list span) : list span :=
  match rest with
  | [] => [last]
  | (current_start, current_end) :: rest' =>
      if current_start <=? last.2 then
        merge_from (last.1, Z.max last.2 current_end) rest'
      else last :: merge_from (current_start, current_end) rest'
  end.

Definition merge_results (res : list span) : list span :=
  match sort_spans res with
  | [] => []
  | first :: rest => merge_from first rest
  end.

Section Matcher.

(** [PorterStemmer().stem] *)
Variable stem : string -> string.

(** [list(set(stemmer.stem(w) for w in query_words))]: the distinct stems
    (the program uses only membership and the length). *)
Definition query_stems_of (query : string) : list string :=
  remove_dups (map stem (findall_words (lower query))).

Definition candidates_of (query_stems : list string) (text : string) : list candidate :=
  omap (fun t : token =>
          let st := stem (lower t.2) in
          if bool_decide (st ∈ query_stems)
          then Some {| c_start := t.1.1; c_end := t.1.2; c_stem := st |}
          else None)
       (finditer_words text).

(** The [while unique_stems_in_window == num_terms] loop, lines 39-53.
    [None] is an [IndexError] on [candidates[left]], or the fuel running
    out. *)
Fixpoint shrink (fuel : nat) (candidates : list candidate)
    (num_terms window_size : Z) (right : nat) (w : window) : option window :=
  if unique_stems_in_window w =? num_terms then
    match fuel with
    | O => None
    | S fuel' =>
        match candidates !! left_ w, candidates !! right with
        | Some cl, Some cr =>
            let span_start := c_start cl in
            let span_end := c_end cr in
            let results' :=
              if span_end - span_start <=? window_size
              then (results w ++ [(span_start, span_end)])%list
              else results w in
            let stem_l := c_stem cl in
            let n := count_of (counts w) stem_l - 1 in
            shrink fuel' candidates num_terms window_size right
              {| results := results';
                 counts := <[stem_l := n]> (counts w);
                 unique_stems_in_window :=
                   if n =? 0 then unique_stems_in_window w - 1
                   else unique_stems_in_window w;
                 left_ := S (left_ w) |}
        | _, _ => None
        end
    end
  else Some w.

(** One iteration of [for right in range(len(candidates))], lines 31-53. *)
Definition advance (candidates : list candidate) (num_terms window_size : Z)
    (right : nat) (w : window) : option window :=
  match candidates !! right with
  | None => None
  | Some cr =>
      let stem_r := c_stem cr in
      let c := count_of (counts w) stem_r in
      shrink (S (length candidates)) candidates num_terms window_size right
        {| results := results w;
           counts := <[stem_r := c + 1]> (counts w);
           unique_stems_in_window :=
             if c =? 0 then unique_stems_in_window w + 1
             else unique_stems_in_window w;
           left_ := left_ w |}
  end.

Fixpoint sweep (candidates : list candidate) (num_terms window_size : Z)
    (rights : list nat) (w : window) : option window :=
  match rights with
  | [] => Some w
  | r :: rest =>
      match advance candidates num_terms window_size r w with
      | Some w' => sweep candidates num_terms window_size rest w'
      | None => None
      end
  end.

Definition initial_window : window :=
  {| results := []; counts := ∅; unique_stems_in_window := 0; left_ := O |}.

(** The spans the sliding window records, before the clean-up step. *)
Definition window_spans (text query : string) (window_size : Z)
    : option (list span) :=
  let query_stems := query_stems_of query in
  let num_terms := Z.of_nat (length query_stems) in
  let candidates := candidates_of query_stems text in
  results <$> sweep candidates num_terms window_size
                    (seq 0 (length candidates)) initial_window.

Definition _find_fts_matches (text query : string) (window_size : Z)
    : option (list span) :=
  merge_results <$> window_spans text query window_size.

End Matcher.


(** ** The window invariant: the matcher never reads past its candidates *)

(** Occurrences of [s] in a list of stems, and the number of query stems
    that occur in it. *)
Definition occ (s : string) (win : list string) : Z :=
  Z.of_nat (length (filter (eq s) win)).

Definition distinct_in (qs win : list string) : Z :=
  Z.of_nat (length (filter (fun s => s ∈ win) qs)).

(** Stems of [candidates[lo:hi]]. *)
Definition win_stems (cands : list candidate) (lo hi : nat) : list string :=
  map c_stem (take (hi - lo) (drop lo cands)).

Lemma occ_cons (s x : string) (l : list string) :
  occ s (x :: l) = (if decide (s = x) then 1 else 0) + occ s l.
Proof.
  unfold occ. rewrite filter_cons. destruct (decide (s = x)); simpl; lia.
Qed.

Lemma occ_snoc (s x : string) (l : list string) :
  occ s (l ++ [x]) = occ s l + (if decide (s = x) then 1 else 0).
Proof.
  unfold occ. rewrite filter_app, length_app, filter_cons, filter_nil.
  destruct (decide (s = x)); simpl; lia.
Qed.

Lemma occ_zero (s : string) (l : list string) : occ s l = 0 <-> s ∉ l.
Proof.
  induction l as [|x l IH].
  - split; [intros _; apply not_elem_of_nil | reflexivity].
  - rewrite occ_cons, not_elem_of_cons. unfold occ in *.
    destruct (decide (s = x)); split; intros H.
    + lia.
    + tauto.
    + split; [assumption | apply IH; lia].
    + destruct H as [_ H]. apply IH in H. lia.
Qed.

Lemma distinct_in_ext (qs win win' : list string) :
  (forall x, x ∈ qs -> (x ∈ win' <-> x ∈ win)) ->
  distinct_in qs win' = distinct_in qs win.
Proof.
  unfold distinct_in. induction qs as [|q qs IH]; intros Hext; [reflexivity |].
  rewrite !filter_cons.
  assert (Hq : q ∈ win' <-> q ∈ win) by (apply Hext; left).
  assert (Hrec : Z.of_nat (length (filter (fun s => s ∈ win') qs))
                 = Z.of_nat (length (filter (fun s => s ∈ win) qs)))
    by (apply IH; intros x Hx; apply Hext; right; exact Hx).
  destruct (decide (q ∈ win')), (decide (q ∈ win)); simpl; try tauto; lia.
Qed.

Lemma distinct_in_fresh (qs win win' : list string) (s : string) :
  NoDup qs -> s ∈ qs -> s ∉ win ->
  (forall x, x ∈ win' <-> x = s \/ x ∈ win) ->
  distinct_in qs win' = distinct_in qs win + 1.
Proof.
  intros Hnd. revert s. induction Hnd as [|q qs Hq Hnd IH]; intros s Hs Hfresh Hmem.
  - inversion Hs.
  - unfold distinct_in. rewrite !filter_cons.
    destruct (decide (q = s)) as [-> | Hne].
    + assert (Hrest : distinct_in qs win' = distinct_in qs win).
      { apply distinct_in_ext. intros x Hx. rewrite Hmem. split; [|tauto].
        intros [-> | H]; [contradiction | exact H]. }
      unfold distinct_in in Hrest.
      destruct (decide (s ∈ win')) as [_ | Hn]; [| exfalso; apply Hn, Hmem; left; reflexivity].
      destruct (decide (s ∈ win)); [contradiction |]. simpl. lia.
    + assert (Hs' : s ∈ qs) by (apply elem_of_cons in Hs as [-> | H]; [congruence | exact H]).
      specialize (IH s Hs' Hfresh Hmem). unfold distinct_in in IH.
      assert (Hq' : q ∈ win' <-> q ∈ win) by (rewrite Hmem; split; [intros [? | ?]; [contradiction | assumption] | tauto]).
      destruct (decide (q ∈ win')), (decide (q ∈ win)); simpl; try tauto; lia.
Qed.

Lemma distinct_in_nil (qs : list string) : distinct_in qs [] = 0.
Proof.
  unfold distinct_in. induction qs as [|q l IH]; [reflexivity |].
  rewrite filter_cons. destruct (decide (q ∈ [])) as [H | _]; [inversion H | exact IH].
Qed.

Lemma win_stems_empty (cands : list candidate) (lo : nat) : win_stems cands lo lo = [].
Proof. unfold win_stems. rewrite Nat.sub_diag. reflexivity. Qed.

Lemma win_stems_pop (cands : list candidate) (lo hi : nat) (cl : candidate) :
  cands !! lo = Some cl -> (lo < hi)%nat ->
  win_stems cands lo hi = c_stem cl :: win_stems cands (S lo) hi.
Proof.
  intros Hl Hlt. unfold win_stems.
  rewrite (drop_S _ _ _ Hl).
  replace (hi - lo)%nat with (S (hi - S lo)) by lia. reflexivity.
Qed.

Lemma win_stems_push (cands : list candidate) (lo hi : nat) (cr : candidate) :
  cands !! hi = Some cr -> (lo <= hi)%nat ->
  win_stems cands lo (S hi) = (win_stems cands lo hi ++ [c_stem cr])%list.
Proof.
  intros Hr Hle. unfold win_stems.
  replace (S hi - lo)%nat with (S (hi - lo)) by lia.
  rewrite (take_S_r _ _ cr).
  - rewrite map_app. reflexivity.
  - rewrite lookup_drop. replace (lo + (hi - lo))%nat with hi by lia. exact Hr.
Qed.

Record inv (qs : list string) (cands : list candidate) (hi : nat) (w : window) : Prop := {
  inv_left : (left_ w <= hi)%nat;
  inv_hi : (hi <= length cands)%nat;
  inv_counts : forall s, count_of (counts w) s = occ s (win_stems cands (left_ w) hi);
  inv_unique : unique_stems_in_window w = distinct_in qs (win_stems cands (left_ w) hi)
}.

Lemma count_of_insert (m : gmap string Z) (k s : string) (v : Z) :
  count_of (<[k := v]> m) s = if decide (s = k) then v else count_of m s.
Proof.
  unfold count_of. destruct (decide (s = k)) as [-> | Hne].
  - rewrite lookup_insert_eq. reflexivity.
  - rewrite lookup_insert_ne by congruence. reflexivity.
Qed.

Section Totality.

Variable qs : list string.
Variable cands : list candidate.
Variable window_size : Z.
Hypothesis qs_nodup : NoDup qs.
Hypothesis cands_in_qs : forall c, c ∈ cands -> c_stem c ∈ qs.

Let num_terms : Z := Z.of_nat (length qs).

Lemma full_window_nonempty (hi : nat) (w : window) (cr : candidate) :
  inv qs cands hi w -> cr ∈ cands ->
  unique_stems_in_window w = num_terms -> (left_ w < hi)%nat.
Proof.
  intros [Hl Hh _ Hu] Hcr Hfull.
  destruct (decide (left_ w < hi)%nat) as [|Hge]; [assumption | exfalso].
  assert (left_ w = hi) as Heq by lia.
  rewrite Heq, win_stems_empty, distinct_in_nil in Hu.
  apply cands_in_qs in Hcr. unfold num_terms in Hfull.
  destruct qs; [inversion Hcr | simpl in Hfull; lia].
Qed.

Lemma shrink_total (fuel right : nat) (w : window) (cr : candidate) :
  inv qs cands (S right) w -> cands !! right = Some cr ->
  (S right - left_ w < fuel)%nat ->
  exists w', shrink fuel cands num_terms window_size right w = Some w'
             /\ inv qs cands (S right) w'.
Proof.
  revert w. induction fuel as [|fuel IH]; intros w Hinv Hr Hfuel; [lia |].
  simpl. destruct (unique_stems_in_window w =? num_terms) eqn:Hfull;
    [| exists w; split; [reflexivity | exact Hinv]].
  apply Z.eqb_eq in Hfull.
  assert (Hlt : (left_ w < S right)%nat).
  { eapply full_window_nonempty; eauto. eapply list_elem_of_lookup_2; eauto. }
  destruct Hinv as [Hl Hh Hc Hu].
  destruct (lookup_lt_is_Some_2 cands (left_ w)) as [cl Hcl]; [lia |].
  rewrite Hcl, Hr.
  rewrite (win_stems_pop _ _ _ _ Hcl Hlt) in Hc, Hu.
  apply IH; [| exact Hr | simpl; lia].
  set (win' := win_stems cands (S (left_ w)) (S right)) in *.
  assert (Hn : count_of (counts w) (c_stem cl) - 1 = occ (c_stem cl) win').
  { rewrite Hc, occ_cons. destruct (decide (c_stem cl = c_stem cl)); [lia | congruence]. }
  split; simpl; [lia | exact Hh | |].
  - intros s. rewrite count_of_insert. fold win'.
    destruct (decide (s = c_stem cl)) as [-> | Hne]; [exact Hn |].
    rewrite Hc, occ_cons. destruct (decide (s = c_stem cl)); [contradiction | lia].
  - fold win'. rewrite Hn.
    assert (Hin : c_stem cl ∈ qs) by (apply cands_in_qs; eapply list_elem_of_lookup_2; eauto).
    destruct (occ (c_stem cl) win' =? 0) eqn:Hz.
    + apply Z.eqb_eq, occ_zero in Hz.
      rewrite Hu, (distinct_in_fresh qs win' (c_stem cl :: win') (c_stem cl)); auto; [lia |].
      intros x. apply elem_of_cons.
    + apply Z.eqb_neq in Hz.
      rewrite Hu. apply distinct_in_ext. intros x _.
      rewrite elem_of_cons. split; [intros [-> | H]; [| exact H] | tauto].
      destruct (decide (c_stem cl ∈ win')) as [H | H]; [exact H |].
      apply occ_zero in H. contradiction.
Qed.

Lemma advance_total (right : nat) (w : window) (cr : candidate) :
  inv qs cands right w -> cands !! right = Some cr ->
  exists w', advance cands num_terms window_size right w = Some w'
             /\ inv qs cands (S right) w'.
Proof.
  intros [Hl Hh Hc Hu] Hr. unfold advance. rewrite Hr.
  assert (Hlen : (right < length cands)%nat) by (eapply lookup_lt_Some; eauto).
  eapply shrink_total; [| exact Hr | simpl; lia].
  set (win := win_stems cands (left_ w) right) in *.
  split; simpl; [lia | lia | |].
  all: rewrite (win_stems_push _ _ _ _ Hr Hl); fold win.
  - intros s. rewrite count_of_insert, occ_snoc, !Hc.
    destruct (decide (s = c_stem cr)) as [-> | Hne]; [reflexivity | lia].
  - assert (Hin : c_stem cr ∈ qs) by (apply cands_in_qs; eapply list_elem_of_lookup_2; eauto).
    rewrite Hc. destruct (occ (c_stem cr) win =? 0) eqn:Hz.
    + apply Z.eqb_eq, occ_zero in Hz.
      rewrite Hu. symmetry. apply (distinct_in_fresh qs win _ (c_stem cr)); auto.
      intros x. rewrite elem_of_app, list_elem_of_singleton. tauto.
    + apply Z.eqb_neq in Hz. rewrite Hu. symmetry.
      apply distinct_in_ext. intros x _.
      rewrite elem_of_app, list_elem_of_singleton. split; [intros [H | ->] | tauto]; [exact H |].
      destruct (decide (c_stem cr ∈ win)) as [H | H]; [exact H |].
      apply occ_zero in H. contradiction.
Qed.

Lemma sweep_total (n start : nat) (w : window) :
  (start + n = length cands)%nat -> inv qs cands start w ->
  exists w', sweep cands num_terms window_size (seq start n) w = Some w'.
Proof.
  revert start w. induction n as [|n IH]; intros start w Hlen Hinv; simpl.
  - exists w. reflexivity.
  - destruct (lookup_lt_is_Some_2 cands start) as [cr Hcr]; [lia |].
    destruct (advance_total start w cr Hinv Hcr) as (w' & -> & Hinv').
    apply IH; [lia | exact Hinv'].
Qed.

End Totality.

(** ** Sorting and merging *)

Definition by_start (a b : span) : Prop := a.1 <= b.1.
Definition apart (a b : span) : Prop := a.2 < b.1.
Definition covered (x : span) (l : list span) : Prop :=
  exists m, m ∈ l /\ m.1 <= x.1 /\ x.2 <= m.2.

(** A span made of recorded spans that touch or overlap: a recorded span
    begins where it begins, a recorded span ends where it ends, and every
    offset from its start up to its end lies in a recorded span inside it,
    before that span's end (so no two parts of it are separated). *)
Definition made_of (raw : list span) (o : span) : Prop :=
  (exists b, (o.1, b) ∈ raw /\ b <= o.2) /\
  (exists a, (a, o.2) ∈ raw /\ o.1 <= a) /\
  (forall c, o.1 <= c < o.2 ->
     exists a b, (a, b) ∈ raw /\ o.1 <= a /\ a <= c /\ c < b /\ b <= o.2).

Lemma elem_of_insert_sorted (x y : span) (l : list span) :
  y ∈ insert_sorted x l <-> y = x \/ y ∈ l.
Proof.
  induction l as [|z l IH]; simpl.
  - rewrite list_elem_of_singleton, elem_of_nil. tauto.
  - destruct (span_leb x z); rewrite !elem_of_cons; [tauto |]. rewrite IH. tauto.
Qed.

Lemma elem_of_sort_spans (y : span) (l : list span) : y ∈ sort_spans l <-> y ∈ l.
Proof.
  induction l as [|x l IH]; simpl; [reflexivity |].
  rewrite elem_of_insert_sorted, elem_of_cons, IH. reflexivity.
Qed.

Lemma span_leb_false (x y : span) : span_leb x y = false -> y.1 <= x.1.
Proof. unfold span_leb. intros H. apply orb_false_iff in H as [H _]. lia. Qed.

Lemma span_leb_true (x y : span) : span_leb x y = true -> x.1 <= y.1.
Proof. unfold span_leb. intros H. apply orb_true_iff in H as [H | H]; lia. Qed.

Lemma insert_sorted_by_start (x : span) (l : list span) :
  StronglySorted by_start l -> StronglySorted by_start (insert_sorted x l).
Proof.
  induction 1 as [|z l Hs IH Hall]; simpl; [repeat constructor |].
  destruct (span_leb x z) eqn:Hxz.
  - constructor; [constructor; assumption |].
    apply span_leb_true in Hxz. constructor; [exact Hxz |].
    eapply Forall_impl; [exact Hall |]. unfold by_start. intros; simpl in *; lia.
  - constructor; [exact IH |].
    apply Forall_forall. intros y Hy. apply elem_of_insert_sorted in Hy.
    destruct Hy as [-> | Hy]; [apply span_leb_false, Hxz |].
    rewrite Forall_forall in Hall. apply Hall, Hy.
Qed.

Lemma sort_spans_by_start (l : list span) : StronglySorted by_start (sort_spans l).
Proof.
  induction l as [|x l IH]; simpl; [constructor | apply insert_sorted_by_start, IH].
Qed.

Lemma merge_from_head (rest : list span) (last : span) :
  exists e tl, merge_from last rest = (last.1, e) :: tl /\ last.2 <= e.
Proof.
  revert last. induction rest as [|[cs ce] rest IH]; intros last; simpl.
  - exists last.2, []. destruct last; simpl. split; [reflexivity | lia].
  - destruct (cs <=? last.2).
    + destruct (IH (last.1, Z.max last.2 ce)) as (e & tl & -> & He). simpl in *.
      exists e, tl. split; [reflexivity | lia].
    + exists last.2, (merge_from (cs, ce) rest). destruct last; simpl. split; [reflexivity | lia].
Qed.

Lemma merge_from_apart (rest : list span) (last : span) :
  Sorted apart (merge_from last rest).
Proof.
  revert last. induction rest as [|[cs ce] rest IH]; intros last; simpl.
  - repeat constructor.
  - destruct (cs <=? last.2) eqn:Hle; [apply IH |].
    constructor; [apply IH |].
    destruct (merge_from_head rest (cs, ce)) as (e & tl & -> & _).
    constructor. unfold apart; simpl. lia.
Qed.

Lemma merge_from_starts (rest : list span) (last x : span) :
  x ∈ merge_from last rest -> x.1 = last.1 \/ exists y, y ∈ rest /\ x.1 = y.1.
Proof.
  revert last. induction rest as [|[cs ce] rest IH]; intros last; simpl.
  - rewrite list_elem_of_singleton. intros ->. left; reflexivity.
  - destruct (cs <=? last.2).
    + intros H. apply IH in H as [H | (y & Hy & H)]; [left; exact H |].
      right. exists y. split; [right; exact Hy | exact H].
    + rewrite elem_of_cons. intros [-> | H]; [left; reflexivity |].
      right. apply IH in H as [H | (y & Hy & H)].
      * exists (cs, ce). split; [left | exact H].
      * exists y. split; [right; exact Hy | exact H].
Qed.

Lemma merge_from_by_start (rest : list span) (last : span) :
  StronglySorted by_start (last :: rest) ->
  StronglySorted by_start (merge_from last rest).
Proof.
  revert last. induction rest as [|[cs ce] rest IH]; intros last Hs; simpl.
  - repeat constructor.
  - apply StronglySorted_inv in Hs as [Hrest Hall].
    apply Forall_cons in Hall as [Hc Hall].
    apply StronglySorted_inv in Hrest as Hrest'. destruct Hrest' as [Hrest' Hall'].
    destruct (cs <=? last.2).
    + apply IH. constructor; [exact Hrest' |].
      eapply Forall_impl; [exact Hall |]. unfold by_start; simpl. intros; lia.
    + constructor; [apply IH, Hrest |].
      apply Forall_forall. intros x Hx. apply merge_from_starts in Hx.
      unfold by_start in *. destruct Hx as [-> | (y & Hy & ->)]; [exact Hc |].
      rewrite Forall_forall in Hall. apply Hall, Hy.
Qed.

Lemma covered_mono (x y : span) (l : list span) :
  y.1 <= x.1 -> x.2 <= y.2 -> covered y l -> covered x l.
Proof. intros H1 H2 (m & Hm & Ha & Hb). exists m. split; [exact Hm | lia]. Qed.

Lemma merge_from_covers (rest : list span) (last x : span) :
  StronglySorted by_start (last :: rest) ->
  x ∈ last :: rest -> covered x (merge_from last rest).
Proof.
  revert last x. induction rest as [|[cs ce] rest IH]; intros last x Hs Hx; simpl.
  - apply list_elem_of_singleton in Hx as ->. exists last.
    split; [apply list_elem_of_singleton; reflexivity | lia].
  - apply StronglySorted_inv in Hs as [Hrest Hall].
    apply Forall_cons in Hall as [Hc Hall]. unfold by_start in Hc; simpl in Hc.
    apply StronglySorted_inv in Hrest as Hrest'. destruct Hrest' as [Hrest' Hall'].
    destruct (cs <=? last.2) eqn:Hle.
    + set (last' := (last.1, Z.max last.2 ce)).
      assert (Hs' : StronglySorted by_start (last' :: rest)).
      { constructor; [exact Hrest' |].
        eapply Forall_impl; [exact Hall |]. unfold by_start; simpl. intros; lia. }
      assert (Hl : covered last' (merge_from last' rest)) by (apply IH; [exact Hs' | left]).
      apply elem_of_cons in Hx as [-> | Hx]; [| apply elem_of_cons in Hx as [-> | Hx]].
      * eapply covered_mono; [| | exact Hl]; simpl; lia.
      * eapply covered_mono; [| | exact Hl]; simpl; lia.
      * apply IH; [exact Hs' | right; exact Hx].
    + apply elem_of_cons in Hx as [-> | Hx].
      * exists last. split; [left | lia].
      * destruct (IH (cs, ce) x Hrest Hx) as (m & Hm & Hb).
        exists m. split; [right; exact Hm | exact Hb].
Qed.

Lemma made_of_recorded (raw : list span) (x : span) : x ∈ raw -> made_of raw x.
Proof.
  intros Hx. destruct x as [a b]. unfold made_of. simpl.
  split; [exists b; split; [exact Hx | lia] |].
  split; [exists a; split; [exact Hx | lia] |].
  intros c Hc. exists a, b. split; [exact Hx | lia].
Qed.

(** Merging the next span into the last one keeps it made of recorded
    spans. *)
Lemma made_of_merge (raw : list span) (last : span) (cs ce : Z) :
  made_of raw last -> (cs, ce) ∈ raw -> last.1 <= cs -> cs <= last.2 ->
  made_of raw (last.1, Z.max last.2 ce).
Proof.
  intros ((b & Hb & Hb') & (a & Ha & Ha') & Hcut) Hin Hs Hle.
  unfold made_of. simpl. split; [| split].
  - exists b. split; [exact Hb | lia].
  - destruct (Z.max_spec last.2 ce) as [[Hlt ->] | [Hge ->]].
    + exists cs. split; [exact Hin | exact Hs].
    + exists a. split; [exact Ha | exact Ha'].
  - intros c Hc. destruct (Z_lt_le_dec c last.2) as [Hin1 | Hout].
    + destruct (Hcut c ltac:(lia)) as (a' & b' & H1 & H2 & H3 & H4 & H5).
      exists a', b'. split; [exact H1 | lia].
    + exists cs, ce. split; [exact Hin | lia].
Qed.

Lemma merge_from_made_of (raw rest : list span) (last o : span) :
  StronglySorted by_start (last :: rest) ->
  made_of raw last -> (forall x, x ∈ rest -> x ∈ raw) ->
  o ∈ merge_from last rest -> made_of raw o.
Proof.
  revert last. induction rest as [|[cs ce] rest IH]; intros last Hs Hlast Hsub Ho;
    simpl in Ho.
  - apply list_elem_of_singleton in Ho as ->. exact Hlast.
  - apply StronglySorted_inv in Hs as [Hrest Hall].
    apply Forall_cons in Hall as [Hc Hall]. unfold by_start in Hc; simpl in Hc.
    apply StronglySorted_inv in Hrest as Hrest'. destruct Hrest' as [Hrest' Hall'].
    assert (Hin : (cs, ce) ∈ raw) by (apply Hsub; left).
    assert (Hsub' : forall x, x ∈ rest -> x ∈ raw) by (intros x Hx; apply Hsub; right; exact Hx).
    destruct (cs <=? last.2) eqn:Hle.
    + apply Z.leb_le in Hle.
      apply (IH (last.1, Z.max last.2 ce)); [| | exact Hsub' | exact Ho].
      * constructor; [exact Hrest' |].
        eapply Forall_impl; [exact Hall |]. unfold by_start; simpl. intros; lia.
      * apply (made_of_merge raw last cs ce); assumption.
    + apply elem_of_cons in Ho as [-> | Ho]; [exact Hlast |].
      apply (IH (cs, ce)); [exact Hrest | apply made_of_recorded, Hin | exact Hsub' | exact Ho].
Qed.

Lemma merge_results_made_of (res : list span) (o : span) :
  o ∈ merge_results res -> made_of res o.
Proof.
  unfold merge_results. pose proof (sort_spans_by_start res) as Hs.
  assert (Hsub : forall x, x ∈ sort_spans res -> x ∈ res)
    by (intros x; apply elem_of_sort_spans).
  destruct (sort_spans res) as [|first rest]; [intros H; inversion H |].
  apply merge_from_made_of; [exact Hs | | ].
  - apply made_of_recorded, Hsub. left.
  - intros x Hx. apply Hsub. right. exact Hx.
Qed.

Lemma merge_results_sorted (res : list span) :
  StronglySorted by_start (merge_results res).
Proof.
  unfold merge_results. pose proof (sort_spans_by_start res) as Hs.
  destruct (sort_spans res); [constructor | apply merge_from_by_start, Hs].
Qed.

Lemma merge_results_apart (res : list span) : Sorted apart (merge_results res).
Proof.
  unfold merge_results. destruct (sort_spans res); [constructor | apply merge_from_apart].
Qed.

Lemma merge_results_covers (res : list span) (x : span) :
  x ∈ res -> covered x (merge_results res).
Proof.
  intros Hx. apply elem_of_sort_spans in Hx.
  unfold merge_results. pose proof (sort_spans_by_start res) as Hs.
  destruct (sort_spans res); [inversion Hx | apply merge_from_covers; assumption].
Qed.

Lemma candidates_in_query_stems (stem : string -> string) (qs : list string)
    (text : string) (c : candidate) :
  c ∈ candidates_of stem qs text -> c_stem c ∈ qs.
Proof.
  unfold candidates_of. rewrite list_elem_of_omap.
  intros (t & _ & Ht). destruct (bool_decide (stem (lower t.2) ∈ qs)) eqn:Hd; [| discriminate].
  injection Ht as <-. simpl. apply bool_decide_eq_true in Hd. exact Hd.
Qed.

Lemma window_spans_total (stem : string -> string) (text query : string) (window_size : Z) :
  exists raw, window_spans stem text query window_size = Some raw.
Proof.
  unfold window_spans.
  set (qs := query_stems_of stem query). set (cands := candidates_of stem qs text).
  destruct (sweep_total qs cands window_size (NoDup_remove_dups _)
              (candidates_in_query_stems stem qs text)
              (length cands) 0 initial_window) as [w Hw]; [reflexivity | |].
  - split; simpl; try lia.
    + intros s. rewrite win_stems_empty. reflexivity.
    + rewrite win_stems_empty, distinct_in_nil. reflexivity.
  - exists (results w). rewrite Hw. reflexivity.
Qed.

Lemma find_fts_matches_total (stem : string -> string) (text query : string)
    (window_size : Z) :
  exists spans, _find_fts_matches stem text query window_size = Some spans.
Proof.
  destruct (window_spans_total stem text query window_size) as [raw Hraw].
  exists (merge_results raw). unfold _find_fts_matches. rewrite Hraw. reflexivity.
Qed.

(** The sample sentence of the specification. *)
Definition sample_text : string := "The cat sat near the dog today.".
Definition sample_query : string := "cat dog".

(** What the example needs of the stemmer: it keeps "cat" and "dog" apart,
    and sends none of the other words of the sentence to either stem. *)
Definition separates_sample (stem : string -> string) : Prop :=
  stem "cat" <> stem "dog" /\
  Forall (fun w => stem w <> stem "cat" /\ stem w <> stem "dog")
         ["the"; "sat"; "near"; "today"].

Lemma sample_candidates (stem : string -> string) :
  separates_sample stem ->
  query_stems_of stem sample_query = [stem "cat"; stem "dog"] /\
  candidates_of stem [stem "cat"; stem "dog"] sample_text =
    [ {| c_start := 4; c_end := 7; c_stem := stem "cat" |};
      {| c_start := 21; c_end := 24; c_stem := stem "dog" |} ].
Proof.
  intros [Hcd Hothers].
  repeat (apply Forall_cons in Hothers as [[? ?] Hothers]).
  split.
  - unfold query_stems_of.
    change (findall_words (lower sample_query)) with ["cat"; "dog"]. simpl.
    destruct (decide_rel elem_of (stem "cat") [stem "dog"]) as [Hin | _];
      [apply list_elem_of_singleton in Hin; contradiction | reflexivity].
  - unfold candidates_of.
    change (finditer_words sample_text) with
      [(0, 3, "The"); (4, 7, "cat"); (8, 11, "sat"); (12, 16, "near");
       (17, 20, "the"); (21, 24, "dog"); (25, 30, "today")].
    assert (Hmiss : forall w, stem w <> stem "cat" -> stem w <> stem "dog" ->
              bool_decide (stem w ∈ [stem "cat"; stem "dog"]) = false).
    { intros w Hw1 Hw2. apply bool_decide_eq_false.
      rewrite !elem_of_cons, elem_of_nil. tauto. }
    assert (Hcat : bool_decide (stem "cat" ∈ [stem "cat"; stem "dog"]) = true)
      by (apply bool_decide_eq_true; left).
    assert (Hdog : bool_decide (stem "dog" ∈ [stem "cat"; stem "dog"]) = true)
      by (apply bool_decide_eq_true; right; left).
    simpl.
    repeat match goal with
           | |- context [lower_char ?c] =>
               let v := eval vm_compute in (lower_char c) in
               change (lower_char c) with v
           end.
    rewrite (Hmiss "the"), (Hmiss "sat"), (Hmiss "near"), (Hmiss "today"), Hcat, Hdog
      by assumption.
    reflexivity.
Qed.

Lemma sample_result (stem : string -> string) :
  separates_sample stem ->
  _find_fts_matches stem sample_text sample_query 500 = Some [(4, 24)].
Proof.
  intros Hsep. destruct (sample_candidates stem Hsep) as [Hq Hc].
  destruct Hsep as [Hcd _].
  unfold _find_fts_matches, window_spans. rewrite Hq, Hc.
  cbn [length seq sweep advance lookup list_lookup c_stem initial_window counts
       results unique_stems_in_window left_ Z.of_nat].
  change (count_of ∅ (stem "cat")) with 0. simpl (0 =? 0).
  cbn [shrink unique_stems_in_window].
  simpl (0 + 1 =? _). cbn iota.
  cbn [sweep advance lookup list_lookup c_stem counts results unique_stems_in_window left_].
  rewrite count_of_insert, decide_False by congruence.
  change (count_of ∅ (stem "dog")) with 0. simpl (0 =? 0).
  cbn [shrink unique_stems_in_window lookup list_lookup left_ counts results c_start c_end c_stem].
  simpl (0 + 1 + 1 =? _). cbn iota.
  rewrite !count_of_insert. rewrite decide_False by congruence.
  rewrite decide_True by reflexivity.
  simpl (24 - 4 <=? 500). simpl (0 + 1 - 1 =? 0). cbn iota.
  cbn [shrink unique_stems_in_window]. simpl (0 + 1 + 1 - 1 =? _). cbn iota.
  reflexivity.
Qed.

Lemma no_candidates (stem : string -> string) (qs : list string) (text : string) :
  (forall t, t ∈ finditer_words text -> stem (lower t.2) ∉ qs) ->
  candidates_of stem qs text = [].
Proof.
  unfold candidates_of. induction (finditer_words text) as [|t l IH]; intros H; [reflexivity |].
  simpl. rewrite bool_decide_eq_false_2 by (apply H; left).
  apply IH. intros t' Ht'. apply H. right. exact Ht'.
Qed.

(** An identity stemmer, to instantiate the example. *)
Definition stem_id (w : string) : string := w.

(** C3.  For every stemmer, text, query and window, [_find_fts_matches]
    returns a list of spans (the window loop never reads past its candidates);
    the list is sorted by start; no two neighbouring spans touch or overlap
    (each ends strictly before the next begins); every span the sliding window
    recorded lies inside one of the returned spans; every returned span is
    made of recorded spans that touch or overlap (it begins with one, ends
    with one, and has no offset between its start and its end outside them:
    nothing is merged across a gap and nothing is returned that was not
    recorded); and the list is empty when no word of the text has a query
    stem.  For a stemmer that keeps "cat" and
    "dog" apart from each other and from the other words of
    "The cat sat near the dog today.", the query "cat dog" with window 500
    returns the single span (4, 24), which is the text from "cat" through
    "dog". *)
Theorem find_fts_matches_sorted_merged :
  (forall (stem : string -> string) (text query : string) (window_size : Z),
     exists raw spans,
       window_spans stem text query window_size = Some raw /\
       _find_fts_matches stem text query window_size = Some spans /\
       StronglySorted by_start spans /\
       Sorted apart spans /\
       (forall x, x ∈ raw -> covered x spans) /\
       (forall o, o ∈ spans -> made_of raw o) /\
       ((forall t, t ∈ finditer_words text ->
                   stem (lower t.2) ∉ query_stems_of stem query) ->
        spans = []))
  /\
  (forall stem : string -> string,
     separates_sample stem ->
     _find_fts_matches stem sample_text sample_query 500 = Some [(4, 24)] /\
     slice_str sample_text 4 24 = "cat sat near the dog").
Proof.
  split.
  - intros stem text query window_size.
    destruct (window_spans_total stem text query window_size) as [raw Hraw].
    exists raw, (merge_results raw). unfold _find_fts_matches. rewrite Hraw.
    split; [reflexivity |]. split; [reflexivity |].
    split; [apply merge_results_sorted |].
    split; [apply merge_results_apart |].
    split; [intros x; apply merge_results_covers |].
    split; [intros o; apply merge_results_made_of |].
    intros Hnone. unfold window_spans in Hraw.
    rewrite (no_candidates _ _ _ Hnone) in Hraw. simpl in Hraw.
    injection Hraw as <-. reflexivity.
  - intros stem Hsep. split; [apply sample_result, Hsep | reflexivity].
Qed.

Lemma find_fts_matches_sample_witness :
  separates_sample stem_id /\
  _find_fts_matches stem_id sample_text sample_query 500 = Some [(4, 24)].
Proof.
  assert (H : separates_sample stem_id).
  { split; [discriminate |]. repeat constructor; discriminate. }
  split; [exact H |].
  exact (proj1 (proj2 find_fts_matches_sorted_merged stem_id H)).
Defined.

End TextSearch.

(* ===================================================================== *)
(** * Configuration lookup (src/config_manager.py)                         *)
(* ===================================================================== *)

Module Config.
Import Permissions.

(** One entry of the ["libraries"] table of the configuration file. *)
Record library_entry := {
  le_default : bool;
  le_path : string;
  le_permissions : permissions;
  le_worker_timeout : option Z
}.

Definition resolved (name : string) (c : library_entry) : lib_conf :=
  {| lc_name := name; lc_path := le_path c; lc_permissions := le_permissions c |}.

Fixpoint assoc {A} (k : string) (l : list (string * A)) : option A :=
  match l with
  | [] => None
  | (k', v) :: r => if String.eqb k k' then Some v else assoc k r
  end.

(** [get_library_config]: a non-empty name selects that entry; no name (or
    the empty name) selects the first entry marked default, else the first
    entry.  [libs] is the table in file order. *)
Definition default_library (libs : list (string * library_entry))
    : option lib_conf :=
  match List.find (fun nc => le_default nc.2) libs, libs with
  | Some (n, c), _ => Some (resolved n c)
  | None, (n, c) :: _ => Some (resolved n c)
  | None, [] => None
  end.

Definition get_library_config (libs : list (string * library_entry))
    (library_name : option string) : option lib_conf :=
  match library_name with
  | Some name =>
      if String.eqb name "" then default_library libs
      else resolved name <$> assoc name libs
  | None => default_library libs
  end.

End Config.

(* ===================================================================== *)
(** * Content-search result cache (src/logic/__init__.py)                  *)
(* ===================================================================== *)

Module SearchCache.
Import Permissions TextSearch.

(** [(library_name, book_id, query)] *)
Definition cache_key : Type := option string * Z * string.

Record hit := {
  h_start : Z;
  h_length : Z;
  h_text : string;
  h_match_in_text : Z * Z
}.

(** A cache value.  [timestamp] is a reading of [datetime.now()], counted in
    microseconds (the clock's resolution; [timestamp()] is strictly monotone
    on such readings, so comparing ticks is comparing the floats). *)
Record entry := { timestamp : Z; e_results : list hit }.

(** [SEARCH_CACHE]: a dictionary, kept in insertion order. *)
Definition cache : Type := list (cache_key * entry).

Definition MAX_CACHE_SIZE : nat := 50.
Definition CACHE_TTL_SECONDS : Z := 30 * 60.
Definition ticks_per_second : Z := 1000000.

#[global] Instance cache_key_eq_dec : EqDecision cache_key.
Proof. solve_decision. Defined.

(** [SEARCH_CACHE.get(k)] *)
Fixpoint cache_get (k : cache_key) (c : cache) : option entry :=
  match c with
  | [] => None
  | (k', e) :: r => if decide (k = k') then Some e else cache_get k r
  end.

(** [del SEARCH_CACHE[k]] *)
Fixpoint cache_del (k : cache_key) (c : cache) : cache :=
  match c with
  | [] => []
  | (k', e) :: r => if decide (k = k') then r else (k', e) :: cache_del k r
  end.

(** [SEARCH_CACHE[k] = e]: a present key keeps its place, a new one goes last. *)
Fixpoint cache_set (k : cache_key) (e : entry) (c : cache) : cache :=
  match c with
  | [] => [(k, e)]
  | (k', e') :: r =>
      if decide (k = k') then (k, e) :: r else (k', e') :: cache_set k e r
  end.

(** [cached_data["timestamp"] = now] on the object the cache holds. *)
Definition cache_touch (k : cache_key) (now : Z) (c : cache) : cache :=
  match cache_get k c with
  | Some e => cache_set k {| timestamp := now; e_results := e_results e |} c
  | None => c
  end.

(** [sorted(SEARCH_CACHE.keys(), key=lambda k: SEARCH_CACHE[k]["timestamp"])]:
    a stable sort by timestamp. *)
Fixpoint insert_by_timestamp (x : cache_key * entry) (l : cache) : cache :=
  match l with
  | [] => [x]
  | y :: r =>
      if timestamp x.2 <=? timestamp y.2 then x :: l
      else y :: insert_by_timestamp x r
  end.

Definition sorted_by_timestamp (c : cache) : cache :=
  foldr insert_by_timestamp [] c.

Definition sorted_keys (c : cache) : list cache_key :=
  map fst (sorted_by_timestamp c).

(** Lines 182-187: evict when full, then store. *)
Definition cache_store (k : cache_key) (e : entry) (c : cache) : cache :=
  let c' :=
    if (MAX_CACHE_SIZE <=? length c)%nat then
      match sorted_keys c with
      | oldest :: _ => cache_del oldest c
      | [] => c
      end
    else c in
  cache_set k e c'.

(** [_purge_search_cache] at clock reading [now]. *)
Definition _purge_search_cache (now : Z) (c : cache) : cache :=
  List.filter
    (fun ke => negb (CACHE_TTL_SECONDS * ticks_per_second <? now - timestamp ke.2)) c.

(** One search hit: the span with its snippet, lines 164-175. *)
Definition make_hit (full_text : string) (sp : span) : hit :=
  let start := sp.1 in
  let end_ := sp.2 in
  let snippet_padding := 100 in
  let snippet_start := Z.max 0 (start - snippet_padding) in
  let snippet_end := Z.min (len full_text) (end_ + snippet_padding) in
  {| h_start := start;
     h_length := end_ - start;
     h_text := slice_str full_text snippet_start snippet_end;
     h_match_in_text := (start - snippet_start, end_ - snippet_start) |}.

Record search_reply := {
  sr_book_id : Z;
  sr_query : string;
  sr_total_results : Z;
  sr_offset : Z;
  sr_limit : Z;
  sr_results : list hit
}.

Section Search.

(** The configured libraries, the stemmer, and the worker's answer to
    [get_book_content(book_id, limit=None, offset=0, auto_convert)]:
    [Ok (Some text)] when the reply carries a ["content"] entry, [Ok None]
    when it is empty or carries none. *)
Variable libs : list (string * Config.library_entry).
Variable stem : string -> string.
Variable get_book_content : option string -> Z -> bool -> result (option string).

Definition auto_convert_of (library_name : option string) : bool :=
  match Config.get_library_config libs library_name with
  | Some lib_conf => negb (grant_falsy (perm_convert (lc_permissions lib_conf)))
  | None => false
  end.

(** [_search_book_content_impl].  [now] is the clock reading taken on the
    hit or at the store, [now_purge] the one taken by the final purge. *)
Definition _search_book_content_impl (c : cache) (now now_purge : Z)
    (book_id : Z) (query : string) (hit_limit offset : Z)
    (library_name : option string) : result search_reply * cache :=
  let cache_key := (library_name, book_id, query) in
  let finish (all_results : list hit) (c' : cache) :=
    (Ok {| sr_book_id := book_id;
           sr_query := query;
           sr_total_results := Z.of_nat (length all_results);
           sr_offset := offset;
           sr_limit := hit_limit;
           sr_results := slice all_results offset (offset + hit_limit) |},
     _purge_search_cache now_purge c') in
  match cache_get cache_key c with
  | Some cached_data =>
      finish (e_results cached_data) (cache_touch cache_key now c)
  | None =>
      match get_book_content library_name book_id (auto_convert_of library_name) with
      | Raise e => (Raise e, c)
      | Ok None =>
          (Raise (Exn RuntimeError
             ("Could not retrieve content for book " ++ str_of_int book_id
              ++ ". Ensure it exists and is convertible to TXT.")), c)
      | Ok (Some full_text) =>
          match _find_fts_matches stem full_text query 500 with
          | None =>
              (Raise (Exn RuntimeError
                 "Search processing failed: list index out of range"), c)
          | Some spans =>
              let search_results := map (make_hit full_text) spans in
              let cached_data := {| timestamp := now; e_results := search_results |} in
              finish search_results (cache_store cache_key cached_data c)
          end
      end
  end.

End Search.

(** ** Facts about the dictionary operations *)

Lemma cache_get_None (k : cache_key) (c : cache) :
  cache_get k c = None <-> k ∉ map fst c.
Proof.
  induction c as [|[k' e] r IH]; simpl.
  - split; [intros _; apply not_elem_of_nil | reflexivity].
  - rewrite not_elem_of_cons. destruct (decide (k = k')); [| rewrite IH]; split;
      try discriminate; try tauto.
Qed.

Lemma cache_set_fresh (k : cache_key) (e : entry) (c : cache) :
  k ∉ map fst c -> cache_set k e c = (c ++ [(k, e)])%list.
Proof.
  induction c as [|[k' e'] r IH]; simpl; intros H; [reflexivity |].
  apply not_elem_of_cons in H as [Hne H].
  destruct (decide (k = k')); [contradiction |]. rewrite IH by exact H. reflexivity.
Qed.

Lemma cache_del_middle (pre post : cache) (v : cache_key * entry) :
  v.1 ∉ map fst pre -> cache_del v.1 (pre ++ v :: post)%list = (pre ++ post)%list.
Proof.
  induction pre as [|[k' e'] r IH]; simpl; intros H.
  - destruct v as [k e]; simpl. destruct (decide (k = k)); [reflexivity | congruence].
  - apply not_elem_of_cons in H as [Hne H].
    destruct (decide (v.1 = k')); [contradiction |]. rewrite IH by exact H. reflexivity.
Qed.

Lemma insert_by_timestamp_head (x : cache_key * entry) (l : cache) :
  head (insert_by_timestamp x l) =
    match l with
    | [] => Some x
    | y :: _ => if timestamp x.2 <=? timestamp y.2 then Some x else Some y
    end.
Proof. destruct l as [|y r]; simpl; [reflexivity |]. destruct (_ <=? _); reflexivity. Qed.

(** The head of the stable sort is the first entry, in dictionary order,
    whose timestamp is minimal. *)
Lemma sorted_by_timestamp_head (c : cache) :
  c <> [] ->
  exists pre v post,
    c = (pre ++ v :: post)%list /\
    head (sorted_by_timestamp c) = Some v /\
    (forall x, x ∈ pre -> timestamp v.2 < timestamp x.2) /\
    (forall x, x ∈ post -> timestamp v.2 <= timestamp x.2).
Proof.
  induction c as [|x r IH]; intros Hne; [congruence |].
  unfold sorted_by_timestamp in *. simpl. rewrite insert_by_timestamp_head.
  destruct r as [|y r'].
  - exists [], x, []. simpl. repeat split; intros z Hz; inversion Hz.
  - destruct IH as (pre & v & post & Hc & Hh & Hpre & Hpost); [discriminate |].
    destruct (foldr insert_by_timestamp [] (y :: r')) as [|h tl] eqn:Hs; [discriminate |].
    simpl in Hh. injection Hh as ->.
    destruct (timestamp x.2 <=? timestamp v.2) eqn:Hle.
    + exists [], x, (y :: r'). simpl. repeat split; [intros z Hz; inversion Hz |].
      intros z Hz. rewrite Hc in Hz. apply elem_of_app in Hz as [Hz | Hz].
      * specialize (Hpre z Hz). lia.
      * apply elem_of_cons in Hz as [-> | Hz]; [lia |]. specialize (Hpost z Hz). lia.
    + exists (x :: pre), v, post. rewrite Hc. simpl. repeat split; [| exact Hpost].
      intros z Hz. apply elem_of_cons in Hz as [-> | Hz]; [lia | apply Hpre, Hz].
Qed.

Lemma cache_store_full (k : cache_key) (e : entry) (c : cache) :
  NoDup (map fst c) -> length c = MAX_CACHE_SIZE -> cache_get k c = None ->
  exists pre victim post,
    c = (pre ++ victim :: post)%list /\
    cache_store k e c = (pre ++ post ++ [(k, e)])%list /\
    (forall x, x ∈ pre -> timestamp victim.2 < timestamp x.2) /\
    (forall x, x ∈ post -> timestamp victim.2 <= timestamp x.2).
Proof.
  intros Hnd Hlen Hfresh.
  destruct (sorted_by_timestamp_head c) as (pre & v & post & Hc & Hh & Hpre & Hpost).
  { intros ->. discriminate Hlen. }
  exists pre, v, post. split; [exact Hc |]. split; [| split; assumption].
  unfold cache_store, sorted_keys. rewrite Hlen, Nat.leb_refl.
  destruct (sorted_by_timestamp c) as [|h tl]; [discriminate |].
  simpl in Hh. injection Hh as ->. simpl.
  apply cache_get_None in Hfresh.
  rewrite Hc in Hnd, Hfresh |- *. rewrite map_app in Hnd, Hfresh. simpl in Hnd, Hfresh.
  apply NoDup_app in Hnd as (_ & Hdisj & _).
  rewrite cache_del_middle.
  - rewrite cache_set_fresh, <- app_assoc; [reflexivity |].
    rewrite map_app. rewrite !elem_of_app, elem_of_cons in Hfresh.
    rewrite elem_of_app. tauto.
  - intros Hin. apply (Hdisj _ Hin). left.
Qed.

Lemma cache_store_room (k : cache_key) (e : entry) (c : cache) :
  (length c < MAX_CACHE_SIZE)%nat -> cache_store k e c = cache_set k e c.
Proof.
  intros H. unfold cache_store.
  destruct (MAX_CACHE_SIZE <=? length c)%nat eqn:Hle; [| reflexivity].
  apply Nat.leb_le in Hle. lia.
Qed.

Lemma cache_touch_hit (k : cache_key) (now : Z) (c : cache) (e : entry) :
  cache_get k c = Some e ->
  cache_get k (cache_touch k now c)
    = Some {| timestamp := now; e_results := e_results e |} /\
  map fst (cache_touch k now c) = map fst c /\
  (forall k', k' <> k -> cache_get k' (cache_touch k now c) = cache_get k' c).
Proof.
  intros Hget. unfold cache_touch. rewrite Hget.
  set (e' := {| timestamp := now; e_results := e_results e |}). clearbody e'.
  induction c as [|[k0 e0] r IH]; simpl in *; [discriminate |].
  destruct (decide (k = k0)) as [-> | Hne]; simpl.
  - destruct (decide (k0 = k0)); [| congruence].
    repeat split. intros k' Hk'. destruct (decide (k' = k0)); [contradiction | reflexivity].
  - destruct (decide (k = k0)); [contradiction |].
    destruct (IH Hget) as (H1 & H2 & H3). rewrite H2. repeat split; [exact H1 |].
    intros k' Hk'. destruct (decide (k' = k0)); [reflexivity | apply H3, Hk'].
Qed.

Lemma purge_fresh (now : Z) (c : cache) :
  (forall x, x ∈ c -> now - timestamp x.2 <= CACHE_TTL_SECONDS * ticks_per_second) ->
  _purge_search_cache now c = c.
Proof.
  intros H. unfold _purge_search_cache. induction c as [|x r IH]; [reflexivity |].
  simpl.
  assert (Hx : now - timestamp x.2 <= CACHE_TTL_SECONDS * ticks_per_second) by (apply H; left).
  apply Z.ltb_ge in Hx. rewrite Hx. simpl.
  rewrite IH; [reflexivity |]. intros y Hy. apply H. right. exact Hy.
Qed.

(** ** The operation on a full cache, and on a hit *)

Section Operation.

Variable libs : list (string * Config.library_entry).
Variable stem : string -> string.
Variable get_book_content : option string -> Z -> bool -> result (option string).

(** A miss on a full cache, end to end: the content is fetched, the matcher
    runs, the entry of least timestamp is evicted, the new entry is stored
    last with the clock reading [now], and the purge runs on the outcome. *)
Lemma search_miss_on_full_cache
    (c : cache) (now now_purge book_id : Z) (query : string) (hit_limit offset : Z)
    (library_name : option string) (full_text : string) :
  let key := (library_name, book_id, query) in
  NoDup (map fst c) -> length c = MAX_CACHE_SIZE -> cache_get key c = None ->
  get_book_content library_name book_id (auto_convert_of libs library_name)
    = Ok (Some full_text) ->
  exists pre victim post spans,
    c = (pre ++ victim :: post)%list /\
    (forall x, x ∈ pre -> timestamp victim.2 < timestamp x.2) /\
    (forall x, x ∈ post -> timestamp victim.2 <= timestamp x.2) /\
    _find_fts_matches stem full_text query 500 = Some spans /\
    let search_results := map (make_hit full_text) spans in
    let stored :=
      (pre ++ post
       ++ [(key, {| timestamp := now; e_results := search_results |})])%list in
    _search_book_content_impl libs stem get_book_content c now now_purge
        book_id query hit_limit offset library_name
      = (Ok {| sr_book_id := book_id;
               sr_query := query;
               sr_total_results := Z.of_nat (length search_results);
               sr_offset := offset;
               sr_limit := hit_limit;
               sr_results := Py.slice search_results offset (offset + hit_limit) |},
         _purge_search_cache now_purge stored) /\
    ((forall x, x ∈ stored ->
        now_purge - timestamp x.2 <= CACHE_TTL_SECONDS * ticks_per_second) ->
     _purge_search_cache now_purge stored = stored).
Proof.
  intros key Hnd Hlen Hmiss Hcontent.
  destruct (find_fts_matches_total stem full_text query 500) as (spans & Hspans).
  set (new_entry := {| timestamp := now; e_results := map (make_hit full_text) spans |}).
  destruct (cache_store_full key new_entry c Hnd Hlen Hmiss)
    as (pre & victim & post & Hc & Hstore & Hpre & Hpost).
  exists pre, victim, post, spans.
  split; [exact Hc |]. split; [exact Hpre |]. split; [exact Hpost |].
  split; [exact Hspans |]. cbv zeta. split; [| apply purge_fresh].
  unfold _search_book_content_impl. fold key. rewrite Hmiss, Hcontent, Hspans.
  fold new_entry. rewrite Hstore. reflexivity.
Qed.

(** A hit, end to end: the worker is not asked, the reply is cut from the
    cached results, the entry found has its timestamp overwritten with
    [now] and nothing else changes before the purge. *)
Lemma search_hit
    (c : cache) (now now_purge book_id : Z) (query : string) (hit_limit offset : Z)
    (library_name : option string) (e : entry) :
  let key := (library_name, book_id, query) in
  cache_get key c = Some e ->
  exists touched,
    _search_book_content_impl libs stem get_book_content c now now_purge
        book_id query hit_limit offset library_name
      = (Ok {| sr_book_id := book_id;
               sr_query := query;
               sr_total_results := Z.of_nat (length (e_results e));
               sr_offset := offset;
               sr_limit := hit_limit;
               sr_results := Py.slice (e_results e) offset (offset + hit_limit) |},
         _purge_search_cache now_purge touched) /\
    cache_get key touched = Some {| timestamp := now; e_results := e_results e |} /\
    map fst touched = map fst c /\
    (forall k', k' <> key -> cache_get k' touched = cache_get k' c).
Proof.
  intros key Hget. exists (cache_touch key now c). split.
  - unfold _search_book_content_impl. fold key. rewrite Hget. reflexivity.
  - apply cache_touch_hit, Hget.
Qed.

End Operation.

(** ** A run in which the evicted entry is not the first inserted one *)

Definition sample_key (i : nat) : cache_key := (Some "main", Z.of_nat i, "whale").

(** Every book of the sample library has the same text. *)
Definition sample_content (library_name : option string) (book_id : Z)
    (auto_convert : bool) : result (option string) :=
  Ok (Some "Call me Ishmael. The white whale swims.").

(** The cache after one search for "whale" in book [book] of "main", with
    the clock at [now] throughout the call. *)
Definition search_at (c : cache) (book : nat) (now : Z) : cache :=
  (_search_book_content_impl [] stem_id sample_content c now now
     (Z.of_nat book) "whale" 10 0 (Some "main")).2.

(** Fifty searches, in books 0 to 49, at clock readings 1 to 50. *)
Definition fifty_searches : cache :=
  foldl (fun c i => search_at c i (Z.of_nat (S i))) [] (seq 0 50).

(** Then the first search again, at reading 51: a hit. *)
Definition fifty_refreshed : cache := search_at fifty_searches 0 51.

(** C4.  [MAX_CACHE_SIZE] is 50.  A call of [_search_book_content_impl]
    whose key is not cached, on a cache of 50 entries and with a worker that
    delivers the content, removes exactly one entry before it stores: the
    entry of least timestamp (the first such entry in insertion order when
    several share it); it keeps every other entry in place, appends the new
    entry with the clock reading of the call, and then runs the purge of
    expired entries, which removes nothing when no entry has expired.  A call
    whose key is cached overwrites the timestamp of the entry it finds,
    answers from the cached results and changes nothing else before the
    purge.  After fifty searches at readings 1..50 and a repeat of the first
    of them at reading 51, the search of a new book at reading 52 evicts the
    second entry and keeps the first: the evicted entry is not the least
    recently inserted one. *)
Theorem cache_eviction_oldest_timestamp :
  MAX_CACHE_SIZE = 50%nat
  /\
  (forall (libs : list (string * Config.library_entry)) (stem : string -> string)
          (get_book_content : option string -> Z -> bool -> result (option string))
          (c : cache) (now now_purge book_id : Z) (query : string)
          (hit_limit offset : Z) (library_name : option string) (full_text : string),
     NoDup (map fst c) -> length c = MAX_CACHE_SIZE ->
     cache_get (library_name, book_id, query) c = None ->
     get_book_content library_name book_id (auto_convert_of libs library_name)
       = Ok (Some full_text) ->
     exists pre victim post spans,
       c = (pre ++ victim :: post)%list /\
       (forall x, x ∈ pre -> timestamp victim.2 < timestamp x.2) /\
       (forall x, x ∈ post -> timestamp victim.2 <= timestamp x.2) /\
       _find_fts_matches stem full_text query 500 = Some spans /\
       let search_results := map (make_hit full_text) spans in
       let stored :=
         (pre ++ post
          ++ [((library_name, book_id, query),
               {| timestamp := now; e_results := search_results |})])%list in
       _search_book_content_impl libs stem get_book_content c now now_purge
           book_id query hit_limit offset library_name
         = (Ok {| sr_book_id := book_id;
                  sr_query := query;
                  sr_total_results := Z.of_nat (length search_results);
                  sr_offset := offset;
                  sr_limit := hit_limit;
                  sr_results := Py.slice search_results offset (offset + hit_limit) |},
            _purge_search_cache now_purge stored) /\
       ((forall x, x ∈ stored ->
           now_purge - timestamp x.2 <= CACHE_TTL_SECONDS * ticks_per_second) ->
        _purge_search_cache now_purge stored = stored))
  /\
  (forall (libs : list (string * Config.library_entry)) (stem : string -> string)
          (get_book_content : option string -> Z -> bool -> result (option string))
          (c : cache) (now now_purge book_id : Z) (query : string)
          (hit_limit offset : Z) (library_name : option string) (e : entry),
     cache_get (library_name, book_id, query) c = Some e ->
     exists touched,
       _search_book_content_impl libs stem get_book_content c now now_purge
           book_id query hit_limit offset library_name
         = (Ok {| sr_book_id := book_id;
                  sr_query := query;
                  sr_total_results := Z.of_nat (length (e_results e));
                  sr_offset := offset;
                  sr_limit := hit_limit;
                  sr_results := Py.slice (e_results e) offset (offset + hit_limit) |},
            _purge_search_cache now_purge touched) /\
       cache_get (library_name, book_id, query) touched
         = Some {| timestamp := now; e_results := e_results e |} /\
       map fst touched = map fst c /\
       (forall k', k' <> (library_name, book_id, query) ->
                   cache_get k' touched = cache_get k' c))
  /\
  (map fst fifty_searches = map sample_key (seq 0 50) /\
   map (fun ke => timestamp ke.2) fifty_refreshed
     = (51 :: map Z.of_nat (seq 2 49))%list /\
   map fst fifty_refreshed = map sample_key (seq 0 50) /\
   map fst (search_at fifty_refreshed 50 52)
     = (sample_key 0 :: map sample_key (seq 2 49))%list).
Proof.
  split; [reflexivity |].
  split; [intros libs stem g c now now_purge book_id query hit_limit offset
                 library_name full_text;
          apply search_miss_on_full_cache |].
  split; [intros libs stem g c now now_purge book_id query hit_limit offset
                 library_name e;
          apply search_hit |].
  repeat split; vm_compute; reflexivity.
Qed.

Lemma cache_eviction_witness :
  exists pre victim post spans,
    fifty_refreshed = (pre ++ victim :: post)%list /\
    (forall x, x ∈ pre -> timestamp victim.2 < timestamp x.2) /\
    (forall x, x ∈ post -> timestamp victim.2 <= timestamp x.2) /\
    _find_fts_matches stem_id "Call me Ishmael. The white whale swims." "whale" 500
      = Some spans /\
    let search_results := map (make_hit "Call me Ishmael. The white whale swims.") spans in
    let stored :=
      (pre ++ post
       ++ [(sample_key 50, {| timestamp := 52; e_results := search_results |})])%list in
    _search_book_content_impl [] stem_id sample_content fifty_refreshed 52 52
        50 "whale" 10 0 (Some "main")
      = (Ok {| sr_book_id := 50;
               sr_query := "whale";
               sr_total_results := Z.of_nat (length search_results);
               sr_offset := 0;
               sr_limit := 10;
               sr_results := Py.slice search_results 0 (0 + 10) |},
         _purge_search_cache 52 stored) /\
    ((forall x, x ∈ stored ->
        52 - timestamp x.2 <= CACHE_TTL_SECONDS * ticks_per_second) ->
     _purge_search_cache 52 stored = stored).
Proof.
  apply (proj1 (proj2 cache_eviction_oldest_timestamp) [] stem_id sample_content
           fifty_refreshed 52 52 50 "whale" 10 0 (Some "main")
           "Call me Ishmael. The white whale swims.").
  - apply (bool_decide_unpack _). vm_compute. exact I.
  - vm_compute. reflexivity.
  - vm_compute. reflexivity.
  - reflexivity.
Defined.

End SearchCache.

(* ===================================================================== *)
(** * Worker pool (src/worker_pool.py)                                     *)
(* ===================================================================== *)

Module WorkerPool.
Import Permissions Config.

(** A handle on a worker process (a [subprocess.Popen] object). *)
Definition proc : Type := nat.

Record stats := { last_used : Z; active_requests : Z }.

(** The fields of [WorkerPool].  [worker_stderr_files] keeps the path of each
    worker's stderr capture file; [spawned] counts the processes started so
    far and names the next handle. *)
Record pool := {
  workers : gmap string proc;
  worker_stderr_files : gmap string string;
  worker_stats : gmap string stats;
  request_id_counter : Z;
  spawned : nat
}.

(** What one write/read exchange with a worker meets: a broken pipe on the
    write, or the lines its output stream yields from then on, after which
    the stream is closed. *)
Inductive transport :=
| Broken
| Lines (lines : list string).

(** [k in obj] for the objects [json.loads] can return. *)
Fixpoint dict_get (k : string) (d : list (string * value)) : option value :=
  match d with
  | [] => None
  | (k', v) :: r => if String.eqb k k' then Some v else dict_get k r
  end.

Definition is_str (k : string) (v : value) : bool :=
  match v with VStr s => String.eqb s k | _ => false end.

Definition py_in (k : string) (obj : value) : result bool :=
  match obj with
  | VDict d => Ok (match dict_get k d with Some _ => true | None => false end)
  | VStr s => Ok (contains k s)
  | VList l => Ok (existsb (is_str k) l)
  | _ => Raise (Exn TypeError ("argument of type '" ++ type_name obj ++ "' is not iterable"))
  end.

Definition noise_keywords : list string :=
  ["Warning:"; "SyntaxWarning:"; "DeprecationWarning:"; "FutureWarning:";
   "--- Worker Started at"].

(** [any(keyword in line for keyword in [...])] *)
Definition is_noise (line : string) : bool :=
  existsb (fun keyword => contains keyword line) noise_keywords.

(** [lines[-50:] if len(lines) > 50 else lines] *)
Definition last_lines (lines : list string) : list string :=
  if (50 <? length lines)%nat then drop (length lines - 50) lines else lines.

(** What [json.loads] makes of a text: the decoded value, a
    [json.JSONDecodeError], or any other exception ([RecursionError], a
    [RuntimeError], on a text nested too deeply). *)
Inductive decoded :=
| Decoded (v : value)
| DecodeError
| OtherError (e : exn).

(** How the first loop of [_extract_stderr_error] ends: with the ["error"]
    entry of a line, at the end of the lines, or in an exception that the
    enclosing [except Exception] turns into [None]. *)
Inductive scan :=
| Found (err : value)
| NotFound
| Aborted.

Section Pool.

(** The environment of the pool: the configured libraries; [proc.poll() is
    None]; whether [calibre-debug] can be launched; the path of the capture
    file opened for a library's next worker; the lines a capture file holds
    when it is read ([None] when reading fails); [json.loads]; [str()]; and
    the transport. *)
Variable libs : list (string * library_entry).
Variable alive : proc -> bool.
Variable launchable : bool.
Variable sink_path : string -> proc -> string.
Variable read_lines : string -> option (list string).
Variable json_loads : string -> decoded.
Variable py_str : value -> string.
Variable exchange : proc -> Z -> string -> value -> transport.

(** [f"{v}"] *)
Definition fmt (v : value) : string :=
  match v with VStr s => s | _ => py_str v end.

Definition fmt_name (library_name : option string) : string :=
  match library_name with Some n => n | None => "None" end.

(** The first loop of [_extract_stderr_error], over the reversed tail: only
    [json.JSONDecodeError] is caught inside the loop. *)
Fixpoint find_json_error (rev_lines : list string) : scan :=
  match rev_lines with
  | [] => NotFound
  | line :: rest =>
      let line := strip line in
      if String.eqb line "" then find_json_error rest
      else if is_noise line then find_json_error rest
      else
        match json_loads line with
        | Decoded (VDict data) =>
            match dict_get "error" data with
            | Some err => Found err
            | None => find_json_error rest
            end
        | Decoded _ => find_json_error rest
        | DecodeError => find_json_error rest
        | OtherError _ => Aborted
        end
  end.

(** The second loop. *)
Fixpoint find_plain_line (rev_lines : list string) : option string :=
  match rev_lines with
  | [] => None
  | line :: rest =>
      let line := strip line in
      if negb (String.eqb line "") && negb (is_noise line) then Some line
      else find_plain_line rest
  end.

(** The body of the [try]; [except Exception: return None] around it. *)
Definition extract_from (lines : list string) : value :=
  let tail := rev (last_lines lines) in
  match find_json_error tail with
  | Found err => err
  | Aborted => VNone
  | NotFound =>
      match find_plain_line tail with
      | Some line => VStr line
      | None => VNone
      end
  end.

(** [_extract_stderr_error]; [VNone] is Python's [None]. *)
Definition _extract_stderr_error (p : pool) (library_name : string) : value :=
  match worker_stderr_files p !! library_name with
  | None => VNone
  | Some stderr_path =>
      match read_lines stderr_path with
      | Some lines => extract_from lines
      | None => VNone
      end
  end.

Definition bump_stats (now : Z) (delta : Z) (name : string)
    (st : gmap string stats) : gmap string stats :=
  match st !! name with
  | Some s => <[name := {| last_used := now; active_requests := active_requests s + delta |}]> st
  | None => st
  end.

(** The branch of [get_worker] that starts a worker, lines 40-101: the
    capture file is recorded first, then the process is launched. *)
Definition start_worker (p : pool) (resolved_name : string) (now : Z)
    : result (proc * string) * pool :=
  let pr := spawned p in
  let files := <[resolved_name := sink_path resolved_name pr]> (worker_stderr_files p) in
  if launchable then
    (Ok (pr, resolved_name),
     {| workers := <[resolved_name := pr]> (workers p);
        worker_stderr_files := files;
        worker_stats :=
          bump_stats now 1 resolved_name
            (<[resolved_name := {| last_used := now; active_requests := 0 |}]>
               (worker_stats p));
        request_id_counter := request_id_counter p;
        spawned := S (spawned p) |})
  else
    (Raise (Exn RuntimeError "calibre-debug executable not found."),
     {| workers := workers p;
        worker_stderr_files := files;
        worker_stats := worker_stats p;
        request_id_counter := request_id_counter p;
        spawned := spawned p |}).

Definition reuse_worker (p : pool) (pr : proc) (resolved_name : string) (now : Z)
    : result (proc * string) * pool :=
  (Ok (pr, resolved_name),
   {| workers := workers p;
      worker_stderr_files := worker_stderr_files p;
      worker_stats := bump_stats now 1 resolved_name (worker_stats p);
      request_id_counter := request_id_counter p;
      spawned := spawned p |}).

(** [get_worker] at clock reading [now]: a worker is started when
    [proc is None or proc.poll() is not None]. *)
Definition get_worker (p : pool) (library_name : option string) (now : Z)
    : result (proc * string) * pool :=
  match get_library_config libs library_name with
  | None =>
      (Raise (Exn ValueError
         ("Library '" ++ fmt_name library_name ++ "' not found in configuration.")), p)
  | Some lib_conf =>
      let resolved_name := lc_name lib_conf in
      match workers p !! resolved_name with
      | None => start_worker p resolved_name now
      | Some pr =>
          if alive pr then reuse_worker p pr resolved_name now
          else start_worker p resolved_name now
      end
  end.

(** How the read loop of [send_rpc] ends. *)
Inductive read_outcome :=
| Closed
| Response (response : value)
| Failed (e : exn).

(** The [while True] loop, lines 183-213, over the lines still to come.
    Only [json.JSONDecodeError] is caught; any other exception of
    [json.loads], and the [TypeError] of [in] on a value that has no
    membership test, leave the loop and the call. *)
Fixpoint read_response (lines : list string) : read_outcome :=
  match lines with
  | [] => Closed
  | response_line :: rest =>
      if String.eqb response_line "" then Closed
      else
        let stripped := strip response_line in
        if String.eqb stripped "" then read_response rest
        else
          match json_loads stripped with
          | DecodeError => read_response rest
          | OtherError e => Failed e
          | Decoded response =>
              match py_in "jsonrpc" response with
              | Ok true => Response response
              | Ok false => read_response rest
              | Raise e => Failed e
              end
          end
  end.

Definition terminated_message (stderr_error : value) : string :=
  if truthy stderr_error
  then "Worker process terminated unexpectedly: " ++ fmt stderr_error
  else "Worker process terminated unexpectedly".

Definition del_worker (name : string) (p : pool) : pool :=
  {| workers := delete name (workers p);
     worker_stderr_files := worker_stderr_files p;
     worker_stats := worker_stats p;
     request_id_counter := request_id_counter p;
     spawned := spawned p |}.

Definition del_worker_and_stats (name : string) (p : pool) : pool :=
  {| workers := delete name (workers p);
     worker_stderr_files := worker_stderr_files p;
     worker_stats := delete name (worker_stats p);
     request_id_counter := request_id_counter p;
     spawned := spawned p |}.

(** The [finally] clause. *)
Definition release (now : Z) (name : string) (p : pool) : pool :=
  {| workers := workers p;
     worker_stderr_files := worker_stderr_files p;
     worker_stats := bump_stats now (-1) name (worker_stats p);
     request_id_counter := request_id_counter p;
     spawned := spawned p |}.

(** What [send_rpc] makes of a well-formed envelope, lines 215-219. *)
Definition deliver (response : value) : result value :=
  match py_in "error" response with
  | Raise e => Raise e
  | Ok true =>
      match response with
      | VDict d =>
          match dict_get "error" d with
          | Some (VDict err) =>
              Raise (Exn RuntimeError
                ("Worker Error: " ++
                 fmt (default (VStr "Unknown error") (dict_get "message" err))))
          | Some other =>
              Raise (Exn AttributeError
                ("'" ++ type_name other ++ "' object has no attribute 'get'"))
          | None => Ok VNone
          end
      | VStr _ => Raise (Exn TypeError "string indices must be integers, not 'str'")
      | _ => Raise (Exn TypeError "list indices must be integers or slices, not str")
      end
  | Ok false =>
      match response with
      | VDict d => Ok (default VNone (dict_get "result" d))
      | _ =>
          Raise (Exn AttributeError
            ("'" ++ type_name response ++ "' object has no attribute 'get'"))
      end
  end.

(** [send_rpc]; [now] is the clock at [get_worker], [now_done] the clock in
    the [finally] clause. *)
Definition send_rpc (p : pool) (library_name : option string) (method : string)
    (params : value) (now now_done : Z) : result value * pool :=
  match get_worker p library_name now with
  | (Raise e, p1) => (Raise e, p1)
  | (Ok (pr, resolved_name), p1) =>
      let req_id := request_id_counter p1 in
      let p2 :=
        {| workers := workers p1;
           worker_stderr_files := worker_stderr_files p1;
           worker_stats := worker_stats p1;
           request_id_counter := req_id + 1;
           spawned := spawned p1 |} in
      match exchange pr req_id method params with
      | Broken =>
          (Raise (Exn RuntimeError
             ("Communication with Calibre worker for '" ++ fmt_name library_name
              ++ "' failed.")),
           release now_done resolved_name (del_worker_and_stats resolved_name p2))
      | Lines lines =>
          match read_response lines with
          | Closed =>
              let stderr_error := _extract_stderr_error p2 resolved_name in
              (Raise (Exn RuntimeError (terminated_message stderr_error)),
               release now_done resolved_name (del_worker resolved_name p2))
          | Failed e => (Raise e, release now_done resolved_name p2)
          | Response response =>
              (deliver response, release now_done resolved_name p2)
          end
      end
  end.

End Pool.

(** ** Error extraction, as a specification *)

Section Extraction.

Variable json_loads : string -> decoded.

(** The value of the ["error"] entry when [line] decodes to an object that
    has one. *)
Definition json_error_of (line : string) : option value :=
  match json_loads line with
  | Decoded (VDict data) => dict_get "error" data
  | _ => None
  end.

Definition has_json_error (line : string) : bool :=
  match json_error_of line with Some _ => true | None => false end.

(** [json.loads(line)] raises something other than a decode error. *)
Definition decoding_fails (line : string) : bool :=
  match json_loads line with OtherError _ => true | _ => false end.

Definition first_json_error (lines : list string) : option value :=
  head (omap json_error_of lines).

(** The lines both loops consider: the last fifty, most recent first,
    stripped, without the empty ones and the noise. *)
Definition significant_lines (lines : list string) : list string :=
  List.filter (fun line => negb (String.eqb line "") && negb (is_noise line))
              (map strip (rev (last_lines lines))).

(** What the code extracts.  The most recent significant line that settles
    the scan is looked for: one that decodes to an object with an ["error"]
    entry, or one on which decoding fails otherwise.  The first kind gives
    its entry, the second gives nothing.  When no line settles the scan, the
    most recent significant line is the result; failing that, nothing. *)
Definition preferred_error (lines : list string) : value :=
  let significant := significant_lines lines in
  match List.find (fun line => decoding_fails line || has_json_error line) significant with
  | Some line => default VNone (json_error_of line)
  | None =>
      match significant with
      | line :: _ => VStr line
      | [] => VNone
      end
  end.

(** The rule as the specification words it: the most recent line that
    decodes to an object with an ["error"] entry, whether or not it matches a
    noise pattern; failing that, the most recent significant line. *)
Definition preferred_error_as_specified (lines : list string) : value :=
  match first_json_error (map strip (rev (last_lines lines))) with
  | Some err => err
  | None =>
      match significant_lines lines with
      | line :: _ => VStr line
      | [] => VNone
      end
  end.

Lemma decoding_fails_no_error (line : string) :
  decoding_fails line = true -> json_error_of line = None.
Proof.
  unfold decoding_fails, json_error_of.
  destruct (json_loads line); [discriminate | discriminate | reflexivity].
Qed.

Lemma find_json_error_filter (rev_lines : list string) :
  find_json_error json_loads rev_lines =
  match List.find (fun line => decoding_fails line || has_json_error line)
          (List.filter (fun line => negb (String.eqb line "") && negb (is_noise line))
                       (map strip rev_lines)) with
  | Some line =>
      match json_error_of line with
      | Some err => Found err
      | None => Aborted
      end
  | None => NotFound
  end.
Proof.
  induction rev_lines as [|line rest IH]; simpl; [reflexivity |].
  destruct (String.eqb (strip line) ""); simpl; [exact IH |].
  destruct (is_noise (strip line)); simpl; [exact IH |].
  assert (Hd : decoding_fails (strip line)
               = match json_loads (strip line) with OtherError _ => true | _ => false end)
    by reflexivity.
  assert (He : json_error_of (strip line)
               = match json_loads (strip line) with
                 | Decoded (VDict data) => dict_get "error" data
                 | _ => None
                 end) by reflexivity.
  unfold has_json_error at 1. rewrite Hd.
  destruct (json_loads (strip line)) as [v | | e].
  - destruct v as [| | | | | | data |]; rewrite ?He; simpl; try exact IH.
    destruct (dict_get "error" data) eqn:Herr; simpl; rewrite ?He;
      [reflexivity | exact IH].
  - rewrite He. simpl. exact IH.
  - simpl. rewrite He. reflexivity.
Qed.

Lemma find_plain_line_filter (rev_lines : list string) :
  find_plain_line rev_lines =
  head (List.filter (fun line => negb (String.eqb line "") && negb (is_noise line))
                    (map strip rev_lines)).
Proof.
  induction rev_lines as [|line rest IH]; simpl; [reflexivity |].
  destruct (negb (String.eqb (strip line) "") && negb (is_noise (strip line)));
    simpl; [reflexivity | exact IH].
Qed.

Lemma extract_from_preferred (lines : list string) :
  extract_from json_loads lines = preferred_error lines.
Proof.
  unfold extract_from, preferred_error, significant_lines.
  rewrite find_json_error_filter, find_plain_line_filter.
  destruct (List.find _ _) as [line|] eqn:Hfind.
  - destruct (json_error_of line); reflexivity.
  - destruct (List.filter _ _); reflexivity.
Qed.

End Extraction.

(** ** The call that meets a closed stream *)

Section StreamClosed.

Variable libs : list (string * library_entry).
Variable alive : proc -> bool.
Variable launchable : bool.
Variable sink_path : string -> proc -> string.
Variable read_lines : string -> option (list string).
Variable json_loads : string -> decoded.
Variable py_str : value -> string.
Variable exchange : proc -> Z -> string -> value -> transport.

Lemma get_worker_resolves (p p1 : pool) (library_name : option string) (now : Z)
    (pr : proc) (name : string) :
  get_worker libs alive launchable sink_path p library_name now = (Ok (pr, name), p1) ->
  exists lib_conf,
    get_library_config libs library_name = Some lib_conf /\ lc_name lib_conf = name.
Proof.
  unfold get_worker, start_worker, reuse_worker.
  destruct (get_library_config libs library_name) as [lib_conf|]; [| discriminate].
  intros H. exists lib_conf. split; [reflexivity |].
  destruct (workers p !! lc_name lib_conf) as [pr'|];
    [destruct (alive pr') |]; try destruct launchable; congruence.
Qed.

Lemma send_rpc_closed (p p1 : pool) (library_name : option string) (method : string)
    (params : value) (now now_done : Z) (pr : proc) (name : string)
    (lines : list string) :
  get_worker libs alive launchable sink_path p library_name now = (Ok (pr, name), p1) ->
  exchange pr (request_id_counter p1) method params = Lines lines ->
  read_response json_loads lines = Closed ->
  exists p',
    send_rpc libs alive launchable sink_path read_lines json_loads py_str exchange
             p library_name method params now now_done
      = (Raise (Exn RuntimeError
           (terminated_message py_str
              (_extract_stderr_error read_lines json_loads p1 name))), p') /\
    workers p' !! name = None /\
    workers p' = delete name (workers p1) /\
    (forall now',
       get_worker libs alive launchable sink_path p' library_name now'
       = start_worker launchable sink_path p' name now').
Proof.
  intros Hget Hex Hread.
  destruct (get_worker_resolves _ _ _ _ _ _ Hget) as (lib_conf & Hconf & Hname).
  unfold send_rpc. rewrite Hget, Hex, Hread. eexists. split; [reflexivity |].
  simpl. split; [apply lookup_delete_eq |]. split; [reflexivity |].
  intros now'. unfold get_worker. rewrite Hconf, Hname. simpl.
  rewrite lookup_delete_eq. reflexivity.
Qed.

End StreamClosed.

(** ** A sample run *)

Definition line_first : string := dq "{'error': 'first failure'}".
Definition line_warning : string := dq "{'error': 'RuntimeWarning: overflow encountered'}".

(** [json.loads] on the two lines of the sample; no other text is decoded
    in the sample run. *)
Definition sample_json_loads (line : string) : decoded :=
  if String.eqb line line_first then Decoded (VDict [("error", VStr "first failure")])
  else if String.eqb line line_warning
  then Decoded (VDict [("error", VStr "RuntimeWarning: overflow encountered")])
  else DecodeError.

Definition sample_sink : list string := [line_first; line_warning].

Definition sample_libs : list (string * library_entry) :=
  [("main",
    {| le_default := true; le_path := "/srv/calibre/main";
       le_permissions :=
         {| perm_read := GBool true; perm_write := GBool false;
            perm_delete := GAbsent; perm_convert := GAbsent |};
       le_worker_timeout := None |})].

Definition empty_pool : pool :=
  {| workers := ∅; worker_stderr_files := ∅; worker_stats := ∅;
     request_id_counter := 1; spawned := O |}.

(** A worker that closes its output without answering. *)
Definition silent_exchange (pr : proc) (req_id : Z) (method : string) (params : value)
    : transport := Lines [].

Definition sample_sink_path (name : string) (pr : proc) : string :=
  "/tmp/worker_" ++ name ++ "_.log".

Definition sample_read_lines (path : string) : option (list string) := Some sample_sink.

Definition sample_py_str (v : value) : string := "".

(** The sample run: on an empty pool, a call for the default library starts
    worker 0, which closes its output at once; its capture file holds the two
    JSON lines of [sample_sink]. *)
Definition sample_run : result value * pool :=
  send_rpc sample_libs (fun _ => true) true sample_sink_path sample_read_lines
           sample_json_loads sample_py_str silent_exchange
           empty_pool None "search_books" (VDict []) 100 101.

(** C2 as stated fails: the most recent JSON line with an ["error"] entry is
    the second line of the sink, but it contains "Warning:" and is skipped as
    noise, so the message is built from the older line. *)
Lemma stream_closed_skips_noisy_json_line :
  sample_run.1 =
    Raise (Exn RuntimeError "Worker process terminated unexpectedly: first failure")
  /\ workers sample_run.2 !! "main" = None
  /\ preferred_error_as_specified sample_json_loads sample_sink
     = VStr "RuntimeWarning: overflow encountered"
  /\ extract_from sample_json_loads sample_sink = VStr "first failure".
Proof. repeat split; vm_compute; reflexivity. Qed.

(** C2, amended.  When the worker's output closes before a line that decodes
    to an envelope with a ["jsonrpc"] entry arrives, [send_rpc] raises
    [RuntimeError], the pool no longer lists a worker for the library, and the
    next [get_worker] for it takes the branch that starts a process (with a
    launchable executable it returns the fresh handle and lists it).  The
    message is "Worker process terminated unexpectedly", followed by ": " and
    the extracted error when that is truthy.  The extracted error comes from
    the last fifty lines of the worker's capture file, stripped, empty lines
    and noise lines dropped.  Going from the most recent remaining line
    back, the first line that decodes to a JSON object with an ["error"]
    entry gives that entry, unless [json.loads] fails on it or on a line
    before it with something other than a decode error: then nothing is
    extracted.  When no remaining line does either, the most recent
    remaining line is the extracted error; without such a line, and without
    a readable capture file, there is none. *)
Theorem send_rpc_stream_closed_recovery :
  forall (libs : list (string * library_entry)) (alive : proc -> bool)
         (launchable : bool) (sink_path : string -> proc -> string)
         (read_lines : string -> option (list string))
         (json_loads : string -> decoded) (py_str : value -> string)
         (exchange : proc -> Z -> string -> value -> transport)
         (p p1 : pool) (library_name : option string) (method : string)
         (params : value) (now now_done : Z) (pr : proc) (name : string)
         (lines : list string),
    get_worker libs alive launchable sink_path p library_name now = (Ok (pr, name), p1) ->
    exchange pr (request_id_counter p1) method params = Lines lines ->
    read_response json_loads lines = Closed ->
    exists (p' : pool) (stderr_error : value),
      send_rpc libs alive launchable sink_path read_lines json_loads py_str exchange
               p library_name method params now now_done
        = (Raise (Exn RuntimeError (terminated_message py_str stderr_error)), p') /\
      workers p' !! name = None /\
      (forall now',
         get_worker libs alive launchable sink_path p' library_name now'
         = start_worker launchable sink_path p' name now') /\
      (launchable = true ->
       forall now', exists p'',
         get_worker libs alive launchable sink_path p' library_name now'
           = (Ok (spawned p', name), p'') /\
         workers p'' !! name = Some (spawned p')) /\
      stderr_error =
        match worker_stderr_files p1 !! name with
        | Some stderr_path =>
            match read_lines stderr_path with
            | Some tail => preferred_error json_loads tail
            | None => VNone
            end
        | None => VNone
        end.
Proof.
  intros libs alive launchable sink_path read_lines json_loads py_str exchange
         p p1 library_name method params now now_done pr name lines Hget Hex Hread.
  destruct (send_rpc_closed libs alive launchable sink_path read_lines json_loads
              py_str exchange p p1 library_name method params now now_done pr name
              lines Hget Hex Hread) as (p' & Hsend & Hgone & _ & Hnext).
  exists p', (_extract_stderr_error read_lines json_loads p1 name).
  split; [exact Hsend |]. split; [exact Hgone |]. split; [exact Hnext |]. split.
  - intros -> now'. rewrite Hnext. unfold start_worker. eexists. split; [reflexivity |].
    simpl. apply lookup_insert_eq.
  - unfold _extract_stderr_error.
    destruct (worker_stderr_files p1 !! name) as [path|]; [| reflexivity].
    destruct (read_lines path) as [tail|]; [| reflexivity].
    apply extract_from_preferred.
Qed.

Lemma send_rpc_stream_closed_witness :
  exists (p' : pool) (stderr_error : value),
    sample_run
      = (Raise (Exn RuntimeError (terminated_message sample_py_str stderr_error)), p') /\
    workers p' !! "main" = None /\
    stderr_error = VStr "first failure".
Proof.
  destruct (send_rpc_stream_closed_recovery
              sample_libs (fun _ => true) true sample_sink_path sample_read_lines
              sample_json_loads sample_py_str silent_exchange
              empty_pool
              (get_worker sample_libs (fun _ => true) true sample_sink_path
                          empty_pool None 100).2
              None "search_books" (VDict []) 100 101 O "main" []
              eq_refl eq_refl eq_refl)
    as (p' & stderr_error & Hrun & Hgone & _ & _ & Herr).
  exists p', stderr_error. split; [exact Hrun |]. split; [exact Hgone |].
  rewrite Herr. vm_compute. reflexivity.
Defined.

End WorkerPool.

(* ===================================================================== *)
(** * Operation layer (src/logic/metadata_ops.py, src/logic/__init__.py,
      and the grant checks of src/logic/permissions.py)                    *)
(* ===================================================================== *)

Module Logic.
Import Permissions Config.

(** ** Data *)

(** One entry of a library schema, as [get_library_schema] answers it. *)
Record field_schema := {
  fs_datatype : string;
  fs_separator : option string;
  fs_allowed_values : list string
}.

(** The remote calls the operation layer dispatches through
    [worker_pool.send_rpc]. *)
Inductive rpc_call :=
| GetLibrarySchema (library_name : option string)
| UpdateBook (library_name : option string) (book_id : Z) (changes : gmap string value)
| GetBookDetails (library_name : option string) (book_id : Z) (fields : option (list string))
| GetFieldValueCounts (library_name : option string) (field_name : string)
                      (book_ids : option (list Z)) (regex : option string).

Definition call_library (c : rpc_call) : option string :=
  match c with
  | GetLibrarySchema l => l
  | UpdateBook l _ _ => l
  | GetBookDetails l _ _ => l
  | GetFieldValueCounts l _ _ _ => l
  end.

Definition is_schema_fetch (c : rpc_call) : bool :=
  match c with GetLibrarySchema _ => true | _ => false end.

Definition is_update (c : rpc_call) : bool :=
  match c with UpdateBook _ _ _ => true | _ => false end.

(** The module-level state: the schema cache [_library_schemata], keyed by
    the [library_name] argument, and the calls dispatched so far. *)
Record state := {
  _library_schemata : gmap (option string) (gmap string field_schema);
  rpc_log : list rpc_call
}.

Definition initial_state : state := {| _library_schemata := ∅; rpc_log := [] |}.

(** The answer to [get_field_value_counts]: a dictionary from values to
    counts, in the order the worker built it, or something that is not a
    dictionary. *)
Inductive counts_answer :=
| NotADict (res : value)
| Counts (res : list (string * Z)).

(** Python builtins and packages the operations call. *)
Record runtime := {
  py_str : value -> string;
  py_int : value -> result Z;
  py_float : value -> result float;
  dateutil_parse : string -> result string;
  repr_set : list string -> string
}.

(** What the worker of a library answers to each call, given the calls
    dispatched before it; [Raise] is the [RuntimeError] of a failed
    exchange. *)
Record backend := {
  reply_schema : list rpc_call -> option string -> result (gmap string field_schema);
  reply_update : list rpc_call -> option string -> Z -> gmap string value -> result value;
  reply_details : list rpc_call -> option string -> Z -> option (list string)
                  -> result (gmap string value);
  reply_counts : list rpc_call -> option string -> string -> option (list Z)
                 -> option string -> result counts_answer
}.

(** ** A state-and-exception monad *)

Definition M (A : Type) : Type := state -> result A * state.

Definition ret {A} (a : A) : M A := fun st => (Ok a, st).

Definition throw {A} (e : exn) : M A := fun st => (Raise e, st).

Definition bind {A B} (m : M A) (k : A -> M B) : M B :=
  fun st =>
    match m st with
    | (Ok a, st') => k a st'
    | (Raise e, st') => (Raise e, st')
    end.

Definition lift {A} (r : result A) : M A := fun st => (r, st).

Notation "'let*' x := m 'in' k" := (bind m (fun x => k))
  (at level 10, x name, m at level 200, k at level 200).

Definition fmt_name (library_name : option string) : string :=
  match library_name with Some n => n | None => "None" end.

Section Operations.

Variable libs : list (string * library_entry).
Variable rt : runtime.
Variable be : backend.

(** [worker_pool.send_rpc] seen from the operation layer: an unknown library
    is refused before anything is sent; otherwise the call is dispatched and
    the worker's answer (or the failure of the exchange) comes back. *)
Definition send_rpc {A} (call : rpc_call) (reply : list rpc_call -> result A) : M A :=
  fun st =>
    match get_library_config libs (call_library call) with
    | None =>
        (Raise (Exn ValueError
           ("Library '" ++ fmt_name (call_library call)
            ++ "' not found in configuration.")), st)
    | Some _ =>
        (reply (rpc_log st),
         {| _library_schemata := _library_schemata st;
            rpc_log := rpc_log st ++ [call] |})
    end.

(** *** Grant checks (permissions.py) *)

Definition get_lib_conf (library_name : option string) : result lib_conf :=
  match get_library_config libs library_name with
  | Some lib_conf => Ok lib_conf
  | None => Raise (Exn ValueError ("Library '" ++ fmt_name library_name ++ "' not found."))
  end.

(** [requested_fields - allowed_fields] *)
Definition denied_fields (requested allowed : list string) : list string :=
  remove_dups (List.filter (fun f => negb (bool_decide (f ∈ allowed))) requested).

Definition check_write_permission (lib_conf : lib_conf)
    (changes_keys : option (list string)) : result grant :=
  let write_perm := perm_write (lc_permissions lib_conf) in
  let lib_name := lc_name lib_conf in
  if grant_falsy write_perm then
    Raise (Exn PermissionError ("Write access denied for library '" ++ lib_name ++ "'."))
  else
    match write_perm, changes_keys with
    | GList allowed, Some keys =>
        match denied_fields keys allowed with
        | [] => Ok write_perm
        | denied =>
            Raise (Exn PermissionError
              ("Write access denied for fields: " ++ repr_set rt denied
               ++ " in library '" ++ lib_name ++ "'. Allowed: "
               ++ repr_set rt (remove_dups allowed)))
        end
    | _, _ => Ok write_perm
    end.

Definition check_read_permission (lib_conf : lib_conf)
    (field_name : option string) : result grant :=
  let read_perm := perm_read (lc_permissions lib_conf) in
  let lib_name := lc_name lib_conf in
  match read_perm with
  | GList allowed =>
      match field_name with
      | Some f =>
          if bool_decide (f ∈ allowed) then Ok read_perm
          else Raise (Exn PermissionError
                 ("Read access denied for field '" ++ f ++ "' in library '"
                  ++ lib_name ++ "'."))
      | None => Ok read_perm
      end
  | _ =>
      if grant_falsy read_perm then
        Raise (Exn PermissionError ("Read access denied for library '" ++ lib_name ++ "'."))
      else Ok read_perm
  end.

(** *** Schema cache *)

(** The columns a non-empty field-list grant contributes. *)
Definition grant_columns (g : grant) : list string :=
  match g with GList l => l | _ => [] end.

Definition filter_schema (allowed_cols : list string)
    (schema : gmap string field_schema) : gmap string field_schema :=
  filter (fun kv => kv.1 ∈ allowed_cols) schema.

Definition store_schema (library_name : option string)
    (schema : gmap string field_schema) : M unit :=
  fun st =>
    (Ok tt, {| _library_schemata := <[library_name := schema]> (_library_schemata st);
               rpc_log := rpc_log st |}).

Definition cached_schema (library_name : option string)
    : M (option (gmap string field_schema)) :=
  fun st => (Ok (_library_schemata st !! library_name), st).

Definition _get_library_schema_impl (library_name : option string)
    : M (gmap string field_schema) :=
  let* cached := cached_schema library_name in
  match cached with
  | Some schema => ret schema
  | None =>
      let* schema := send_rpc (GetLibrarySchema library_name)
                            (fun log => reply_schema be log library_name) in
      match get_library_config libs library_name with
      | Some lib_conf =>
          let read_perm := perm_read (lc_permissions lib_conf) in
          let write_perm := perm_write (lc_permissions lib_conf) in
          if negb (grant_is_true read_perm) && negb (grant_is_true write_perm) then
            let allowed_cols := (grant_columns read_perm ++ grant_columns write_perm)%list in
            let filtered_schema := filter_schema allowed_cols schema in
            let* stored := store_schema library_name filtered_schema in
            ret filtered_schema
          else
            let* stored := store_schema library_name schema in
            ret schema
      | None =>
          let* stored := store_schema library_name schema in
          ret schema
      end
  end.

(** *** Series notation *)

Definition is_value_error (e : exn) : bool :=
  match exn_kind_of e with ValueError => true | _ => false end.

Definition is_value_or_type_error (e : exn) : bool :=
  match exn_kind_of e with ValueError | TypeError => true | _ => false end.

(** The longest prefix without a closing bracket, and what follows it. *)
Fixpoint span_not_close (s : string) : string * string :=
  match s with
  | EmptyString => ("", "")
  | String c r =>
      if Ascii.eqb c "]" then ("", s)
      else let '(a, b) := span_not_close r in (String c a, b)
  end.

(** A match of [\s*\[([^\]]+)\]$] at the start of [s]: the text of the
    bracket group.  [$] matches at the end, or before a final line feed. *)
Definition match_bracket_suffix (s : string) : option string :=
  match lstrip s with
  | String "[" r =>
      let '(index_str, rest) := span_not_close r in
      if String.eqb index_str "" then None
      else if String.eqb rest "]" || String.eqb rest (String "]" (String "010" ""))
      then Some index_str
      else None
  | _ => None
  end.

(** [re.match(r'^(.*?)\s*\[([^\]]+)\]$', s)]: the lazy first group [name]
    grows one character at a time and never takes a line feed. *)
Fixpoint match_bracket_go (name s : string) : option (string * string) :=
  match match_bracket_suffix s with
  | Some index_str => Some (name, index_str)
  | None =>
      match s with
      | EmptyString => None
      | String c r =>
          if Ascii.eqb c "010" then None
          else match_bracket_go (name ++ String c "") r
      end
  end.

Definition match_bracket_pattern (s : string) : option (string * string) :=
  match_bracket_go "" s.

Definition _normalize_series_field (series_input : string)
    : result (string * option float) :=
  let series_input := strip series_input in
  if (count_char "[" series_input =? 0)%nat && (count_char "]" series_input =? 0)%nat
  then Ok (series_input, None)
  else if negb (count_char "[" series_input =? 1)%nat
          || negb (count_char "]" series_input =? 1)%nat
  then Raise (Exn ValueError
         ("Invalid series format: multiple bracket pairs found in '"
          ++ series_input ++ "'"))
  else
    match match_bracket_pattern series_input with
    | None =>
        Raise (Exn ValueError
          ("Invalid series format: brackets must be at the end in '"
           ++ series_input ++ "'"))
    | Some (group1, index_str) =>
        let series_name := rstrip group1 in
        if (0 <? count_char "]" series_input)%nat
           && negb (rfind_char "]" series_input =? len series_input - 1)
        then Raise (Exn ValueError
               ("Invalid series format: content found after closing bracket in '"
                ++ series_input ++ "'"))
        else
          match py_float rt (VStr index_str) with
          | Ok series_index => Ok (series_name, Some series_index)
          | Raise e =>
              if is_value_error e then
                Raise (Exn ValueError
                  ("Invalid series index: '" ++ index_str
                   ++ "' is not a valid number in '" ++ series_input ++ "'"))
              else Raise e
          end
    end.

(** *** The validator *)

(** [str(item)] where the item may already be text. *)
Definition to_str (v : value) : string :=
  match v with VStr s => s | _ => py_str rt v end.

Definition unexpected (field_name : string) (e : exn) : string :=
  "Field '" ++ field_name ++ "': unexpected error during validation: "
  ++ exn_msg e ++ ".".

(** [changes[k]] / [k in changes] *)
Definition changes_get (k : string) (changes : list (string * value)) : option value :=
  assoc k changes.

Definition nonempty_stripped (items : list string) : list value :=
  map VStr (List.filter (fun s => negb (String.eqb s "")) (map strip items)).

Definition validate_text (field_name : string) (fs : field_schema) (val : value)
    (normalized : gmap string value) : gmap string value * list string :=
  if String.eqb field_name "identifiers" then
    match val with
    | VDict _ => (<[field_name := val]> normalized, [])
    | _ =>
        (normalized,
         ["Field '" ++ field_name ++ "': expected dictionary, got "
          ++ type_name val ++ "."])
    end
  else
    match fs_separator fs with
    | Some separator =>
        if String.eqb separator "" then
          (<[field_name := VStr (to_str val)]> normalized, [])
        else
          match val with
          | VStr s =>
              (<[field_name := VList (nonempty_stripped (Py.split separator s))]> normalized, [])
          | VList items =>
              (<[field_name := VList (nonempty_stripped (map to_str items))]> normalized, [])
          | _ =>
              (normalized,
               ["Field '" ++ field_name
                ++ "' (text with separator): expected string or list, got "
                ++ type_name val ++ "."])
          end
    | None => (<[field_name := VStr (to_str val)]> normalized, [])
    end.

Definition series_conflict_message (field_name series_text : string)
    (s_index provided_index : float) : string :=
  "Field '" ++ field_name ++ "': series string '" ++ series_text
  ++ "' implies index " ++ py_str rt (VFloat s_index)
  ++ ", but '" ++ field_name ++ "_index"
  ++ "' is also provided with a different value of "
  ++ py_str rt (VFloat provided_index) ++ ".".

Definition validate_series (changes : list (string * value)) (field_name : string)
    (val : value) (normalized : gmap string value)
    : gmap string value * list string :=
  let series_text := to_str val in
  match _normalize_series_field series_text with
  | Ok (s_name, s_index) =>
      let normalized := <[field_name := VStr s_name]> normalized in
      match s_index with
      | None => (normalized, [])
      | Some s_index =>
          let index_field := field_name ++ "_index" in
          match changes_get index_field changes with
          | Some provided =>
              match py_float rt provided with
              | Ok provided_index =>
                  if negb (PrimFloat.eqb provided_index s_index) then
                    (normalized,
                     [series_conflict_message field_name series_text s_index
                                              provided_index])
                  else (normalized, [])
              | Raise e =>
                  if is_value_or_type_error e then (normalized, [])
                  else (normalized, [unexpected field_name e])
              end
          | None => (<[index_field := VFloat s_index]> normalized, [])
          end
      end
  | Raise e =>
      if is_value_error e then
        (normalized, ["Field '" ++ field_name ++ "' (series): " ++ exn_msg e])
      else (normalized, [unexpected field_name e])
  end.

Definition validate_rating (field_name : string) (val : value)
    (normalized : gmap string value) : gmap string value * list string :=
  match py_int rt val with
  | Ok rating_val =>
      if (rating_val <? 0) || (10 <? rating_val) then
        (normalized,
         ["Field '" ++ field_name ++ "' (rating): value must be between 0 and 10, got "
          ++ str_of_int rating_val ++ "."])
      else (<[field_name := VInt rating_val]> normalized, [])
  | Raise e =>
      if is_value_or_type_error e then
        (normalized,
         ["Field '" ++ field_name ++ "' (rating): expected integer 0-10, got "
          ++ type_name val ++ " '" ++ to_str val ++ "'."])
      else (normalized, [unexpected field_name e])
  end.

Definition validate_datetime (field_name : string) (val : value)
    (normalized : gmap string value) : gmap string value * list string :=
  match val with
  | VStr s =>
      match dateutil_parse rt s with
      | Ok iso => (<[field_name := VStr iso]> normalized, [])
      | Raise e =>
          if is_value_or_type_error e then
            (normalized,
             ["Field '" ++ field_name ++ "' (datetime): unable to parse '" ++ s
              ++ "' as a date/time: " ++ exn_msg e ++ "."])
          else (normalized, [unexpected field_name e])
      end
  | VDatetime iso => (<[field_name := VStr iso]> normalized, [])
  | _ =>
      (normalized,
       ["Field '" ++ field_name
        ++ "' (datetime): expected string or datetime object, got "
        ++ type_name val ++ "."])
  end.

Definition validate_int (field_name : string) (val : value)
    (normalized : gmap string value) : gmap string value * list string :=
  match py_int rt val with
  | Ok n => (<[field_name := VInt n]> normalized, [])
  | Raise e =>
      if is_value_or_type_error e then
        (normalized,
         ["Field '" ++ field_name ++ "' (int): expected integer, got "
          ++ type_name val ++ " '" ++ to_str val ++ "'."])
      else (normalized, [unexpected field_name e])
  end.

Definition validate_float (field_name : string) (val : value)
    (normalized : gmap string value) : gmap string value * list string :=
  match py_float rt val with
  | Ok x => (<[field_name := VFloat x]> normalized, [])
  | Raise e =>
      if is_value_or_type_error e then
        (normalized,
         ["Field '" ++ field_name ++ "' (float): expected number, got "
          ++ type_name val ++ " '" ++ to_str val ++ "'."])
      else (normalized, [unexpected field_name e])
  end.

(** [value == "" or value in allowed_values] *)
Definition enum_accepts (allowed_values : list string) (val : value) : bool :=
  match val with
  | VStr s => String.eqb s "" || bool_decide (s ∈ allowed_values)
  | _ => false
  end.

Definition validate_enumeration (field_name : string) (fs : field_schema)
    (val : value) (normalized : gmap string value)
    : gmap string value * list string :=
  let allowed_values := fs_allowed_values fs in
  if enum_accepts allowed_values val then (<[field_name := val]> normalized, [])
  else
    (normalized,
     ["Field '" ++ field_name ++ "' (enumeration): value '" ++ to_str val
      ++ "' not in allowed values " ++ py_str rt (VList (map VStr allowed_values))
      ++ ". Empty string is also allowed."]).

Definition validate_bool (field_name : string) (val : value)
    (normalized : gmap string value) : gmap string value * list string :=
  match val with
  | VBool _ => (<[field_name := val]> normalized, [])
  | VNone => (<[field_name := VNone]> normalized, [])
  | VStr s =>
      let lower_val := strip (lower s) in
      if bool_decide (lower_val ∈ ["true"; "yes"; "1"]) then
        (<[field_name := VBool true]> normalized, [])
      else if bool_decide (lower_val ∈ ["false"; "no"; "0"]) then
        (<[field_name := VBool false]> normalized, [])
      else if bool_decide (lower_val ∈ ["none"; "null"; ""]) then
        (<[field_name := VNone]> normalized, [])
      else
        (normalized,
         ["Field '" ++ field_name ++ "' (bool): unable to convert string '" ++ s
          ++ "' to boolean. Use 'true', 'false', or 'none'."])
  | _ =>
      (normalized,
       ["Field '" ++ field_name ++ "' (bool): expected boolean, None, or string, got "
        ++ type_name val ++ "."])
  end.

Definition known_datatypes : list string :=
  ["text"; "series"; "rating"; "datetime"; "int"; "float"; "composite";
   "enumeration"; "comments"; "bool"].

Definition unknown_datatype_message (field_name datatype : string) : string :=
  "Field '" ++ field_name ++ "': unknown datatype '" ++ datatype
  ++ "', passing value through without validation.".

(** One iteration of the loop of [_validate_and_normalize_changes]: the new
    [normalized] and the messages appended to [errors]. *)
Definition validate_field (changes : list (string * value))
    (schema : gmap string field_schema) (field_name : string) (val : value)
    (normalized : gmap string value) : gmap string value * list string :=
  match schema !! field_name with
  | None =>
      (normalized,
       ["Field '" ++ field_name ++ "' does not exist in the library schema."])
  | Some fs =>
      let datatype := fs_datatype fs in
      if String.eqb datatype "text" then validate_text field_name fs val normalized
      else if String.eqb datatype "series" then
        validate_series changes field_name val normalized
      else if String.eqb datatype "rating" then validate_rating field_name val normalized
      else if String.eqb datatype "datetime" then
        validate_datetime field_name val normalized
      else if String.eqb datatype "int" then validate_int field_name val normalized
      else if String.eqb datatype "float" then validate_float field_name val normalized
      else if String.eqb datatype "composite" then
        (normalized,
         ["Field '" ++ field_name ++ "' is a composite field and cannot be written to."])
      else if String.eqb datatype "enumeration" then
        validate_enumeration field_name fs val normalized
      else if String.eqb datatype "comments" then
        (<[field_name := VStr (to_str val)]> normalized, [])
      else if String.eqb datatype "bool" then validate_bool field_name val normalized
      else
        (<[field_name := val]> normalized,
         [unknown_datatype_message field_name datatype])
  end.

(** The loop [for field_name, value in changes.items()]. *)
Fixpoint validate_loop (changes : list (string * value))
    (schema : gmap string field_schema) (items : list (string * value))
    (normalized : gmap string value) (errors : list string)
    : gmap string value * list string :=
  match items with
  | [] => (normalized, errors)
  | (field_name, val) :: rest =>
      let '(normalized', new_errors) :=
        validate_field changes schema field_name val normalized in
      validate_loop changes schema rest normalized' (errors ++ new_errors)
  end.

Definition _validate_and_normalize_changes (changes : list (string * value))
    (schema : gmap string field_schema) : gmap string value * list string :=
  validate_loop changes schema changes ∅ [].

(** *** Update *)

Definition validation_message (validation_errors : list string) : string :=
  "Validation errors occurred:" ++ String "010" ""
  ++ Py.join (String "010" "") (map (fun err => "  - " ++ err) validation_errors).

Definition _update_book_impl (book_id : Z) (changes : list (string * value))
    (library_name : option string) : M value :=
  let* lib_conf := lift (get_lib_conf library_name) in
  let* write_perm := lift (check_write_permission lib_conf (Some (map fst changes))) in
  let* schema := _get_library_schema_impl library_name in
  let '(normalized_changes, validation_errors) :=
    _validate_and_normalize_changes changes schema in
  match validation_errors with
  | _ :: _ => throw (Exn ValueError (validation_message validation_errors))
  | [] =>
      send_rpc (UpdateBook library_name book_id normalized_changes)
               (fun log => reply_update be log library_name book_id normalized_changes)
  end.

(** *** Field values *)

Record counted := { cv_value : string; cv_count : Z }.

(** The sort key [(-x["count"], x["value"].lower())], compared as tuples. *)
Definition counted_leb (a b : counted) : bool :=
  (- cv_count a <? - cv_count b)
  || ((- cv_count a =? - cv_count b)
      && str_leb (lower (cv_value a)) (lower (cv_value b))).

(** [items.sort(key=...)]: a stable sort. *)
Fixpoint insert_counted (x : counted) (l : list counted) : list counted :=
  match l with
  | [] => [x]
  | y :: r => if counted_leb x y then x :: l else y :: insert_counted x r
  end.

Definition sort_counted (l : list counted) : list counted :=
  foldr insert_counted [] l.

Record field_values_reply := {
  fv_field_name : string;
  fv_total_results : Z;
  fv_offset : Z;
  fv_limit : Z;
  fv_results : list counted
}.

Definition _get_field_values_impl (library_name : option string)
    (field_name : option string) (book_ids : option (list Z))
    (value_filter : option string) (limit offset : Z) : M field_values_reply :=
  match field_name with
  | None => throw (Exn ValueError "field_name is required")
  | Some "" => throw (Exn ValueError "field_name is required")
  | Some fname =>
      let* lib_conf := lift (get_lib_conf library_name) in
      let* read_perm := lift (check_read_permission lib_conf (Some fname)) in
      let* res := send_rpc (GetFieldValueCounts library_name fname book_ids value_filter)
                    (fun log => reply_counts be log library_name fname book_ids value_filter) in
      match res with
      | NotADict res =>
          throw (Exn RuntimeError ("Unexpected response from worker: " ++ to_str res))
      | Counts res =>
          let items := map (fun kv => {| cv_value := kv.1; cv_count := kv.2 |}) res in
          let items := sort_counted items in
          let total_count := Z.of_nat (length items) in
          let paged_items := Py.slice items offset (offset + limit) in
          ret {| fv_field_name := fname;
                 fv_total_results := total_count;
                 fv_offset := offset;
                 fv_limit := limit;
                 fv_results := paged_items |}
      end
  end.

(** *** Book details *)

Definition _get_book_details_impl (book_id : Z) (library_name : option string)
    (fields : option (list string)) : M (gmap string value) :=
  let* details := send_rpc (GetBookDetails library_name book_id fields)
                    (fun log => reply_details be log library_name book_id fields) in
  match get_library_config libs library_name with
  | Some lib_conf =>
      match perm_read (lc_permissions lib_conf) with
      | GList read_perm =>
          let allowed_keys := (read_perm ++ ["book_id"])%list in
          ret (filter (fun kv : string * value => kv.1 ∈ allowed_keys) details)
      | _ => ret details
      end
  | None => ret details
  end.

End Operations.

(** ** The schema cache *)

Section SchemaFacts.

Variable libs : list (string * library_entry).
Variable be : backend.

Lemma schema_cached (st : state) (library_name : option string)
    (schema : gmap string field_schema) :
  _library_schemata st !! library_name = Some schema ->
  _get_library_schema_impl libs be library_name st = (Ok schema, st).
Proof.
  intros H. unfold _get_library_schema_impl, bind, cached_schema. rewrite H. reflexivity.
Qed.

(** What a miss stores and returns, given the worker's schema. *)
Definition visible_schema (lib_conf : lib_conf) (schema : gmap string field_schema)
    : gmap string field_schema :=
  let read_perm := perm_read (lc_permissions lib_conf) in
  let write_perm := perm_write (lc_permissions lib_conf) in
  if negb (grant_is_true read_perm) && negb (grant_is_true write_perm)
  then filter_schema (grant_columns read_perm ++ grant_columns write_perm) schema
  else schema.

Lemma schema_miss (st : state) (library_name : option string) (lib_conf : lib_conf)
    (schema : gmap string field_schema) :
  _library_schemata st !! library_name = None ->
  get_library_config libs library_name = Some lib_conf ->
  reply_schema be (rpc_log st) library_name = Ok schema ->
  _get_library_schema_impl libs be library_name st =
    (Ok (visible_schema lib_conf schema),
     {| _library_schemata :=
          <[library_name := visible_schema lib_conf schema]> (_library_schemata st);
        rpc_log := rpc_log st ++ [GetLibrarySchema library_name] |}).
Proof.
  intros Hmiss Hconf Hreply.
  unfold _get_library_schema_impl, bind, cached_schema, send_rpc. simpl.
  rewrite Hmiss, Hconf, Hreply. unfold visible_schema.
  destruct (negb _ && negb _); reflexivity.
Qed.

Lemma filter_schema_lookup (cols : list string) (schema : gmap string field_schema)
    (k : string) :
  filter_schema cols schema !! k = if bool_decide (k ∈ cols) then schema !! k else None.
Proof.
  unfold filter_schema. destruct (bool_decide (k ∈ cols)) eqn:Hk.
  - apply bool_decide_eq_true in Hk. destruct (schema !! k) as [v|] eqn:Hv.
    + apply map_lookup_filter_Some. split; [exact Hv | exact Hk].
    + apply map_lookup_filter_None. left. exact Hv.
  - apply bool_decide_eq_false in Hk. apply map_lookup_filter_None. right.
    intros v _. exact Hk.
Qed.

(** One call changes the cache at its own key only, and appends at most its
    own fetch to the log. *)
Lemma schema_call_frame (st : state) (library_name : option string) :
  let st' := (_get_library_schema_impl libs be library_name st).2 in
  (forall other, other <> library_name ->
     _library_schemata st' !! other = _library_schemata st !! other) /\
  (rpc_log st' = rpc_log st \/
   rpc_log st' = (rpc_log st ++ [GetLibrarySchema library_name])%list).
Proof.
  unfold _get_library_schema_impl, bind, cached_schema, send_rpc. simpl.
  destruct (_library_schemata st !! library_name) as [s|]; simpl; [tauto |].
  destruct (get_library_config libs library_name) as [lib_conf|]; simpl; [| tauto].
  destruct (reply_schema be (rpc_log st) library_name) as [schema|e]; simpl; [| tauto].
  destruct (negb _ && negb _); simpl; (split; [| tauto]);
    intros other Hne; apply lookup_insert_ne; congruence.
Qed.

(** A run of get-schema calls, one after the other. *)
Definition run_schema_calls (calls : list (option string)) (st : state) : state :=
  foldl (fun st library_name => (_get_library_schema_impl libs be library_name st).2)
        st calls.

Definition is_fetch_of (library_name : option string) (c : rpc_call) : bool :=
  match c with
  | GetLibrarySchema l => bool_decide (l = library_name)
  | _ => false
  end.

(** Number of schema fetches dispatched for one cache key. *)
Definition fetches (library_name : option string) (log : list rpc_call) : nat :=
  length (List.filter (is_fetch_of library_name) log).

Lemma fetches_app (library_name : option string) (l1 l2 : list rpc_call) :
  fetches library_name (l1 ++ l2) = (fetches library_name l1 + fetches library_name l2)%nat.
Proof. unfold fetches. rewrite List.filter_app, length_app. reflexivity. Qed.

Lemma cached_key_never_fetched_again (calls : list (option string)) (st : state)
    (library_name : option string) (schema : gmap string field_schema) :
  _library_schemata st !! library_name = Some schema ->
  _library_schemata (run_schema_calls calls st) !! library_name = Some schema /\
  fetches library_name (rpc_log (run_schema_calls calls st))
    = fetches library_name (rpc_log st).
Proof.
  revert st. induction calls as [|l calls IH]; intros st Hc; simpl; [tauto |].
  destruct (decide (l = library_name)) as [-> | Hne].
  - rewrite (schema_cached st library_name schema Hc). simpl. apply IH, Hc.
  - destruct (schema_call_frame st l) as [Hframe Hlog]. simpl in Hframe, Hlog.
    set (st' := (_get_library_schema_impl libs be l st).2) in *.
    assert (Hc' : _library_schemata st' !! library_name = Some schema)
      by (rewrite Hframe by congruence; exact Hc).
    destruct (IH st' Hc') as [H1 H2]. split; [exact H1 |].
    rewrite H2. destruct Hlog as [-> | ->]; [reflexivity |].
    rewrite fetches_app. unfold fetches at 2. simpl.
    rewrite bool_decide_eq_false_2 by exact Hne. simpl. lia.
Qed.

(** A miss whose fetch fails: the call is dispatched, the error is passed
    on, and nothing is cached. *)
Lemma schema_miss_failed (st : state) (library_name : option string)
    (lib_conf : lib_conf) (e : exn) :
  _library_schemata st !! library_name = None ->
  get_library_config libs library_name = Some lib_conf ->
  reply_schema be (rpc_log st) library_name = Raise e ->
  _get_library_schema_impl libs be library_name st =
    (Raise e,
     {| _library_schemata := _library_schemata st;
        rpc_log := rpc_log st ++ [GetLibrarySchema library_name] |}).
Proof.
  intros Hmiss Hconf Hreply.
  unfold _get_library_schema_impl, bind, cached_schema, send_rpc. simpl.
  rewrite Hmiss, Hconf, Hreply. reflexivity.
Qed.

(** One call dispatches nothing, or dispatches the fetch of its key, and
    an answered fetch leaves the key cached. *)
Lemma schema_call_step (st : state) (library_name : option string) :
  let st' := (_get_library_schema_impl libs be library_name st).2 in
  rpc_log st' = rpc_log st \/
  (rpc_log st' = (rpc_log st ++ [GetLibrarySchema library_name])%list /\
   (is_ok (reply_schema be (rpc_log st) library_name) = true ->
    is_Some (_library_schemata st' !! library_name))).
Proof.
  unfold _get_library_schema_impl, bind, cached_schema, send_rpc. simpl.
  destruct (_library_schemata st !! library_name) as [s|]; simpl; [tauto |].
  destruct (get_library_config libs library_name) as [lib_conf|]; simpl; [| tauto].
  destruct (reply_schema be (rpc_log st) library_name) as [schema|e]; simpl.
  - destruct (negb _ && negb _); simpl; right; (split; [reflexivity |]);
      intros _; rewrite lookup_insert_eq; eauto.
  - right. split; [reflexivity | discriminate].
Qed.

Lemma run_schema_calls_log (calls : list (option string)) (st : state) :
  exists delta, rpc_log (run_schema_calls calls st) = (rpc_log st ++ delta)%list.
Proof.
  revert st. induction calls as [|c calls IH]; intros st; simpl.
  - exists []. rewrite app_nil_r. reflexivity.
  - destruct (IH (_get_library_schema_impl libs be c st).2) as [delta Hd].
    destruct (schema_call_step st c) as [Hl | [Hl _]]; cbv zeta in Hl;
      rewrite Hd, Hl; [eauto |].
    rewrite <- app_assoc. eauto.
Qed.

(** In a run of get-schema calls, a fetch that the worker answers is the
    last fetch dispatched for its key. *)
Lemma answered_fetch_is_last (calls : list (option string)) :
  forall (st : state) (pre post : list rpc_call) (library_name : option string),
    rpc_log (run_schema_calls calls st)
      = (rpc_log st ++ pre ++ GetLibrarySchema library_name :: post)%list ->
    is_ok (reply_schema be (rpc_log st ++ pre) library_name) = true ->
    fetches library_name post = 0%nat.
Proof.
  induction calls as [|c calls IH]; intros st pre post k Hlog Hans; simpl in Hlog.
  - rewrite <- (app_nil_r (rpc_log st)) in Hlog at 1.
    apply app_inv_head in Hlog. destruct pre; discriminate.
  - set (st1 := (_get_library_schema_impl libs be c st).2) in *.
    destruct (schema_call_step st c) as [Hl | [Hl Hcached]]; cbv zeta in *; fold st1 in Hl.
    + apply (IH st1 pre post k); rewrite Hl; assumption.
    + fold st1 in Hcached.
      destruct (run_schema_calls_log calls st1) as [delta Hd].
      rewrite Hd, Hl, <- app_assoc in Hlog. apply app_inv_head in Hlog.
      destruct pre as [|x pre]; simpl in Hlog; injection Hlog as Hx Hdelta.
      * subst delta. rewrite <- Hx in *.
        rewrite app_nil_r in Hans. destruct (Hcached Hans) as [schema Hs].
        destruct (cached_key_never_fetched_again calls st1 c schema Hs) as [_ Hf].
        rewrite Hd, fetches_app in Hf. lia.
      * subst x delta. apply (IH st1 pre post k).
        -- rewrite Hd, Hl. reflexivity.
        -- rewrite Hl, <- app_assoc. exact Hans.
Qed.

(** One library reached under two names is fetched once for each name. *)
Lemma fetched_once_per_name (lib_conf : lib_conf) (n1 n2 : option string)
    (s1 s2 : gmap string field_schema) :
  n1 <> n2 ->
  get_library_config libs n1 = Some lib_conf ->
  get_library_config libs n2 = Some lib_conf ->
  reply_schema be [] n1 = Ok s1 ->
  reply_schema be [GetLibrarySchema n1] n2 = Ok s2 ->
  rpc_log (run_schema_calls [n1; n2] initial_state)
    = [GetLibrarySchema n1; GetLibrarySchema n2].
Proof.
  intros Hne Hc1 Hc2 Hr1 Hr2. unfold run_schema_calls. simpl.
  rewrite (schema_miss initial_state n1 lib_conf s1 (lookup_empty _) Hc1 Hr1). simpl.
  rewrite (schema_miss _ n2 lib_conf s2); simpl;
    [reflexivity | | exact Hc2 | exact Hr2].
  rewrite lookup_insert_ne by exact Hne. apply lookup_empty.
Qed.

End SchemaFacts.

(** ** A two-library deployment for the examples *)

Definition plain (datatype : string) : field_schema :=
  {| fs_datatype := datatype; fs_separator := None; fs_allowed_values := [] |}.

Definition sample_libs : list (string * library_entry) :=
  [("main",
    {| le_default := true; le_path := "/srv/calibre/main";
       le_permissions :=
         {| perm_read := GList ["title"; "authors"]; perm_write := GList ["title"; "rating"];
            perm_delete := GAbsent; perm_convert := GAbsent |};
       le_worker_timeout := None |});
   ("archive",
    {| le_default := false; le_path := "/srv/calibre/archive";
       le_permissions :=
         {| perm_read := GBool true; perm_write := GBool true;
            perm_delete := GAbsent; perm_convert := GAbsent |};
       le_worker_timeout := None |})].

Definition sample_schema : gmap string field_schema :=
  {[ "title" := plain "text"; "authors" := plain "text"; "rating" := plain "rating";
     "comments" := plain "comments"; "#shelf" := plain "shelf" ]}.

Definition sample_backend : backend :=
  {| reply_schema := fun _ _ => Ok sample_schema;
     reply_update := fun _ _ _ _ => Ok (VStr "success");
     reply_details := fun _ _ _ _ => Ok ∅;
     reply_counts := fun _ _ _ _ _ => Ok (Counts []) |}.

(** C8.  The schema cache is keyed by the [library_name] argument as
    passed, not by the library.  A call whose key is cached returns the
    cached mapping and dispatches nothing, and from then on no run of
    get-schema calls dispatches another fetch for that key.  A miss on a
    configured library dispatches one fetch: when the worker answers, what
    the call returns is cached under the key, and when neither the read
    grant nor the write grant is the boolean true, it holds exactly the
    fields of the worker's schema that occur in the read list or in the
    write list; when the fetch fails, the error is passed on and nothing is
    cached.  So in every run of get-schema calls a fetch the worker answers
    is the last fetch for its key.  But one library reached under two names
    (the default library, without a name and by its name) is fetched once
    for each name. *)
Theorem schema_fetched_once_per_key :
  forall (libs : list (string * library_entry)) (be : backend),
    (forall st library_name schema,
       _library_schemata st !! library_name = Some schema ->
       _get_library_schema_impl libs be library_name st = (Ok schema, st) /\
       forall calls,
         fetches library_name (rpc_log (run_schema_calls libs be calls st))
         = fetches library_name (rpc_log st))
    /\
    (forall st library_name lib_conf schema,
       _library_schemata st !! library_name = None ->
       get_library_config libs library_name = Some lib_conf ->
       reply_schema be (rpc_log st) library_name = Ok schema ->
       exists returned st',
         _get_library_schema_impl libs be library_name st = (Ok returned, st') /\
         _library_schemata st' !! library_name = Some returned /\
         rpc_log st' = (rpc_log st ++ [GetLibrarySchema library_name])%list /\
         (grant_is_true (perm_read (lc_permissions lib_conf)) = false ->
          grant_is_true (perm_write (lc_permissions lib_conf)) = false ->
          forall k,
            returned !! k =
              if bool_decide (k ∈ grant_columns (perm_read (lc_permissions lib_conf))
                              \/ k ∈ grant_columns (perm_write (lc_permissions lib_conf)))
              then schema !! k else None))
    /\
    (forall st library_name lib_conf e,
       _library_schemata st !! library_name = None ->
       get_library_config libs library_name = Some lib_conf ->
       reply_schema be (rpc_log st) library_name = Raise e ->
       _get_library_schema_impl libs be library_name st =
         (Raise e,
          {| _library_schemata := _library_schemata st;
             rpc_log := rpc_log st ++ [GetLibrarySchema library_name] |}))
    /\
    (forall calls st pre post library_name,
       rpc_log (run_schema_calls libs be calls st)
         = (rpc_log st ++ pre ++ GetLibrarySchema library_name :: post)%list ->
       is_ok (reply_schema be (rpc_log st ++ pre) library_name) = true ->
       fetches library_name post = 0%nat)
    /\
    (forall lib_conf n1 n2 s1 s2,
       n1 <> n2 ->
       get_library_config libs n1 = Some lib_conf ->
       get_library_config libs n2 = Some lib_conf ->
       reply_schema be [] n1 = Ok s1 ->
       reply_schema be [GetLibrarySchema n1] n2 = Ok s2 ->
       rpc_log (run_schema_calls libs be [n1; n2] initial_state)
         = [GetLibrarySchema n1; GetLibrarySchema n2]).
Proof.
  intros libs be. split; [| split; [| split; [| split]]].
  - intros st library_name schema Hc. split; [apply schema_cached, Hc |].
    intros calls. eapply cached_key_never_fetched_again, Hc.
  - intros st library_name lib_conf schema Hmiss Hconf Hreply.
    eexists _, _. split; [apply (schema_miss libs be st _ lib_conf schema); assumption |].
    simpl. split; [apply lookup_insert_eq |]. split; [reflexivity |].
    intros Hr Hw k. unfold visible_schema. rewrite Hr, Hw. simpl.
    rewrite filter_schema_lookup.
    destruct (bool_decide (k ∈ (_ ++ _)%list)) eqn:H1.
    + apply bool_decide_eq_true, elem_of_app in H1.
      rewrite bool_decide_eq_true_2 by exact H1. reflexivity.
    + apply bool_decide_eq_false in H1. rewrite elem_of_app in H1.
      rewrite bool_decide_eq_false_2 by exact H1. reflexivity.
  - apply schema_miss_failed.
  - intros calls. apply answered_fetch_is_last.
  - apply fetched_once_per_name.
Qed.

Lemma schema_fetched_once_witness :
  rpc_log (run_schema_calls sample_libs sample_backend [None; Some "main"] initial_state)
    = [GetLibrarySchema None; GetLibrarySchema (Some "main")].
Proof.
  exact (proj2 (proj2 (proj2 (proj2
           (schema_fetched_once_per_key sample_libs sample_backend))))
           {| lc_name := "main"; lc_path := "/srv/calibre/main";
              lc_permissions :=
                {| perm_read := GList ["title"; "authors"];
                   perm_write := GList ["title"; "rating"];
                   perm_delete := GAbsent; perm_convert := GAbsent |} |}
           None (Some "main") sample_schema sample_schema
           ltac:(discriminate) eq_refl eq_refl eq_refl eq_refl).
Defined.

(** C9.  When the library is configured and the worker answers
    [get_book_details] with a record, the record handed to the caller is,
    under a field-list read grant, the worker's record restricted to the keys
    of the list and ["book_id"] (every other key is absent, every kept key has
    the worker's value); under any other read grant it is the worker's record
    unchanged. *)
Theorem book_details_filtered_by_read_grant :
  forall (libs : list (string * library_entry)) (be : backend) (st : state)
         (book_id : Z) (library_name : option string) (fields : option (list string))
         (lib_conf : lib_conf) (details : gmap string value),
    get_library_config libs library_name = Some lib_conf ->
    reply_details be (rpc_log st) library_name book_id fields = Ok details ->
    exists res st',
      _get_book_details_impl libs be book_id library_name fields st = (Ok res, st') /\
      match perm_read (lc_permissions lib_conf) with
      | GList read_perm =>
          forall k,
            res !! k =
              if bool_decide (k ∈ read_perm \/ k = "book_id") then details !! k else None
      | _ => res = details
      end.
Proof.
  intros libs be st book_id library_name fields lib_conf details Hconf Hreply.
  unfold _get_book_details_impl, bind, send_rpc. simpl. rewrite Hconf, Hreply.
  destruct (perm_read (lc_permissions lib_conf)) as [| b | read_perm] eqn:Hperm;
    try (eexists _, _; split; reflexivity).
  eexists _, _. split; [reflexivity |]. intros k.
  destruct (bool_decide (k ∈ read_perm \/ k = "book_id")) eqn:Hk.
  - apply bool_decide_eq_true in Hk. destruct (details !! k) as [v|] eqn:Hv.
    + apply map_lookup_filter_Some. split; [exact Hv |]. simpl.
      rewrite elem_of_app, list_elem_of_singleton. exact Hk.
    + apply map_lookup_filter_None. left. exact Hv.
  - apply bool_decide_eq_false in Hk. apply map_lookup_filter_None. right.
    intros v _. simpl. rewrite elem_of_app, list_elem_of_singleton. exact Hk.
Qed.

Definition details_backend : backend :=
  {| reply_schema := fun _ _ => Ok sample_schema;
     reply_update := fun _ _ _ _ => Ok (VStr "success");
     reply_details := fun _ _ _ _ =>
       Ok {[ "book_id" := VInt 7; "title" := VStr "Dune"; "path" := VStr "/srv/x" ]};
     reply_counts := fun _ _ _ _ _ => Ok (Counts []) |}.

Lemma book_details_witness :
  exists res st',
    _get_book_details_impl sample_libs details_backend 7 None None initial_state
      = (Ok res, st') /\
    forall k,
      res !! k =
        if bool_decide (k ∈ ["title"; "authors"] \/ k = "book_id")
        then ({[ "book_id" := VInt 7; "title" := VStr "Dune"; "path" := VStr "/srv/x" ]}
                : gmap string value) !! k
        else None.
Proof.
  exact (book_details_filtered_by_read_grant sample_libs details_backend
           initial_state 7 None None _ _ eq_refl eq_refl).
Defined.

(** ** Field values *)

(** Descending count, ties by ascending lower-cased value. *)
Definition counted_before (a b : counted) : Prop :=
  cv_count a > cv_count b \/
  (cv_count a = cv_count b /\
   str_leb (lower (cv_value a)) (lower (cv_value b)) = true).

Lemma str_leb_total (a b : string) : str_leb a b = true \/ str_leb b a = true.
Proof.
  revert b. induction a as [|x a IH]; intros [|y b]; simpl; auto.
  destruct (nat_of_ascii x <? nat_of_ascii y)%nat eqn:H1; [auto |].
  destruct (nat_of_ascii y <? nat_of_ascii x)%nat eqn:H2; [auto |]. apply IH.
Qed.

Lemma str_leb_trans (a b c : string) :
  str_leb a b = true -> str_leb b c = true -> str_leb a c = true.
Proof.
  revert b c. induction a as [|x a IH]; intros [|y b] [|z c]; simpl; auto; try discriminate.
  destruct (nat_of_ascii x <? nat_of_ascii y)%nat eqn:Hxy;
  destruct (nat_of_ascii y <? nat_of_ascii x)%nat eqn:Hyx;
  destruct (nat_of_ascii y <? nat_of_ascii z)%nat eqn:Hyz;
  destruct (nat_of_ascii z <? nat_of_ascii y)%nat eqn:Hzy;
  destruct (nat_of_ascii x <? nat_of_ascii z)%nat eqn:Hxz;
  destruct (nat_of_ascii z <? nat_of_ascii x)%nat eqn:Hzx;
  try discriminate; auto;
  repeat match goal with
         | H : (_ <? _)%nat = true |- _ => apply Nat.ltb_lt in H
         | H : (_ <? _)%nat = false |- _ => apply Nat.ltb_ge in H
         end; try lia.
  apply IH.
Qed.

Lemma counted_leb_before (a b : counted) :
  counted_leb a b = true <-> counted_before a b.
Proof.
  unfold counted_leb, counted_before.
  rewrite orb_true_iff, andb_true_iff, Z.ltb_lt, Z.eqb_eq. split.
  - intros [H | [H1 H2]]; [left; lia | right; split; [lia | exact H2]].
  - intros [H | [H1 H2]]; [left; lia | right; split; [lia | exact H2]].
Qed.

Lemma counted_before_total (a b : counted) : counted_before a b \/ counted_before b a.
Proof.
  unfold counted_before.
  destruct (Z.lt_trichotomy (cv_count a) (cv_count b)) as [H | [H | H]];
    [right; left; lia | | left; left; lia].
  destruct (str_leb_total (lower (cv_value a)) (lower (cv_value b)));
    [left | right]; right; split; auto.
Qed.

Lemma counted_before_trans (a b c : counted) :
  counted_before a b -> counted_before b c -> counted_before a c.
Proof.
  unfold counted_before. intros [H1 | [H1 S1]] [H2 | [H2 S2]];
    try (left; lia).
  right. split; [lia | eapply str_leb_trans; eassumption].
Qed.

Lemma insert_counted_perm (x : counted) (l : list counted) :
  Permutation (insert_counted x l) (x :: l).
Proof.
  induction l as [|y r IH]; simpl; [reflexivity |].
  destruct (counted_leb x y); [reflexivity |].
  rewrite IH. apply perm_swap.
Qed.

Lemma insert_counted_sorted (x : counted) (l : list counted) :
  Sorted counted_before l -> Sorted counted_before (insert_counted x l).
Proof.
  induction 1 as [|y r Hs IH Hhd]; simpl; [repeat constructor |].
  destruct (counted_leb x y) eqn:Hxy.
  - constructor; [constructor; assumption |]. constructor. apply counted_leb_before, Hxy.
  - constructor; [exact IH |].
    assert (Hyx : counted_before y x).
    { destruct (counted_before_total x y) as [H | H]; [| exact H].
      apply counted_leb_before in H. congruence. }
    destruct r as [|z r]; simpl; [constructor; exact Hyx |].
    destruct (counted_leb x z); constructor; [exact Hyx |].
    inversion Hhd; assumption.
Qed.

Lemma sort_counted_perm (l : list counted) : Permutation (sort_counted l) l.
Proof.
  induction l as [|x r IH]; simpl; [reflexivity |].
  unfold sort_counted in *. simpl. rewrite insert_counted_perm, IH. reflexivity.
Qed.

Lemma sort_counted_sorted (l : list counted) :
  StronglySorted counted_before (sort_counted l).
Proof.
  apply Sorted_StronglySorted.
  - intros a b c. apply counted_before_trans.
  - induction l as [|x r IH]; [constructor |].
    unfold sort_counted in *. simpl. apply insert_counted_sorted, IH.
Qed.

(** C10.  A get-field-values call with a field name, on a configured library
    whose read grant admits the field and whose worker answers with a
    dictionary, returns the field name, offset and limit as given;
    [total_results] is the number of entries of the dictionary (its distinct
    values); and [results] is the slice [offset : offset + limit] of the
    entries ordered by descending count, ties by ascending lower-cased
    value. *)
Theorem field_values_sorted_then_paginated :
  forall (libs : list (string * library_entry)) (rt : runtime) (be : backend)
         (st : state) (library_name : option string) (field_name : string)
         (book_ids : option (list Z)) (value_filter : option string)
         (limit offset : Z) (lib_conf : lib_conf) (res : list (string * Z)),
    field_name <> "" ->
    get_library_config libs library_name = Some lib_conf ->
    is_ok (check_read_permission lib_conf (Some field_name)) = true ->
    reply_counts be (rpc_log st) library_name field_name book_ids value_filter
      = Ok (Counts res) ->
    exists sorted st',
      _get_field_values_impl libs rt be library_name (Some field_name) book_ids
                             value_filter limit offset st
        = (Ok {| fv_field_name := field_name;
                 fv_total_results := Z.of_nat (length res);
                 fv_offset := offset;
                 fv_limit := limit;
                 fv_results := Py.slice sorted offset (offset + limit) |}, st') /\
      Permutation sorted (map (fun kv => {| cv_value := kv.1; cv_count := kv.2 |}) res) /\
      StronglySorted counted_before sorted.
Proof.
  intros libs rt be st library_name field_name book_ids value_filter limit offset
         lib_conf res Hname Hconf Hperm Hreply.
  exists (sort_counted (map (fun kv => {| cv_value := kv.1; cv_count := kv.2 |}) res)).
  eexists. split; [| split; [apply sort_counted_perm | apply sort_counted_sorted]].
  unfold _get_field_values_impl.
  destruct field_name as [|c f]; [congruence |].
  unfold bind, lift, get_lib_conf, send_rpc. simpl. rewrite Hconf.
  destruct (check_read_permission lib_conf (Some (String c f))); [| discriminate].
  simpl. rewrite Hreply. unfold ret. repeat f_equal.
  rewrite (Permutation_length (sort_counted_perm _)), length_map. reflexivity.
Qed.

Definition counts_backend : backend :=
  {| reply_schema := fun _ _ => Ok sample_schema;
     reply_update := fun _ _ _ _ => Ok (VStr "success");
     reply_details := fun _ _ _ _ => Ok ∅;
     reply_counts := fun _ _ _ _ _ =>
       Ok (Counts [("zebra", 2); ("Apple", 5); ("apple pie", 2); ("Banana", 2)]) |}.

Definition null_runtime : runtime :=
  {| py_str := fun _ => "";
     py_int := fun _ => Raise (Exn TypeError "");
     py_float := fun _ => Raise (Exn TypeError "");
     dateutil_parse := fun _ => Raise (Exn ValueError "");
     repr_set := fun _ => "" |}.

Lemma field_values_witness :
  exists st',
    _get_field_values_impl sample_libs null_runtime counts_backend None (Some "title")
                           None None 2 1 initial_state
      = (Ok {| fv_field_name := "title";
               fv_total_results := 4;
               fv_offset := 1;
               fv_limit := 2;
               fv_results := [ {| cv_value := "apple pie"; cv_count := 2 |};
                               {| cv_value := "Banana"; cv_count := 2 |} ] |}, st').
Proof.
  assert (Hne : "title" <> "") by discriminate.
  destruct (field_values_sorted_then_paginated sample_libs null_runtime counts_backend
              initial_state None "title" None None 2 1 _ _ Hne eq_refl eq_refl eq_refl)
    as (sorted & st' & Hrun & _ & _).
  exists st'.
  assert (Hst : st' = (_get_field_values_impl sample_libs null_runtime counts_backend None
                         (Some "title") None None 2 1 initial_state).2)
    by (rewrite Hrun; reflexivity).
  subst st'. vm_compute. reflexivity.
Defined.

(** ** Series notation *)

Fixpoint all_space (s : string) : bool :=
  match s with
  | EmptyString => true
  | String c r => is_space c && all_space r
  end.

Lemma all_space_app (a b : string) :
  all_space a = true -> all_space b = true -> all_space (a ++ b) = true.
Proof.
  induction a as [|c a IH]; intros Ha Hb; [exact Hb |].
  rewrite append_cons. simpl in *. apply andb_true_iff in Ha as [Hc Ha].
  rewrite Hc, IH by assumption. reflexivity.
Qed.

Lemma lstrip_split (s : string) :
  exists ws, s = ws ++ lstrip s /\ all_space ws = true.
Proof.
  induction s as [|c r IH]; [exists ""; split; reflexivity |].
  simpl. destruct (is_space c) eqn:Hc; [| exists ""; split; reflexivity].
  destruct IH as (ws & Hr & Hws). exists (String c ws). split.
  - rewrite append_cons, <- Hr. reflexivity.
  - simpl. rewrite Hc, Hws. reflexivity.
Qed.

Lemma rstrip_split (s : string) :
  exists ws, s = rstrip s ++ ws /\ all_space ws = true.
Proof.
  induction s as [|c r IH]; [exists ""; split; reflexivity |].
  destruct IH as (ws & Hr & Hws). simpl.
  destruct (rstrip r) as [|d r'] eqn:Hrs.
  - rewrite append_nil in Hr. subst r. destruct (is_space c) eqn:Hc.
    + exists (String c ws). split; [reflexivity |]. simpl. rewrite Hc, Hws. reflexivity.
    + exists ws. split; [reflexivity | exact Hws].
  - exists ws. split; [| exact Hws]. rewrite append_cons, <- Hr. reflexivity.
Qed.

Lemma count_char_app (c : ascii) (a b : string) :
  count_char c (a ++ b) = (count_char c a + count_char c b)%nat.
Proof.
  induction a as [|x a IH]; [reflexivity |].
  rewrite append_cons. simpl. rewrite IH. lia.
Qed.

Lemma span_not_close_split (r a b : string) :
  span_not_close r = (a, b) ->
  r = a ++ b /\ count_char "]" a = 0%nat.
Proof.
  revert a b. induction r as [|c r IH]; intros a b; simpl.
  - intros H. injection H as <- <-. split; reflexivity.
  - destruct (Ascii.eqb c "]") eqn:Hc.
    + intros H. injection H as <- <-. split; reflexivity.
    + destruct (span_not_close r) as [a' b'] eqn:Hs. intros H. injection H as <- <-.
      destruct (IH a' b' eq_refl) as [-> Hcount]. split; [reflexivity |].
      simpl. rewrite Hc, Hcount. reflexivity.
Qed.

(** What a match of the bracket suffix says about the text matched. *)
Lemma match_bracket_suffix_split (s index_str : string) :
  match_bracket_suffix s = Some index_str ->
  exists ws tail,
    s = ws ++ "[" ++ index_str ++ "]" ++ tail /\
    all_space ws = true /\ index_str <> "" /\
    (tail = "" \/ tail = String "010" "").
Proof.
  unfold match_bracket_suffix. destruct (lstrip_split s) as (ws & Hs & Hws).
  destruct (lstrip s) as [|c r]; [discriminate |].
  destruct (Ascii.eqb c "[") eqn:Hc;
    [apply Ascii.eqb_eq in Hc; subst c
    | intros H; exfalso; revert H;
      destruct c as [[] [] [] [] [] [] [] []]; try discriminate; discriminate Hc].
  destruct (span_not_close r) as [a b] eqn:Hsp.
  destruct (span_not_close_split _ _ _ Hsp) as [-> _].
  destruct (String.eqb a "") eqn:Ha; [discriminate |].
  apply String.eqb_neq in Ha.
  destruct (String.eqb b "]") eqn:Hb1.
  - apply String.eqb_eq in Hb1. subst b. intros H. injection H as <-.
    exists ws, "". repeat split; auto.
  - destruct (String.eqb b (String "]" (String "010" ""))) eqn:Hb2; [| discriminate].
    apply String.eqb_eq in Hb2. subst b. intros H. injection H as <-.
    exists ws, (String "010" ""). repeat split; auto.
Qed.

Lemma match_bracket_go_split (name s group1 index_str : string) :
  match_bracket_go name s = Some (group1, index_str) ->
  exists mid ws tail,
    group1 = name ++ mid /\
    s = mid ++ ws ++ "[" ++ index_str ++ "]" ++ tail /\
    all_space ws = true /\ index_str <> "" /\
    (tail = "" \/ tail = String "010" "").
Proof.
  revert name. induction s as [|c r IH]; intros name; simpl.
  - intros H. discriminate H.
  - destruct (match_bracket_suffix (String c r)) eqn:Hm.
    + intros H. injection H as <- <-.
      destruct (match_bracket_suffix_split _ _ Hm) as (ws & tail & Hs & Hws & Hi & Ht).
      exists "", ws, tail. rewrite append_empty_r. repeat split; auto.
    + destruct (Ascii.eqb c "010"); [discriminate |]. intros H.
      destruct (IH _ H) as (mid & ws & tail & Hg & Hs & Hws & Hi & Ht).
      exists (String c mid), ws, tail. repeat split; auto.
      * rewrite Hg, append_assoc. reflexivity.
      * rewrite append_cons, <- Hs. reflexivity.
Qed.

Lemma rfind_char_absent (c : ascii) (s : string) :
  count_char c s = 0%nat -> rfind_char c s = -1.
Proof.
  induction s as [|a r IH]; simpl; [reflexivity |].
  destruct (Ascii.eqb a c); [discriminate |]. simpl. intros H.
  rewrite (IH H). reflexivity.
Qed.

Lemma rfind_char_last (c : ascii) (pre tail : string) :
  count_char c tail = 0%nat ->
  rfind_char c (pre ++ String c tail) = len pre.
Proof.
  intros Ht. induction pre as [|a pre IH].
  - simpl. rewrite (rfind_char_absent _ _ Ht). simpl. rewrite Ascii.eqb_refl. reflexivity.
  - rewrite append_cons. simpl. rewrite IH. unfold len. simpl String.length.
    destruct (0 <=? Z.of_nat (String.length pre)) eqn:H; [lia |].
    apply Z.leb_gt in H. lia.
Qed.

Section SeriesFacts.

Variable rt : runtime.

(** What a successful [_normalize_series_field] says about its input. *)
Lemma normalize_series_ok (series_input name : string) (index : option float) :
  _normalize_series_field rt series_input = Ok (name, index) ->
  let t := strip series_input in
  match index with
  | None => name = t /\ count_char "[" t = 0%nat /\ count_char "]" t = 0%nat
  | Some x =>
      exists ws index_str,
        t = name ++ ws ++ "[" ++ index_str ++ "]" /\
        all_space ws = true /\ index_str <> "" /\
        count_char "[" t = 1%nat /\ count_char "]" t = 1%nat /\
        py_float rt (VStr index_str) = Ok x
  end.
Proof.
  intros H t. unfold _normalize_series_field in H. fold t in H.
  destruct ((count_char "[" t =? 0)%nat && (count_char "]" t =? 0)%nat) eqn:Hnone.
  - injection H as <- <-. apply andb_true_iff in Hnone as [H1 H2].
    apply Nat.eqb_eq in H1, H2. auto.
  - destruct (negb (count_char "[" t =? 1)%nat || negb (count_char "]" t =? 1)%nat)
      eqn:Hone; [discriminate |].
    apply orb_false_iff in Hone as [H1 H2].
    apply negb_false_iff, Nat.eqb_eq in H1, H2.
    destruct (match_bracket_pattern t) as [[group1 index_str]|] eqn:Hm; [| discriminate].
    destruct (match_bracket_go_split _ _ _ _ Hm)
      as (mid & ws & tail & Hg & Ht & Hws & Hi & Htail).
    rewrite append_nil in Hg. subst group1.
    rewrite H2 in H. simpl (0 <? 1)%nat in H. rewrite andb_true_l in H.
    destruct (negb (rfind_char "]" t =? len t - 1)) eqn:Hr; [discriminate |].
    apply negb_false_iff, Z.eqb_eq in Hr.
    destruct (py_float rt (VStr index_str)) as [x|e] eqn:Hf;
      [| destruct (is_value_error e); discriminate].
    injection H as <- <-.
    destruct (rstrip_split mid) as (ws0 & Hmid & Hws0).
    assert (Hidx : count_char "]" index_str = 0%nat).
    { rewrite Ht, !count_char_app in H2. simpl in H2. lia. }
    assert (tail = "") as ->.
    { destruct Htail as [-> | ->]; [reflexivity | exfalso].
      assert (Hl : rfind_char "]" t = len (mid ++ ws ++ "[" ++ index_str)).
      { rewrite Ht.
        replace (mid ++ ws ++ "[" ++ index_str ++ "]" ++ String "010" "")
          with ((mid ++ ws ++ "[" ++ index_str) ++ String "]" (String "010" ""))
          by (rewrite !append_assoc; reflexivity).
        apply rfind_char_last. reflexivity. }
      rewrite Hl in Hr. rewrite Ht in Hr. unfold len in Hr.
      replace (mid ++ ws ++ "[" ++ index_str ++ "]" ++ String "010" "")
        with ((mid ++ ws ++ "[" ++ index_str) ++ String "]" (String "010" "")) in Hr
        by (rewrite !append_assoc; reflexivity).
      rewrite !string_length_append in Hr. simpl String.length in Hr. lia. }
    exists (ws0 ++ ws), index_str. repeat split; auto.
    + rewrite Ht at 1. rewrite Hmid at 1. rewrite !append_assoc. reflexivity.
    + apply all_space_app; assumption.
Qed.

End SeriesFacts.

Definition series_schema : gmap string field_schema :=
  {[ "series" := plain "series"; "series_index" := plain "float" ]}.

Lemma validate_field_series (rt : runtime) (changes : list (string * value))
    (schema : gmap string field_schema) (f : string) (v : value)
    (n : gmap string value) :
  schema !! f = Some (plain "series") ->
  validate_field rt changes schema f v n = validate_series rt changes f v n.
Proof. intros H. unfold validate_field. rewrite H. reflexivity. Qed.

Lemma validate_field_float (rt : runtime) (changes : list (string * value))
    (schema : gmap string field_schema) (f : string) (v : value)
    (n : gmap string value) :
  schema !! f = Some (plain "float") ->
  validate_field rt changes schema f v n = validate_float rt f v n.
Proof. intros H. unfold validate_field. rewrite H. reflexivity. Qed.

Lemma normalize_foo_bar_3 (rt : runtime) :
  py_float rt (VStr "3") = Ok 3%float ->
  _normalize_series_field rt "Foo Bar [3]" = Ok ("Foo Bar", Some 3%float).
Proof.
  intros H3. unfold _normalize_series_field.
  change (strip "Foo Bar [3]") with "Foo Bar [3]".
  change (match_bracket_pattern "Foo Bar [3]") with (Some ("Foo Bar", "3")).
  change (count_char "[" "Foo Bar [3]") with 1%nat.
  change (count_char "]" "Foo Bar [3]") with 1%nat.
  change (rfind_char "]" "Foo Bar [3]") with 10.
  change (len "Foo Bar [3]") with 11.
  change (rstrip "Foo Bar") with "Foo Bar".
  simpl. rewrite H3. reflexivity.
Qed.

Lemma series_example_index (rt : runtime) :
  py_float rt (VStr "3") = Ok 3%float ->
  _validate_and_normalize_changes rt [("series", VStr "Foo Bar [3]")] series_schema
    = ({[ "series" := VStr "Foo Bar"; "series_index" := VFloat 3 ]}, []).
Proof.
  intros H3. unfold _validate_and_normalize_changes, validate_loop.
  rewrite validate_field_series by reflexivity.
  unfold validate_series, to_str. rewrite (normalize_foo_bar_3 rt H3).
  reflexivity.
Qed.

Lemma series_example_conflict (rt : runtime) :
  py_float rt (VStr "3") = Ok 3%float ->
  py_float rt (VInt 4) = Ok 4%float ->
  _validate_and_normalize_changes rt
      [("series", VStr "Foo Bar [3]"); ("series_index", VInt 4)] series_schema
    = ({[ "series" := VStr "Foo Bar"; "series_index" := VFloat 4 ]},
       [series_conflict_message rt "series" "Foo Bar [3]" 3 4]).
Proof.
  intros H3 H4. unfold _validate_and_normalize_changes, validate_loop.
  rewrite validate_field_series by reflexivity.
  unfold validate_series, to_str. rewrite (normalize_foo_bar_3 rt H3).
  cbv zeta.
  change (changes_get ("series" ++ "_index")
            [("series", VStr "Foo Bar [3]"); ("series_index", VInt 4)])
    with (Some (VInt 4)).
  cbv beta iota. rewrite H4. change (negb (PrimFloat.eqb 4 3)) with true.
  cbv beta iota. rewrite validate_field_float by reflexivity.
  unfold validate_float. rewrite H4. reflexivity.
Qed.

Lemma series_example_two_pairs (rt : runtime) :
  _validate_and_normalize_changes rt [("series", VStr "Foo[1][2]")] series_schema
    = (∅, ["Field 'series' (series): Invalid series format: multiple bracket pairs found in 'Foo[1][2]'"]).
Proof. vm_compute. reflexivity. Qed.

(** A runtime for the examples.  It gives [float()] and [int()] on integers,
    booleans and plain decimal digit strings (below 2^53, where the
    conversion is exact), [str()] on [None], booleans, integers and the
    floats 3.0 and 4.0, and refuses every date; the examples use nothing
    else. *)
Fixpoint float_of_pos (p : positive) : float :=
  match p with
  | xH => 1%float
  | xO q => (2 * float_of_pos q)%float
  | xI q => (2 * float_of_pos q + 1)%float
  end.

Definition float_of_Z (n : Z) : float :=
  match n with
  | Z0 => 0%float
  | Zpos p => float_of_pos p
  | Zneg p => (- float_of_pos p)%float
  end.

Definition digits_to_Z (s : string) : option Z :=
  if String.eqb s "" then None
  else Z.of_uint <$> NilEmpty.uint_of_string s.

Definition sample_py_float (v : value) : result float :=
  match v with
  | VFloat x => Ok x
  | VInt n => Ok (float_of_Z n)
  | VBool b => Ok (if b then 1%float else 0%float)
  | VStr s =>
      match digits_to_Z (strip s) with
      | Some n => Ok (float_of_Z n)
      | None => Raise (Exn ValueError ("could not convert string to float: '" ++ s ++ "'"))
      end
  | _ => Raise (Exn TypeError "float() argument must be a string or a real number")
  end.

Definition sample_py_int (v : value) : result Z :=
  match v with
  | VInt n => Ok n
  | VBool b => Ok (if b then 1 else 0)
  | VStr s =>
      match digits_to_Z (strip s) with
      | Some n => Ok n
      | None =>
          Raise (Exn ValueError ("invalid literal for int() with base 10: '" ++ s ++ "'"))
      end
  | _ => Raise (Exn TypeError "int() argument must be a string or a real number")
  end.

Definition sample_py_str (v : value) : string :=
  match v with
  | VNone => "None"
  | VBool b => if b then "True" else "False"
  | VInt n => str_of_int n
  | VStr s => s
  | VFloat x =>
      if PrimFloat.eqb x 3 then "3.0" else if PrimFloat.eqb x 4 then "4.0" else "?"
  | _ => "?"
  end.

Definition sample_runtime : runtime :=
  {| py_str := sample_py_str;
     py_int := sample_py_int;
     py_float := sample_py_float;
     dateutil_parse := fun s => Raise (Exn ValueError ("Unknown string format: " ++ s));
     repr_set := fun l => "{" ++ Py.join ", " (map (fun f => "'" ++ f ++ "'") l) ++ "}" |}.

(** ** Series notation, read back *)

Section SeriesRoundTrip.

Variable rt : runtime.

Lemma lstrip_head (s : string) :
  match lstrip s with
  | EmptyString => True
  | String c _ => is_space c = false
  end.
Proof.
  induction s as [|c r IH]; simpl; [exact I |].
  destruct (is_space c) eqn:Hc; [exact IH | exact Hc].
Qed.

Lemma rstrip_idempotent (s : string) : rstrip (rstrip s) = rstrip s.
Proof.
  induction s as [|c r IH]; simpl; [reflexivity |].
  destruct (rstrip r) as [|c' r'] eqn:Hr.
  - destruct (is_space c) eqn:Hc; simpl; [reflexivity | rewrite Hc; reflexivity].
  - simpl. simpl in IH. rewrite IH. reflexivity.
Qed.

Lemma rstrip_keeps_head (c : ascii) (r : string) :
  is_space c = false -> exists r', rstrip (String c r) = String c r'.
Proof.
  intros Hc. simpl. destruct (rstrip r); [rewrite Hc |]; eauto.
Qed.

Lemma rstrip_snoc (s : string) (c : ascii) :
  is_space c = false -> rstrip (s ++ String c "") = s ++ String c "".
Proof.
  intros Hc. induction s as [|a s IH].
  - rewrite append_nil. simpl. rewrite Hc. reflexivity.
  - rewrite append_cons. simpl. rewrite IH.
    destruct s; [rewrite append_nil | rewrite append_cons]; reflexivity.
Qed.

Lemma rstrip_tail (c : ascii) (r : string) :
  rstrip (String c r) = String c r -> rstrip r = r.
Proof.
  simpl. destruct (rstrip r) as [|d r'] eqn:Hr.
  - destruct (is_space c); intros H; [discriminate |]. injection H as <-. reflexivity.
  - intros H. injection H as <-. reflexivity.
Qed.

(** A text that [strip()] leaves alone has no white space at either end. *)
Lemma strip_fixed (s : string) : strip s = s -> lstrip s = s /\ rstrip s = s.
Proof.
  intros H. assert (Hr : rstrip s = s).
  { rewrite <- H at 1. unfold strip. rewrite rstrip_idempotent. exact H. }
  split; [| exact Hr]. unfold strip in H. pose proof (lstrip_head s) as Hh.
  destruct (lstrip s) as [|c r] eqn:Hl.
  - simpl in H. subst s. reflexivity.
  - destruct (rstrip_keeps_head c r Hh) as [r' Hr']. rewrite Hr' in H. subst s.
    simpl in Hl. rewrite Hh in Hl. symmetry. exact Hl.
Qed.

Lemma lstrip_all_space_app (ws r : string) :
  all_space ws = true -> lstrip (ws ++ r) = lstrip r.
Proof.
  induction ws as [|c ws IH]; intros H; [reflexivity |].
  simpl in H. apply andb_true_iff in H as [Hc H]. rewrite append_cons. simpl.
  rewrite Hc. apply IH, H.
Qed.

Lemma all_space_no_char (c : ascii) (ws : string) :
  is_space c = false -> all_space ws = true -> count_char c ws = 0%nat.
Proof.
  intros Hc. induction ws as [|a ws IH]; simpl; [reflexivity |].
  intros H. apply andb_true_iff in H as [Ha H].
  destruct (Ascii.eqb a c) eqn:He; [apply Ascii.eqb_eq in He; congruence |].
  rewrite IH by exact H. reflexivity.
Qed.

(** Where the text still to read begins inside the name, the bracket
    suffix does not match: a character of the name comes first. *)
Lemma lstrip_app_head (s tail : string) :
  rstrip s = s -> s <> "" -> count_char "[" s = 0%nat ->
  exists c rest, lstrip (s ++ tail) = String c rest /\ c <> "["%char.
Proof.
  induction s as [|a s IH]; [congruence |]. intros Hr _ Hc.
  rewrite append_cons. simpl. simpl in Hc.
  destruct (Ascii.eqb a "[") eqn:Ha; [discriminate |]. simpl in Hc.
  destruct (is_space a) eqn:Hsp.
  - apply IH; [apply (rstrip_tail a), Hr | | exact Hc].
    intros ->. simpl in Hr. rewrite Hsp in Hr. discriminate.
  - exists a, (s ++ tail). split; [reflexivity |].
    intros ->. discriminate.
Qed.

Lemma match_bracket_suffix_other (s rest : string) (c : ascii) :
  lstrip s = String c rest -> c <> "["%char -> match_bracket_suffix s = None.
Proof.
  unfold match_bracket_suffix. intros -> Hc.
  destruct c as [[] [] [] [] [] [] [] []]; try reflexivity.
  exfalso. apply Hc. reflexivity.
Qed.

Lemma span_not_close_app (index_str rest : string) :
  count_char "]" index_str = 0%nat ->
  span_not_close (index_str ++ String "]" rest) = (index_str, String "]" rest).
Proof.
  induction index_str as [|c r IH]; intros H; [reflexivity |].
  rewrite append_cons. simpl. simpl in H.
  destruct (Ascii.eqb c "]"); [discriminate |]. rewrite IH by exact H. reflexivity.
Qed.

Lemma match_bracket_suffix_found (ws index_str : string) :
  all_space ws = true -> index_str <> "" -> count_char "]" index_str = 0%nat ->
  match_bracket_suffix (ws ++ "[" ++ index_str ++ "]") = Some index_str.
Proof.
  intros Hws Hne Hc. unfold match_bracket_suffix.
  rewrite (lstrip_all_space_app ws _ Hws). rewrite append_cons, append_nil.
  simpl. rewrite (span_not_close_app index_str "" Hc).
  apply String.eqb_neq in Hne. rewrite Hne. reflexivity.
Qed.

Lemma match_bracket_go_eq (name s : string) :
  match_bracket_go name s =
    match match_bracket_suffix s with
    | Some index_str => Some (name, index_str)
    | None =>
        match s with
        | EmptyString => None
        | String c r =>
            if Ascii.eqb c "010" then None
            else match_bracket_go (name ++ String c "") r
        end
    end.
Proof. destruct s; reflexivity. Qed.

(** The lazy group stops exactly where the name ends. *)
Lemma match_bracket_go_lazy (s tail index_str : string) :
  forall acc,
    rstrip s = s -> count_char "[" s = 0%nat -> count_char "010" s = 0%nat ->
    match_bracket_suffix tail = Some index_str ->
    match_bracket_go acc (s ++ tail) = Some (acc ++ s, index_str).
Proof.
  induction s as [|c r IH]; intros acc Hr Hb Hn Ht.
  - rewrite append_nil, append_empty_r, match_bracket_go_eq, Ht. reflexivity.
  - rewrite match_bracket_go_eq.
    destruct (lstrip_app_head (String c r) tail Hr ltac:(discriminate) Hb)
      as (d & rest & Hl & Hd).
    rewrite (match_bracket_suffix_other _ rest d Hl Hd). rewrite append_cons.
    simpl in Hn, Hb.
    destruct (Ascii.eqb c "010") eqn:Hc; [discriminate |].
    destruct (Ascii.eqb c "[") eqn:Hc'; [discriminate |]. simpl in Hn, Hb.
    rewrite (IH (acc ++ String c "") (rstrip_tail c r Hr) Hb Hn Ht).
    rewrite append_assoc. reflexivity.
Qed.

(** A name followed by white space and one bracket pair: the outcome is
    decided by [float()] on the text between the brackets. *)
Lemma normalize_series_bracketed (name ws index_str : string) :
  strip name = name ->
  count_char "[" name = 0%nat -> count_char "]" name = 0%nat ->
  count_char "010" name = 0%nat ->
  all_space ws = true -> index_str <> "" ->
  count_char "[" index_str = 0%nat -> count_char "]" index_str = 0%nat ->
  let series_input := name ++ ws ++ "[" ++ index_str ++ "]" in
  _normalize_series_field rt series_input =
    match py_float rt (VStr index_str) with
    | Ok series_index => Ok (name, Some series_index)
    | Raise e =>
        if is_value_error e then
          Raise (Exn ValueError
            ("Invalid series index: '" ++ index_str
             ++ "' is not a valid number in '" ++ strip series_input ++ "'"))
        else Raise e
    end.
Proof.
  intros Hname Hb1 Hb2 Hn Hws Hne Hi1 Hi2. cbv zeta.
  destruct (strip_fixed name Hname) as [Hl Hr].
  assert (Ht : exists ws', all_space ws' = true /\
             strip (name ++ ws ++ "[" ++ index_str ++ "]")
               = name ++ ws' ++ "[" ++ index_str ++ "]").
  { unfold strip. destruct name as [|c r].
    - exists "". split; [reflexivity |]. rewrite !append_nil.
      rewrite (lstrip_all_space_app ws _ Hws). rewrite append_cons, append_nil.
      simpl lstrip.
      change (String "[" (index_str ++ "]")) with (String "[" index_str ++ "]") .
      apply rstrip_snoc. reflexivity.
    - exists ws. split; [exact Hws |].
      assert (Hc : is_space c = false).
      { pose proof (lstrip_head (String c r)) as Hh. rewrite Hl in Hh. exact Hh. }
      rewrite append_cons. simpl lstrip. rewrite Hc.
      replace (String c (r ++ ws ++ "[" ++ index_str ++ "]"))
        with ((String c r ++ ws ++ String "[" index_str) ++ "]")
        by (rewrite !append_cons, !append_assoc, !append_cons, !append_nil; reflexivity).
      apply rstrip_snoc. reflexivity. }
  destruct Ht as (ws' & Hws' & Ht). unfold _normalize_series_field. rewrite Ht.
  assert (Hws1 : count_char "[" ws' = 0%nat) by (apply all_space_no_char; auto).
  assert (Hws2 : count_char "]" ws' = 0%nat) by (apply all_space_no_char; auto).
  assert (Hc1 : count_char "[" (name ++ ws' ++ "[" ++ index_str ++ "]") = 1%nat).
  { rewrite !count_char_app, Hb1, Hws1, Hi1. reflexivity. }
  assert (Hc2 : count_char "]" (name ++ ws' ++ "[" ++ index_str ++ "]") = 1%nat).
  { rewrite !count_char_app, Hb2, Hws2, Hi2. reflexivity. }
  rewrite Hc1, Hc2. simpl andb. simpl orb. cbv iota.
  unfold match_bracket_pattern.
  rewrite (match_bracket_go_lazy name _ index_str "" Hr Hb1 Hn
             (match_bracket_suffix_found ws' index_str Hws' Hne Hi2)).
  rewrite append_nil, Hr.
  assert (Hlast : (rfind_char "]" (name ++ ws' ++ "[" ++ index_str ++ "]")
                   =? len (name ++ ws' ++ "[" ++ index_str ++ "]") - 1) = true).
  { replace (name ++ ws' ++ "[" ++ index_str ++ "]")
      with ((name ++ ws' ++ String "[" index_str) ++ String "]" "")
      by (rewrite !append_assoc, !append_cons, !append_nil; reflexivity).
    rewrite (rfind_char_last "]" _ "" eq_refl).
    unfold len. rewrite (string_length_append _ (String "]" "")). simpl String.length.
    apply Z.eqb_eq. lia. }
  rewrite Hlast. simpl. reflexivity.
Qed.

(** A text without any bracket is a name without index. *)
Lemma normalize_series_plain (s : string) :
  count_char "[" s = 0%nat -> count_char "]" s = 0%nat ->
  _normalize_series_field rt s = Ok (strip s, None).
Proof.
  intros H1 H2. unfold _normalize_series_field.
  destruct (lstrip_split s) as (w1 & Hs1 & _).
  destruct (rstrip_split (lstrip s)) as (w2 & Hs2 & _). fold (strip s) in Hs2.
  assert (Hc : forall c, count_char c s = 0%nat -> count_char c (strip s) = 0%nat).
  { intros c Hc. rewrite Hs1, Hs2, !count_char_app in Hc. lia. }
  rewrite (Hc _ H1), (Hc _ H2). reflexivity.
Qed.

(** Brackets that are not exactly one pair are refused. *)
Lemma normalize_series_bracket_count (s : string) :
  let t := strip s in
  count_char "[" t <> 0%nat \/ count_char "]" t <> 0%nat ->
  count_char "[" t <> 1%nat \/ count_char "]" t <> 1%nat ->
  _normalize_series_field rt s =
    Raise (Exn ValueError
      ("Invalid series format: multiple bracket pairs found in '" ++ t ++ "'")).
Proof.
  cbv zeta. intros H0 H1. unfold _normalize_series_field.
  assert (Hz : (count_char "[" (strip s) =? 0)%nat && (count_char "]" (strip s) =? 0)%nat
               = false).
  { apply andb_false_iff. destruct H0 as [H | H]; [left | right]; apply Nat.eqb_neq, H. }
  assert (Ho : negb (count_char "[" (strip s) =? 1)%nat
               || negb (count_char "]" (strip s) =? 1)%nat = true).
  { apply orb_true_iff. destruct H1 as [H | H]; [left | right];
      apply negb_true_iff, Nat.eqb_neq, H. }
  rewrite Hz, Ho. reflexivity.
Qed.

(** What the validator makes of a series field, by the outcome of the
    parse. *)
Lemma validate_series_field (changes : list (string * value))
    (schema : gmap string field_schema) (f : string) (v : value)
    (n : gmap string value) (fs : field_schema) :
  schema !! f = Some fs -> fs_datatype fs = "series" ->
  match _normalize_series_field rt (to_str rt v) with
  | Ok (name, None) =>
      validate_field rt changes schema f v n = (<[f := VStr name]> n, [])
  | Ok (name, Some x) =>
      match changes_get (f ++ "_index") changes with
      | None =>
          validate_field rt changes schema f v n
            = (<[f ++ "_index" := VFloat x]> (<[f := VStr name]> n), [])
      | Some provided =>
          forall y, py_float rt provided = Ok y ->
            validate_field rt changes schema f v n
              = (<[f := VStr name]> n,
                 if PrimFloat.eqb y x then []
                 else [series_conflict_message rt f (to_str rt v) x y])
      end
  | Raise e =>
      is_value_error e = true ->
      validate_field rt changes schema f v n
        = (n, ["Field '" ++ f ++ "' (series): " ++ exn_msg e])
  end.
Proof.
  intros Hs Hd. unfold validate_field. rewrite Hs, Hd. simpl. unfold validate_series.
  destruct (_normalize_series_field rt (to_str rt v)) as [[name [x|]]|e].
  - destruct (changes_get (f ++ "_index") changes) as [provided|]; [| reflexivity].
    intros y Hy. rewrite Hy. destruct (PrimFloat.eqb y x); reflexivity.
  - reflexivity.
  - intros He. rewrite He. reflexivity.
Qed.

End SeriesRoundTrip.

(** C6.  [_normalize_series_field] parses an optional bracket suffix.
    Soundness: a successful call either found no bracket at all and returns
    the stripped text, or the stripped text is the returned name, white
    space, and one bracket pair that closes the text and whose content
    [float()] accepts: the returned index.  Completeness: a name without
    brackets, line feeds or white space at its ends, followed by optional
    white space and one bracket pair around a non-empty text without
    brackets, yields that name with the index [float()] makes of the text,
    and is refused with a [ValueError] when [float()] refuses the text; a
    text without any bracket yields its stripped self and no index; a text
    with brackets that are not exactly one opening and one closing bracket
    is refused.  For a field of datatype [series], the validator stores the
    name; it stores the index under [<field>_index] when the change set has
    no such key, and reports a conflict when the change set gives a
    different index.  Under a series schema, for a runtime whose
    [float("3")] is 3.0: "Foo Bar [3]" normalizes to series "Foo Bar" with
    series_index 3.0 and no error; together with series_index 4 (and
    [float(4)] = 4.0) it yields the conflict error; and "Foo[1][2]" is
    rejected for its two bracket pairs. *)
Theorem series_bracket_suffix_parsed :
  (forall (rt : runtime) (series_input name : string) (index : option float),
     _normalize_series_field rt series_input = Ok (name, index) ->
     let t := strip series_input in
     match index with
     | None => name = t /\ count_char "[" t = 0%nat /\ count_char "]" t = 0%nat
     | Some x =>
         exists ws index_str,
           t = name ++ ws ++ "[" ++ index_str ++ "]" /\
           all_space ws = true /\ index_str <> "" /\
           count_char "[" t = 1%nat /\ count_char "]" t = 1%nat /\
           py_float rt (VStr index_str) = Ok x
     end)
  /\
  (forall rt : runtime,
     py_float rt (VStr "3") = Ok 3%float ->
     _validate_and_normalize_changes rt [("series", VStr "Foo Bar [3]")] series_schema
       = ({[ "series" := VStr "Foo Bar"; "series_index" := VFloat 3 ]}, []))
  /\
  (forall rt : runtime,
     py_float rt (VStr "3") = Ok 3%float ->
     py_float rt (VInt 4) = Ok 4%float ->
     _validate_and_normalize_changes rt
         [("series", VStr "Foo Bar [3]"); ("series_index", VInt 4)] series_schema
       = ({[ "series" := VStr "Foo Bar"; "series_index" := VFloat 4 ]},
          [series_conflict_message rt "series" "Foo Bar [3]" 3 4]))
  /\
  (forall rt : runtime,
     _validate_and_normalize_changes rt [("series", VStr "Foo[1][2]")] series_schema
       = (∅, ["Field 'series' (series): Invalid series format: multiple bracket pairs found in 'Foo[1][2]'"]))
  /\
  (forall (rt : runtime) (name ws index_str : string),
     strip name = name ->
     count_char "[" name = 0%nat -> count_char "]" name = 0%nat ->
     count_char "010" name = 0%nat ->
     all_space ws = true -> index_str <> "" ->
     count_char "[" index_str = 0%nat -> count_char "]" index_str = 0%nat ->
     let series_input := name ++ ws ++ "[" ++ index_str ++ "]" in
     _normalize_series_field rt series_input =
       match py_float rt (VStr index_str) with
       | Ok series_index => Ok (name, Some series_index)
       | Raise e =>
           if is_value_error e then
             Raise (Exn ValueError
               ("Invalid series index: '" ++ index_str
                ++ "' is not a valid number in '" ++ strip series_input ++ "'"))
           else Raise e
       end)
  /\
  (forall (rt : runtime) (s : string),
     count_char "[" s = 0%nat -> count_char "]" s = 0%nat ->
     _normalize_series_field rt s = Ok (strip s, None))
  /\
  (forall (rt : runtime) (s : string),
     let t := strip s in
     count_char "[" t <> 0%nat \/ count_char "]" t <> 0%nat ->
     count_char "[" t <> 1%nat \/ count_char "]" t <> 1%nat ->
     _normalize_series_field rt s =
       Raise (Exn ValueError
         ("Invalid series format: multiple bracket pairs found in '" ++ t ++ "'")))
  /\
  (forall (rt : runtime) (changes : list (string * value))
          (schema : gmap string field_schema) (f : string) (v : value)
          (n : gmap string value) (fs : field_schema),
     schema !! f = Some fs -> fs_datatype fs = "series" ->
     match _normalize_series_field rt (to_str rt v) with
     | Ok (name, None) =>
         validate_field rt changes schema f v n = (<[f := VStr name]> n, [])
     | Ok (name, Some x) =>
         match changes_get (f ++ "_index") changes with
         | None =>
             validate_field rt changes schema f v n
               = (<[f ++ "_index" := VFloat x]> (<[f := VStr name]> n), [])
         | Some provided =>
             forall y, py_float rt provided = Ok y ->
               validate_field rt changes schema f v n
                 = (<[f := VStr name]> n,
                    if PrimFloat.eqb y x then []
                    else [series_conflict_message rt f (to_str rt v) x y])
         end
     | Raise e =>
         is_value_error e = true ->
         validate_field rt changes schema f v n
           = (n, ["Field '" ++ f ++ "' (series): " ++ exn_msg e])
     end).
Proof.
  split; [exact normalize_series_ok |].
  split; [exact series_example_index |].
  split; [exact series_example_conflict |].
  split; [exact series_example_two_pairs |].
  split; [exact normalize_series_bracketed |].
  split; [exact normalize_series_plain |].
  split; [exact normalize_series_bracket_count | exact validate_series_field].
Qed.

Lemma series_bracket_suffix_witness :
  _validate_and_normalize_changes sample_runtime
      [("series", VStr "Foo Bar [3]"); ("series_index", VInt 4)] series_schema
    = ({[ "series" := VStr "Foo Bar"; "series_index" := VFloat 4 ]},
       ["Field 'series': series string 'Foo Bar [3]' implies index 3.0, but 'series_index' is also provided with a different value of 4.0."]).
Proof.
  exact (proj1 (proj2 (proj2 series_bracket_suffix_parsed)) sample_runtime eq_refl eq_refl).
Defined.

(** ** The validator processes every field *)

Section ValidatorFacts.

Variable rt : runtime.

(** The messages one field contributes. *)
Definition field_errors (changes : list (string * value))
    (schema : gmap string field_schema) (fv : string * value) : list string :=
  (validate_field rt changes schema fv.1 fv.2 ∅).2.

(** The three things an iteration can do to [normalized]: leave it alone
    and report; set the field; set the field and, when the change set has no
    index of its own, the index derived from the series text. *)
Definition field_shape (changes : list (string * value)) (f : string)
    (V : gmap string value -> gmap string value * list string) : Prop :=
  exists errs,
    ((forall n, V n = (n, errs)) /\ errs <> [])
    \/ (exists x, forall n, V n = (<[f := x]> n, errs))
    \/ (exists x y, (forall n, V n = (<[f ++ "_index" := y]> (<[f := x]> n), errs))
                    /\ changes_get (f ++ "_index") changes = None).

Ltac split_cases :=
  repeat match goal with
         | |- context [match ?x with _ => _ end] => destruct x eqn:?
         | |- context [if ?b then _ else _] => destruct b eqn:?
         end.

Ltac shape_done :=
  eexists;
  first [ left; split; [intros; reflexivity | discriminate]
        | right; left; eexists; intros; reflexivity
        | right; right; eexists _, _; split; [intros; reflexivity | eassumption] ].

Lemma validate_text_shape changes f fs v : field_shape changes f (validate_text rt f fs v).
Proof. unfold validate_text. split_cases; shape_done. Qed.

Lemma validate_series_shape changes f v :
  field_shape changes f (validate_series rt changes f v).
Proof. unfold validate_series. split_cases; shape_done. Qed.

Lemma validate_rating_shape changes f v : field_shape changes f (validate_rating rt f v).
Proof. unfold validate_rating. split_cases; shape_done. Qed.

Lemma validate_datetime_shape changes f v :
  field_shape changes f (validate_datetime rt f v).
Proof. unfold validate_datetime. split_cases; shape_done. Qed.

Lemma validate_int_shape changes f v : field_shape changes f (validate_int rt f v).
Proof. unfold validate_int. split_cases; shape_done. Qed.

Lemma validate_float_shape changes f v : field_shape changes f (validate_float rt f v).
Proof. unfold validate_float. split_cases; shape_done. Qed.

Lemma validate_enumeration_shape changes f fs v :
  field_shape changes f (validate_enumeration rt f fs v).
Proof. unfold validate_enumeration. split_cases; shape_done. Qed.

Lemma validate_bool_shape changes f v : field_shape changes f (validate_bool f v).
Proof. unfold validate_bool. split_cases; shape_done. Qed.

Lemma validate_field_shape (changes : list (string * value))
    (schema : gmap string field_schema) (f : string) (v : value) :
  field_shape changes f (validate_field rt changes schema f v).
Proof.
  unfold validate_field. destruct (schema !! f) as [fs|]; [| shape_done].
  destruct (String.eqb (fs_datatype fs) "text"); [apply validate_text_shape |].
  destruct (String.eqb (fs_datatype fs) "series"); [apply validate_series_shape |].
  destruct (String.eqb (fs_datatype fs) "rating"); [apply validate_rating_shape |].
  destruct (String.eqb (fs_datatype fs) "datetime"); [apply validate_datetime_shape |].
  destruct (String.eqb (fs_datatype fs) "int"); [apply validate_int_shape |].
  destruct (String.eqb (fs_datatype fs) "float"); [apply validate_float_shape |].
  destruct (String.eqb (fs_datatype fs) "composite"); [shape_done |].
  destruct (String.eqb (fs_datatype fs) "enumeration"); [apply validate_enumeration_shape |].
  destruct (String.eqb (fs_datatype fs) "comments"); [shape_done |].
  destruct (String.eqb (fs_datatype fs) "bool"); [apply validate_bool_shape |].
  shape_done.
Qed.

(** The messages of a field do not depend on what was normalized before. *)
Lemma validate_field_errors_indep (changes : list (string * value))
    (schema : gmap string field_schema) (f : string) (v : value)
    (n1 n2 : gmap string value) :
  (validate_field rt changes schema f v n1).2 = (validate_field rt changes schema f v n2).2.
Proof.
  destruct (validate_field_shape changes schema f v)
    as [errs [[H _] | [[x H] | (x & y & H & _)]]]; rewrite !H; reflexivity.
Qed.

(** A field changes [normalized] at its own key, and at its index key when
    that key is not in the change set, and nowhere else. *)
Lemma validate_field_frame (changes : list (string * value))
    (schema : gmap string field_schema) (f : string) (v : value)
    (n : gmap string value) (k : string) :
  k <> f -> changes_get k changes <> None ->
  (validate_field rt changes schema f v n).1 !! k = n !! k.
Proof.
  intros Hne Hin.
  destruct (validate_field_shape changes schema f v)
    as [errs [[H _] | [[x H] | (x & y & H & Hidx)]]]; rewrite H; simpl.
  - reflexivity.
  - apply lookup_insert_ne. congruence.
  - rewrite !lookup_insert_ne; [reflexivity | congruence | congruence].
Qed.

(** Every field leaves a normalized value or at least one message. *)
Lemma validate_field_progress (changes : list (string * value))
    (schema : gmap string field_schema) (f : string) (v : value)
    (n : gmap string value) :
  is_Some ((validate_field rt changes schema f v n).1 !! f) \/
  (validate_field rt changes schema f v n).2 <> [].
Proof.
  destruct (validate_field_shape changes schema f v)
    as [errs [[H He] | [[x H] | (x & y & H & Hidx)]]]; rewrite H; simpl.
  - right. exact He.
  - left. rewrite lookup_insert_eq. eauto.
  - left. rewrite lookup_insert. case_decide; [eauto |].
    rewrite lookup_insert_eq. eauto.
Qed.

Lemma validate_field_unknown (changes : list (string * value))
    (schema : gmap string field_schema) (f : string) (v : value)
    (n : gmap string value) (fs : field_schema) :
  schema !! f = Some fs -> fs_datatype fs ∉ known_datatypes ->
  validate_field rt changes schema f v n
    = (<[f := v]> n, [unknown_datatype_message f (fs_datatype fs)]).
Proof.
  intros Hs Hunk. unfold validate_field. rewrite Hs.
  unfold known_datatypes in Hunk. rewrite !not_elem_of_cons in Hunk.
  destruct Hunk as (H1 & H2 & H3 & H4 & H5 & H6 & H7 & H8 & H9 & H10 & _).
  repeat match goal with
         | H : fs_datatype fs <> ?t |- _ =>
             apply String.eqb_neq in H; rewrite H; clear H
         end.
  reflexivity.
Qed.

Lemma changes_get_in (k : string) (v : value) (changes : list (string * value)) :
  In (k, v) changes -> changes_get k changes <> None.
Proof.
  unfold changes_get. induction changes as [|[k' v'] r IH]; simpl; [tauto |].
  intros [H | H].
  - injection H as -> ->. rewrite String.eqb_refl. discriminate.
  - destruct (String.eqb k k'); [discriminate | apply IH, H].
Qed.

Lemma validate_loop_spec (changes : list (string * value))
    (schema : gmap string field_schema) (items : list (string * value))
    (n : gmap string value) (errs : list string) :
  (validate_loop rt changes schema items n errs).2
    = (errs ++ concat (map (field_errors changes schema) items))%list /\
  (forall k, changes_get k changes <> None -> ~ In k (map fst items) ->
     (validate_loop rt changes schema items n errs).1 !! k = n !! k).
Proof.
  revert n errs. induction items as [|[f v] rest IH]; intros n errs; simpl.
  - rewrite app_nil_r. split; [reflexivity | intros; reflexivity].
  - destruct (validate_field rt changes schema f v n) as [n' new_errors] eqn:Hf.
    destruct (IH n' (errs ++ new_errors)%list) as [He Hk]. split.
    + rewrite He, <- app_assoc. f_equal. f_equal.
      unfold field_errors. simpl.
      rewrite (validate_field_errors_indep changes schema f v ∅ n), Hf. reflexivity.
    + intros k Hin Hnot. rewrite Hk by tauto.
      replace n' with (validate_field rt changes schema f v n).1 by (rewrite Hf; reflexivity).
      apply validate_field_frame; [intros ->; apply Hnot; left; reflexivity | exact Hin].
Qed.

(** A field of unknown datatype reaches the normalized change set with its
    raw value, and leaves its message among the errors. *)
Lemma validate_loop_unknown (changes : list (string * value))
    (schema : gmap string field_schema) (items : list (string * value))
    (n : gmap string value) (errs : list string)
    (f : string) (v : value) (fs : field_schema) :
  NoDup (map fst items) -> In (f, v) items ->
  changes_get f changes <> None ->
  schema !! f = Some fs -> fs_datatype fs ∉ known_datatypes ->
  (validate_loop rt changes schema items n errs).1 !! f = Some v /\
  In (unknown_datatype_message f (fs_datatype fs))
     (validate_loop rt changes schema items n errs).2.
Proof.
  intros Hnd Hin Hget Hs Hunk. split.
  - revert n errs Hnd Hin. induction items as [|[g w] rest IH]; intros n errs Hnd Hin;
      [destruct Hin |].
    simpl in Hnd. apply NoDup_cons in Hnd as [Hfresh Hnd]. simpl.
    destruct Hin as [Heq | Hin].
    + injection Heq as -> ->.
      rewrite (validate_field_unknown changes schema f v n fs Hs Hunk).
      destruct (validate_loop_spec changes schema rest (<[f := v]> n)
                  (errs ++ [unknown_datatype_message f (fs_datatype fs)])%list)
        as [_ Hk].
      rewrite Hk; [apply lookup_insert_eq | exact Hget |].
      intros Hf. apply Hfresh. apply list_elem_of_In. exact Hf.
    + destruct (validate_field rt changes schema g w n) as [n' e']. apply IH; assumption.
  - destruct (validate_loop_spec changes schema items n errs) as [-> _].
    apply in_or_app. right. apply in_concat.
    exists (field_errors changes schema (f, v)). split.
    + apply in_map. exact Hin.
    + unfold field_errors. simpl.
      rewrite (validate_field_unknown changes schema f v ∅ fs Hs Hunk). left. reflexivity.
Qed.

End ValidatorFacts.

(** ** Updates *)

Section UpdateFacts.

Variable libs : list (string * library_entry).
Variable rt : runtime.
Variable be : backend.

(** [_update_book_impl] once the configuration, the write grant and the
    schema are there: the validation decides between the error and the
    update call. *)
Lemma update_book_after_schema (st st1 : state) (book_id : Z)
    (changes : list (string * value)) (library_name : option string)
    (lib_conf : lib_conf) (write_perm : grant) (schema : gmap string field_schema) :
  get_library_config libs library_name = Some lib_conf ->
  check_write_permission rt lib_conf (Some (map fst changes)) = Ok write_perm ->
  _get_library_schema_impl libs be library_name st = (Ok schema, st1) ->
  _update_book_impl libs rt be book_id changes library_name st =
    let r := _validate_and_normalize_changes rt changes schema in
    match r.2 with
    | _ :: _ => (Raise (Exn ValueError (validation_message r.2)), st1)
    | [] =>
        send_rpc libs (UpdateBook library_name book_id r.1)
                 (fun log => reply_update be log library_name book_id r.1) st1
    end.
Proof.
  intros Hconf Hperm Hschema.
  unfold _update_book_impl, bind, lift, get_lib_conf.
  rewrite Hconf, Hperm, Hschema. cbv zeta.
  destruct (_validate_and_normalize_changes rt changes schema) as [n [|e errs]];
    reflexivity.
Qed.

(** The calls [_update_book_impl] dispatches: at most the schema fetch, then
    at most one update, sent only after a validation without messages and
    carrying the whole normalized change set. *)
Lemma update_book_log (st : state) (book_id : Z) (changes : list (string * value))
    (library_name : option string) :
  let st' := (_update_book_impl libs rt be book_id changes library_name st).2 in
  exists delta,
    rpc_log st' = (rpc_log st ++ delta)%list /\
    forall c, In c delta -> is_update c = true ->
      exists schema normalized,
        _validate_and_normalize_changes rt changes schema = (normalized, []) /\
        c = UpdateBook library_name book_id normalized.
Proof.
  cbv zeta.
  destruct (get_library_config libs library_name) as [lib_conf|] eqn:Hconf.
  2:{ unfold _update_book_impl, bind, lift, get_lib_conf. rewrite Hconf. simpl.
      exists []. rewrite app_nil_r. split; [reflexivity | intros c []]. }
  destruct (check_write_permission rt lib_conf (Some (map fst changes)))
    as [write_perm|e] eqn:Hperm.
  2:{ unfold _update_book_impl, bind, lift, get_lib_conf. rewrite Hconf, Hperm. simpl.
      exists []. rewrite app_nil_r. split; [reflexivity | intros c []]. }
  destruct (schema_call_frame libs be st library_name) as [_ Hlog]. cbv zeta in Hlog.
  destruct (_get_library_schema_impl libs be library_name st) as [[schema|e] st1] eqn:Hs.
  2:{ unfold _update_book_impl, bind, lift, get_lib_conf. rewrite Hconf, Hperm, Hs.
      simpl in *. destruct Hlog as [-> | ->].
      - exists []. rewrite app_nil_r. split; [reflexivity | intros c []].
      - eexists. split; [reflexivity |]. intros c [<- | []]. discriminate. }
  rewrite (update_book_after_schema st st1 book_id changes library_name lib_conf
             write_perm schema Hconf Hperm Hs).
  cbv zeta. simpl in Hlog.
  destruct (_validate_and_normalize_changes rt changes schema) as [n errs] eqn:Hv.
  destruct errs as [|e errs]; simpl.
  - unfold send_rpc. simpl. rewrite Hconf. simpl.
    destruct Hlog as [-> | ->].
    + eexists. split; [reflexivity |]. intros c [<- | []] _.
      exists schema, n. split; [exact Hv | reflexivity].
    + rewrite <- app_assoc. eexists. split; [reflexivity |].
      intros c [<- | [<- | []]] Hu; [discriminate |].
      exists schema, n. split; [exact Hv | reflexivity].
  - destruct Hlog as [-> | ->].
    + exists []. rewrite app_nil_r. split; [reflexivity | intros c []].
    + eexists. split; [reflexivity |]. intros c [<- | []]. discriminate.
Qed.

End UpdateFacts.

(** C1 as stated fails: on a cold schema cache the call that rejects the
    change set has dispatched the schema fetch before it validates. *)
Lemma update_book_fetches_schema_before_rejecting :
  _update_book_impl sample_libs sample_runtime sample_backend 7
      [("title", VStr "Dune"); ("rating", VInt 11)] (Some "archive") initial_state
    = (Raise (Exn ValueError
         (validation_message
            ["Field 'rating' (rating): value must be between 0 and 10, got 11."])),
       {| _library_schemata := {[ Some "archive" := sample_schema ]};
          rpc_log := [GetLibrarySchema (Some "archive")] |}).
Proof. vm_compute. reflexivity. Qed.

(** C1, amended.  The messages of a validation are those of every field of
    the change set, in order, each field's messages being what the field
    yields on its own.  When the write grant admits the change set, the
    schema is obtained and some field has a message, [_update_book_impl]
    raises the validation error listing all of them, and the only call it
    may have dispatched is the schema fetch of a cache miss.  Whatever the
    outcome, an update call is dispatched only after a validation without
    messages and carries the whole normalized change set. *)
Theorem update_book_rejects_before_update_rpc :
  forall (libs : list (string * library_entry)) (rt : runtime) (be : backend)
         (st : state) (book_id : Z) (changes : list (string * value))
         (library_name : option string),
    (forall schema,
       (_validate_and_normalize_changes rt changes schema).2
         = concat (map (field_errors rt changes schema) changes))
    /\
    (forall lib_conf write_perm schema st1,
       get_library_config libs library_name = Some lib_conf ->
       check_write_permission rt lib_conf (Some (map fst changes)) = Ok write_perm ->
       _get_library_schema_impl libs be library_name st = (Ok schema, st1) ->
       (_validate_and_normalize_changes rt changes schema).2 <> [] ->
       _update_book_impl libs rt be book_id changes library_name st
         = (Raise (Exn ValueError
              (validation_message (_validate_and_normalize_changes rt changes schema).2)),
            st1)
       /\ (rpc_log st1 = rpc_log st
           \/ rpc_log st1 = (rpc_log st ++ [GetLibrarySchema library_name])%list))
    /\
    (exists delta,
       rpc_log (_update_book_impl libs rt be book_id changes library_name st).2
         = (rpc_log st ++ delta)%list /\
       forall c, In c delta -> is_update c = true ->
         exists schema normalized,
           _validate_and_normalize_changes rt changes schema = (normalized, []) /\
           c = UpdateBook library_name book_id normalized).
Proof.
  intros libs rt be st book_id changes library_name. split; [| split].
  - intros schema. unfold _validate_and_normalize_changes.
    destruct (validate_loop_spec rt changes schema changes ∅ []) as [-> _]. reflexivity.
  - intros lib_conf write_perm schema st1 Hconf Hperm Hs Herr. split.
    + rewrite (update_book_after_schema libs rt be st st1 book_id changes library_name
                 lib_conf write_perm schema Hconf Hperm Hs).
      cbv zeta. destruct (_validate_and_normalize_changes rt changes schema).2;
        [contradiction | reflexivity].
    + destruct (schema_call_frame libs be st library_name) as [_ Hlog].
      cbv zeta in Hlog. rewrite Hs in Hlog. exact Hlog.
  - apply update_book_log.
Qed.

Lemma update_book_rejects_witness :
  _update_book_impl sample_libs sample_runtime sample_backend 7
      [("title", VStr "Dune"); ("rating", VInt 11)] (Some "archive")
      {| _library_schemata := {[ Some "archive" := sample_schema ]}; rpc_log := [] |}
    = (Raise (Exn ValueError
         (validation_message
            ["Field 'rating' (rating): value must be between 0 and 10, got 11."])),
       {| _library_schemata := {[ Some "archive" := sample_schema ]}; rpc_log := [] |}).
Proof.
  exact (proj1 (proj1 (proj2 (update_book_rejects_before_update_rpc
           sample_libs sample_runtime sample_backend
           {| _library_schemata := {[ Some "archive" := sample_schema ]}; rpc_log := [] |}
           7 [("title", VStr "Dune"); ("rating", VInt 11)] (Some "archive")))
         {| lc_name := "archive"; lc_path := "/srv/calibre/archive";
            lc_permissions :=
              {| perm_read := GBool true; perm_write := GBool true;
                 perm_delete := GAbsent; perm_convert := GAbsent |} |}
         (GBool true) sample_schema
         {| _library_schemata := {[ Some "archive" := sample_schema ]}; rpc_log := [] |}
         eq_refl eq_refl eq_refl ltac:(discriminate))).
Defined.

(** C7.  A field whose schema datatype is none of the ten known tags reaches
    the normalized change set with its raw value, and its "passing value
    through without validation" message is appended to the errors; so
    [_update_book_impl] raises the validation error for the change set and
    dispatches no update. *)
Theorem unknown_datatype_rejects_change_set :
  forall (libs : list (string * library_entry)) (rt : runtime) (be : backend)
         (st st1 : state) (book_id : Z) (changes : list (string * value))
         (library_name : option string) (lib_conf : lib_conf) (write_perm : grant)
         (schema : gmap string field_schema) (f : string) (v : value)
         (fs : field_schema),
    get_library_config libs library_name = Some lib_conf ->
    check_write_permission rt lib_conf (Some (map fst changes)) = Ok write_perm ->
    _get_library_schema_impl libs be library_name st = (Ok schema, st1) ->
    NoDup (map fst changes) -> In (f, v) changes ->
    schema !! f = Some fs -> fs_datatype fs ∉ known_datatypes ->
    let r := _validate_and_normalize_changes rt changes schema in
    r.1 !! f = Some v /\
    In (unknown_datatype_message f (fs_datatype fs)) r.2 /\
    _update_book_impl libs rt be book_id changes library_name st
      = (Raise (Exn ValueError (validation_message r.2)), st1).
Proof.
  intros libs rt be st st1 book_id changes library_name lib_conf write_perm schema
         f v fs Hconf Hperm Hs Hnd Hin Hf Hunk r.
  destruct (validate_loop_unknown rt changes schema changes ∅ [] f v fs Hnd Hin
              (changes_get_in f v changes Hin) Hf Hunk) as [Hn He].
  split; [exact Hn |]. split; [exact He |].
  rewrite (update_book_after_schema libs rt be st st1 book_id changes library_name
             lib_conf write_perm schema Hconf Hperm Hs).
  cbv zeta. fold r. unfold _validate_and_normalize_changes in r. fold r in He.
  destruct r.2; [destruct He | reflexivity].
Qed.

Lemma unknown_datatype_witness :
  (_validate_and_normalize_changes sample_runtime
     [("title", VStr "Dune"); ("#shelf", VStr "x")] sample_schema).1 !! "#shelf"
    = Some (VStr "x") /\
  _update_book_impl sample_libs sample_runtime sample_backend 7
      [("title", VStr "Dune"); ("#shelf", VStr "x")] (Some "archive") initial_state
    = (Raise (Exn ValueError
         (validation_message
            ["Field '#shelf': unknown datatype 'shelf', passing value through without validation."])),
       {| _library_schemata := {[ Some "archive" := sample_schema ]};
          rpc_log := [GetLibrarySchema (Some "archive")] |}).
Proof.
  assert (Hnd : NoDup (map fst [("title", VStr "Dune"); ("#shelf", VStr "x")])).
  { simpl. apply NoDup_cons. split; [| apply NoDup_singleton].
    rewrite list_elem_of_singleton. discriminate. }
  assert (Hunk : fs_datatype (plain "shelf") ∉ known_datatypes).
  { apply (bool_decide_unpack _). reflexivity. }
  destruct (unknown_datatype_rejects_change_set sample_libs sample_runtime sample_backend
              initial_state
              {| _library_schemata := {[ Some "archive" := sample_schema ]};
                 rpc_log := [GetLibrarySchema (Some "archive")] |}
              7 [("title", VStr "Dune"); ("#shelf", VStr "x")] (Some "archive")
              {| lc_name := "archive"; lc_path := "/srv/calibre/archive";
                 lc_permissions :=
                   {| perm_read := GBool true; perm_write := GBool true;
                      perm_delete := GAbsent; perm_convert := GAbsent |} |}
              (GBool true) sample_schema "#shelf" (VStr "x") (plain "shelf")
              eq_refl eq_refl eq_refl Hnd (or_intror (or_introl eq_refl)) eq_refl Hunk)
    as (Hn & _ & Hrun).
  split; [exact Hn | exact Hrun].
Defined.

End Logic.

(* ===================================================================== *)
(** * What a validated change set looks like (src/logic/metadata_ops.py)   *)
(* ===================================================================== *)

Module Validation.
Import Permissions Config Logic.

Section Normalized.

Variable rt : runtime.

Lemma index_key_differs (f : string) : f <> f ++ "_index".
Proof.
  intros H. apply (f_equal String.length) in H.
  rewrite string_length_append in H. simpl in H. lia.
Qed.

(** After the loop, the entry of a field of the change set is the one its own
    iteration left. *)
Lemma validate_loop_lookup (changes : list (string * value))
    (schema : gmap string field_schema) (items : list (string * value))
    (n : gmap string value) (errs : list string) (f : string) (v : value) :
  NoDup (map fst items) -> In (f, v) items -> changes_get f changes <> None ->
  (validate_loop rt changes schema items n errs).1 !! f
    = (validate_field rt changes schema f v n).1 !! f.
Proof.
  intros Hnd Hin Hget. revert n errs Hnd Hin.
  induction items as [|[g w] rest IH]; intros n errs Hnd Hin; [destruct Hin |].
  simpl in Hnd. apply NoDup_cons in Hnd as [Hfresh Hnd]. simpl.
  destruct (validate_field rt changes schema g w n) as [n' e'] eqn:Hg.
  destruct Hin as [Heq | Hin].
  - injection Heq as -> ->.
    destruct (validate_loop_spec rt changes schema rest n' (errs ++ e')%list) as [_ Hk].
    rewrite Hk; [rewrite Hg; reflexivity | exact Hget |].
    intros Hf. apply Hfresh, list_elem_of_In, Hf.
  - rewrite (IH n' (errs ++ e')%list Hnd Hin).
    assert (Hne : f <> g).
    { intros ->. apply Hfresh, list_elem_of_In.
      change g with (fst (g, v)). apply in_map, Hin. }
    assert (Hn' : n' !! f = n !! f).
    { replace n' with (validate_field rt changes schema g w n).1 by (rewrite Hg; reflexivity).
      apply validate_field_frame; assumption. }
    destruct (validate_field_shape rt changes schema f v)
      as [errs' [[H _] | [[x H] | (x & y & H & _)]]]; rewrite !H; simpl.
    + exact Hn'.
    + rewrite !lookup_insert_eq. reflexivity.
    + rewrite !(lookup_insert_ne _ (f ++ "_index") f) by (apply not_eq_sym, index_key_differs).
      rewrite !lookup_insert_eq. reflexivity.
Qed.

Lemma concat_nil_inv {A} (ls : list (list A)) (l : list A) :
  concat ls = [] -> In l ls -> l = [].
Proof.
  induction ls as [|x r IH]; simpl; [tauto |].
  intros H [-> | Hin]; apply app_eq_nil in H as [H1 H2]; [exact H1 | apply IH; assumption].
Qed.

(** A change set validated without a message: each of its fields passed its
    own check, and [normalized] holds at the field what that check stored. *)
Lemma validated_field (changes : list (string * value))
    (schema : gmap string field_schema) (normalized : gmap string value)
    (f : string) (v : value) :
  NoDup (map fst changes) -> In (f, v) changes ->
  _validate_and_normalize_changes rt changes schema = (normalized, []) ->
  (validate_field rt changes schema f v ∅).2 = [] /\
  normalized !! f = (validate_field rt changes schema f v ∅).1 !! f.
Proof.
  intros Hnd Hin Hv. unfold _validate_and_normalize_changes in Hv. split.
  - destruct (validate_loop_spec rt changes schema changes ∅ []) as [He _].
    rewrite Hv in He. simpl in He. symmetry in He.
    apply (concat_nil_inv _ (field_errors rt changes schema (f, v)) He).
    apply in_map, Hin.
  - rewrite <- (validate_loop_lookup changes schema changes ∅ [] f v Hnd Hin
                  (changes_get_in f v changes Hin)).
    rewrite Hv. reflexivity.
Qed.

Lemma validate_field_at (changes : list (string * value))
    (schema : gmap string field_schema) (f datatype : string) (v : value)
    (fs : field_schema) (n : gmap string value) :
  schema !! f = Some fs -> fs_datatype fs = datatype ->
  validate_field rt changes schema f v n =
    (if String.eqb datatype "text" then validate_text rt f fs v n
     else if String.eqb datatype "series" then validate_series rt changes f v n
     else if String.eqb datatype "rating" then validate_rating rt f v n
     else if String.eqb datatype "datetime" then validate_datetime rt f v n
     else if String.eqb datatype "int" then validate_int rt f v n
     else if String.eqb datatype "float" then validate_float rt f v n
     else if String.eqb datatype "composite" then
       (n, ["Field '" ++ f ++ "' is a composite field and cannot be written to."])
     else if String.eqb datatype "enumeration" then validate_enumeration rt f fs v n
     else if String.eqb datatype "comments" then (<[f := VStr (to_str rt v)]> n, [])
     else if String.eqb datatype "bool" then validate_bool f v n
     else (<[f := v]> n, [unknown_datatype_message f datatype])).
Proof. intros Hs <-. unfold validate_field. rewrite Hs. reflexivity. Qed.

(** [s.strip().strip() == s.strip()] *)
Lemma strip_idempotent (s : string) : strip (strip s) = strip s.
Proof.
  unfold strip. pose proof (lstrip_head s) as Hh.
  destruct (lstrip s) as [|c r]; [reflexivity |].
  destruct (rstrip_keeps_head c r Hh) as [r' Hr]. rewrite Hr.
  assert (Hl : lstrip (String c r') = String c r') by (simpl; rewrite Hh; reflexivity).
  rewrite Hl, <- Hr. apply rstrip_idempotent.
Qed.

Lemma nonempty_stripped_clean (items : list string) (x : value) :
  In x (nonempty_stripped items) ->
  exists s, x = VStr s /\ s <> "" /\ strip s = s.
Proof.
  unfold nonempty_stripped. intros H. apply in_map_iff in H as (s & <- & Hs).
  apply List.filter_In in Hs as [Hs Hne]. apply in_map_iff in Hs as (t & <- & _).
  exists (strip t). split; [reflexivity |]. split; [| apply strip_idempotent].
  apply negb_true_iff, String.eqb_neq in Hne. exact Hne.
Qed.

End Normalized.

(** ** Sample library schema *)

Definition shelf_schema : gmap string field_schema :=
  {[ "title" := plain "text";
     "tags" := {| fs_datatype := "text"; fs_separator := Some ",";
                  fs_allowed_values := [] |};
     "rating" := plain "rating";
     "#read" := plain "bool";
     "#state" := {| fs_datatype := "enumeration"; fs_separator := None;
                    fs_allowed_values := ["new"; "reading"; "done"] |};
     "#summary" := plain "composite" ]}.

Definition shelf_changes : list (string * value) :=
  [("title", VStr "Dune"); ("tags", VStr "sf, classic,, desert ");
   ("rating", VStr "8"); ("#read", VStr " Yes"); ("#state", VStr "done")].

Lemma shelf_changes_nodup : NoDup (map fst shelf_changes).
Proof. apply (bool_decide_unpack _). vm_compute. reflexivity. Qed.

Lemma shelf_changes_validated :
  _validate_and_normalize_changes sample_runtime shelf_changes shelf_schema
    = ({[ "title" := VStr "Dune";
          "tags" := VList [VStr "sf"; VStr "classic"; VStr "desert"];
          "rating" := VInt 8; "#read" := VBool true; "#state" := VStr "done" ]}, []).
Proof. vm_compute. reflexivity. Qed.

(** X1.  When validation reports no message, the normalized change set has
    an entry for every field of the change set, and every entry it has is at
    a field of the change set or at the [_index] key of one. *)
Theorem validated_change_set_keys :
  forall (rt : runtime) (changes : list (string * value))
         (schema : gmap string field_schema) (normalized : gmap string value),
    _validate_and_normalize_changes rt changes schema = (normalized, []) ->
    (forall f v, In (f, v) changes -> is_Some (normalized !! f)) /\
    (forall k, is_Some (normalized !! k) ->
       changes_get k changes <> None \/
       exists f, changes_get f changes <> None /\ k = f ++ "_index").
Proof.
  intros rt changes schema normalized Hv. unfold _validate_and_normalize_changes in Hv.
  assert (Hgen : forall items n errs,
             (forall k, is_Some (n !! k) ->
                changes_get k changes <> None \/
                exists f, changes_get f changes <> None /\ k = f ++ "_index") ->
             (forall f v, In (f, v) items -> In (f, v) changes) ->
             (validate_loop rt changes schema items n errs).2 = [] ->
             let n' := (validate_loop rt changes schema items n errs).1 in
             (forall k, is_Some (n !! k) -> is_Some (n' !! k)) /\
             (forall f v, In (f, v) items -> is_Some (n' !! f)) /\
             (forall k, is_Some (n' !! k) ->
                changes_get k changes <> None \/
                exists f, changes_get f changes <> None /\ k = f ++ "_index")).
  { induction items as [|[g w] rest IH]; intros n errs Hkeys Hsub He; simpl in *.
    - split; [auto |]. split; [intros f v [] | exact Hkeys].
    - destruct (validate_field rt changes schema g w n) as [n1 e1] eqn:Hg.
      assert (Hgin : changes_get g changes <> None)
        by (eapply changes_get_in, Hsub; left; reflexivity).
      assert (He1 : e1 = []).
      { destruct (validate_loop_spec rt changes schema rest n1 (errs ++ e1)%list) as [Hs _].
        rewrite He in Hs. symmetry in Hs.
        apply app_eq_nil in Hs as [Hs _]. apply app_eq_nil in Hs as [_ Hs]. exact Hs. }
      subst e1.
      assert (Hstep : (forall k, is_Some (n !! k) -> is_Some (n1 !! k)) /\
                      is_Some (n1 !! g) /\
                      (forall k, is_Some (n1 !! k) ->
                         changes_get k changes <> None \/
                         exists f, changes_get f changes <> None /\ k = f ++ "_index")).
      { destruct (validate_field_shape rt changes schema g w)
          as [errs' [[H Hne] | [[x H] | (x & y & H & _)]]];
          rewrite H in Hg; injection Hg as Hn1 He1; subst n1 errs'.
        - contradiction.
        - split; [| split].
          + intros k Hk. rewrite lookup_insert. case_decide; eauto.
          + rewrite lookup_insert_eq. eauto.
          + intros k. rewrite lookup_insert. case_decide as Hd; [subst; auto | auto].
        - split; [| split].
          + intros k Hk. rewrite !lookup_insert. repeat case_decide; eauto.
          + rewrite lookup_insert_ne by apply not_eq_sym, index_key_differs.
            rewrite lookup_insert_eq. eauto.
          + intros k. rewrite !lookup_insert.
            case_decide as Hd1; [subst; eauto |].
            case_decide as Hd2; [subst; auto | auto]. }
      destruct Hstep as (Hmono & Hg1 & Hkeys1).
      destruct (IH n1 (errs ++ [])%list Hkeys1 (fun f v H => Hsub f v (or_intror H)) He)
        as (Hmono' & Hall & Hkeys').
      split; [auto |]. split; [| exact Hkeys'].
      intros f v [Heq | Hin]; [injection Heq as -> ->; auto | eauto]. }
  specialize (Hgen changes ∅ []). rewrite Hv in Hgen. simpl in Hgen.
  destruct Hgen as (_ & Hall & Hkeys); auto.
  intros k [x Hx]. rewrite lookup_empty in Hx. discriminate.
Qed.

Lemma validated_change_set_keys_witness :
  is_Some (({[ "title" := VStr "Dune";
               "tags" := VList [VStr "sf"; VStr "classic"; VStr "desert"];
               "rating" := VInt 8; "#read" := VBool true;
               "#state" := VStr "done" ]} : gmap string value) !! "tags").
Proof.
  exact (proj1 (validated_change_set_keys sample_runtime shelf_changes shelf_schema _
                  shelf_changes_validated)
           "tags" (VStr "sf, classic,, desert ") (or_intror (or_introl eq_refl))).
Defined.

(** X2.  In a change set validated without a message, a field of datatype
    [rating] is normalized to the integer [int(value)], which lies between 0
    and 10. *)
Theorem validated_rating_in_range :
  forall (rt : runtime) (changes : list (string * value))
         (schema : gmap string field_schema) (normalized : gmap string value)
         (f : string) (v : value) (fs : field_schema),
    NoDup (map fst changes) -> In (f, v) changes ->
    schema !! f = Some fs -> fs_datatype fs = "rating" ->
    _validate_and_normalize_changes rt changes schema = (normalized, []) ->
    exists rating_val,
      py_int rt v = Ok rating_val /\ 0 <= rating_val <= 10 /\
      normalized !! f = Some (VInt rating_val).
Proof.
  intros rt changes schema normalized f v fs Hnd Hin Hs Hd Hv.
  destruct (validated_field rt changes schema normalized f v Hnd Hin Hv) as [He ->].
  rewrite (validate_field_at rt changes schema f "rating" v fs ∅ Hs Hd) in *.
  simpl in *. unfold validate_rating in *.
  destruct (py_int rt v) as [r|e]; [| destruct (is_value_or_type_error e); discriminate].
  destruct ((r <? 0) || (10 <? r)) eqn:Hr; [discriminate |].
  apply orb_false_iff in Hr as [H1 H2]. apply Z.ltb_ge in H1, H2.
  exists r. split; [reflexivity |]. split; [lia |]. simpl. apply lookup_insert_eq.
Qed.

Lemma validated_rating_witness :
  exists rating_val,
    py_int sample_runtime (VStr "8") = Ok rating_val /\ 0 <= rating_val <= 10 /\
    ({[ "title" := VStr "Dune";
        "tags" := VList [VStr "sf"; VStr "classic"; VStr "desert"];
        "rating" := VInt 8; "#read" := VBool true;
        "#state" := VStr "done" ]} : gmap string value) !! "rating"
      = Some (VInt rating_val).
Proof.
  exact (validated_rating_in_range sample_runtime shelf_changes shelf_schema _
           "rating" (VStr "8") (plain "rating") shelf_changes_nodup
           (or_intror (or_intror (or_introl eq_refl))) eq_refl eq_refl
           shelf_changes_validated).
Defined.

(** X3.  In a change set validated without a message, a field of datatype
    [bool] is normalized to [True], [False] or [None]; a text value counts as
    true, false or none by its lower-cased, stripped spelling. *)
Theorem validated_bool_is_tristate :
  forall (rt : runtime) (changes : list (string * value))
         (schema : gmap string field_schema) (normalized : gmap string value)
         (f : string) (v : value) (fs : field_schema),
    NoDup (map fst changes) -> In (f, v) changes ->
    schema !! f = Some fs -> fs_datatype fs = "bool" ->
    _validate_and_normalize_changes rt changes schema = (normalized, []) ->
    match v with
    | VBool b => normalized !! f = Some (VBool b)
    | VNone => normalized !! f = Some VNone
    | VStr s =>
        let lower_val := strip (lower s) in
        (lower_val ∈ ["true"; "yes"; "1"] /\ normalized !! f = Some (VBool true)) \/
        (lower_val ∈ ["false"; "no"; "0"] /\ normalized !! f = Some (VBool false)) \/
        (lower_val ∈ ["none"; "null"; ""] /\ normalized !! f = Some VNone)
    | _ => False
    end.
Proof.
  intros rt changes schema normalized f v fs Hnd Hin Hs Hd Hv.
  destruct (validated_field rt changes schema normalized f v Hnd Hin Hv) as [He ->].
  rewrite (validate_field_at rt changes schema f "bool" v fs ∅ Hs Hd) in *.
  simpl in *. unfold validate_bool in *.
  destruct v as [| b | | | s | | |]; simpl in *; try discriminate;
    try apply lookup_insert_eq.
  destruct (bool_decide (strip (lower s) ∈ ["true"; "yes"; "1"])) eqn:H1.
  { left. apply bool_decide_eq_true in H1. split; [exact H1 | apply lookup_insert_eq]. }
  destruct (bool_decide (strip (lower s) ∈ ["false"; "no"; "0"])) eqn:H2.
  { right; left. apply bool_decide_eq_true in H2.
    split; [exact H2 | apply lookup_insert_eq]. }
  destruct (bool_decide (strip (lower s) ∈ ["none"; "null"; ""])) eqn:H3.
  { right; right. apply bool_decide_eq_true in H3.
    split; [exact H3 | apply lookup_insert_eq]. }
  discriminate.
Qed.

Lemma validated_bool_witness :
  (strip (lower " Yes") ∈ ["true"; "yes"; "1"] /\
   ({[ "title" := VStr "Dune";
       "tags" := VList [VStr "sf"; VStr "classic"; VStr "desert"];
       "rating" := VInt 8; "#read" := VBool true;
       "#state" := VStr "done" ]} : gmap string value) !! "#read"
     = Some (VBool true)) \/
  (strip (lower " Yes") ∈ ["false"; "no"; "0"] /\
   ({[ "title" := VStr "Dune";
       "tags" := VList [VStr "sf"; VStr "classic"; VStr "desert"];
       "rating" := VInt 8; "#read" := VBool true;
       "#state" := VStr "done" ]} : gmap string value) !! "#read"
     = Some (VBool false)) \/
  (strip (lower " Yes") ∈ ["none"; "null"; ""] /\
   ({[ "title" := VStr "Dune";
       "tags" := VList [VStr "sf"; VStr "classic"; VStr "desert"];
       "rating" := VInt 8; "#read" := VBool true;
       "#state" := VStr "done" ]} : gmap string value) !! "#read"
     = Some VNone).
Proof.
  exact (validated_bool_is_tristate sample_runtime shelf_changes shelf_schema _
           "#read" (VStr " Yes") (plain "bool") shelf_changes_nodup
           (or_intror (or_intror (or_intror (or_introl eq_refl)))) eq_refl eq_refl
           shelf_changes_validated).
Defined.

(** X4.  In a change set validated without a message, a field of datatype
    [enumeration] keeps its value, which is a text: the empty text or one
    of the schema's [allowed_values]. *)
Theorem validated_enumeration_allowed :
  forall (rt : runtime) (changes : list (string * value))
         (schema : gmap string field_schema) (normalized : gmap string value)
         (f : string) (v : value) (fs : field_schema),
    NoDup (map fst changes) -> In (f, v) changes ->
    schema !! f = Some fs -> fs_datatype fs = "enumeration" ->
    _validate_and_normalize_changes rt changes schema = (normalized, []) ->
    normalized !! f = Some v /\
    exists s, v = VStr s /\ (s = "" \/ s ∈ fs_allowed_values fs).
Proof.
  intros rt changes schema normalized f v fs Hnd Hin Hs Hd Hv.
  destruct (validated_field rt changes schema normalized f v Hnd Hin Hv) as [He ->].
  rewrite (validate_field_at rt changes schema f "enumeration" v fs ∅ Hs Hd) in *.
  simpl in *. unfold validate_enumeration in *.
  destruct (enum_accepts (fs_allowed_values fs) v) eqn:Ha; [| discriminate].
  split; [apply lookup_insert_eq |].
  destruct v as [| | | | s | | |]; try discriminate. simpl in Ha.
  exists s. split; [reflexivity |]. apply orb_true_iff in Ha as [Ha | Ha].
  - left. apply String.eqb_eq, Ha.
  - right. apply bool_decide_eq_true in Ha. exact Ha.
Qed.

Lemma validated_enumeration_witness :
  ({[ "title" := VStr "Dune";
      "tags" := VList [VStr "sf"; VStr "classic"; VStr "desert"];
      "rating" := VInt 8; "#read" := VBool true;
      "#state" := VStr "done" ]} : gmap string value) !! "#state"
    = Some (VStr "done") /\
  exists s, VStr "done" = VStr s /\ (s = "" \/ s ∈ ["new"; "reading"; "done"]).
Proof.
  exact (validated_enumeration_allowed sample_runtime shelf_changes shelf_schema _
           "#state" (VStr "done")
           {| fs_datatype := "enumeration"; fs_separator := None;
              fs_allowed_values := ["new"; "reading"; "done"] |}
           shelf_changes_nodup
           (or_intror (or_intror (or_intror (or_intror (or_introl eq_refl)))))
           eq_refl eq_refl shelf_changes_validated).
Defined.

(** X5.  In a change set validated without a message, a field of datatype
    [text] with a separator (other than [identifiers]) is normalized to a
    list of texts, none of them empty and none with white space at either
    end: the stripped pieces of the split text, or the stripped [str()] of
    the items of the list given. *)
Theorem validated_multivalue_text_clean :
  forall (rt : runtime) (changes : list (string * value))
         (schema : gmap string field_schema) (normalized : gmap string value)
         (f : string) (v : value) (fs : field_schema) (separator : string),
    NoDup (map fst changes) -> In (f, v) changes ->
    schema !! f = Some fs -> fs_datatype fs = "text" ->
    f <> "identifiers" -> fs_separator fs = Some separator -> separator <> "" ->
    _validate_and_normalize_changes rt changes schema = (normalized, []) ->
    exists items,
      normalized !! f = Some (VList items) /\
      (forall x, In x items -> exists s, x = VStr s /\ s <> "" /\ strip s = s) /\
      match v with
      | VStr s => items = nonempty_stripped (Py.split separator s)
      | VList l => items = nonempty_stripped (map (to_str rt) l)
      | _ => False
      end.
Proof.
  intros rt changes schema normalized f v fs separator Hnd Hin Hs Hd Hid Hsep Hne Hv.
  destruct (validated_field rt changes schema normalized f v Hnd Hin Hv) as [He ->].
  rewrite (validate_field_at rt changes schema f "text" v fs ∅ Hs Hd) in *.
  simpl in *. unfold validate_text in *. rewrite Hsep in *.
  apply String.eqb_neq in Hid, Hne. rewrite Hid, Hne in *.
  destruct v as [| | | | s | l | |]; try discriminate; simpl;
    eexists; (split; [apply lookup_insert_eq |]);
    (split; [apply nonempty_stripped_clean | reflexivity]).
Qed.

Lemma validated_multivalue_text_witness :
  exists items,
    ({[ "title" := VStr "Dune";
        "tags" := VList [VStr "sf"; VStr "classic"; VStr "desert"];
        "rating" := VInt 8; "#read" := VBool true;
        "#state" := VStr "done" ]} : gmap string value) !! "tags"
      = Some (VList items) /\
    (forall x, In x items -> exists s, x = VStr s /\ s <> "" /\ strip s = s) /\
    items = nonempty_stripped (Py.split "," "sf, classic,, desert ").
Proof.
  exact (validated_multivalue_text_clean sample_runtime shelf_changes shelf_schema _
           "tags" (VStr "sf, classic,, desert ")
           {| fs_datatype := "text"; fs_separator := Some ",";
              fs_allowed_values := [] |} ","
           shelf_changes_nodup (or_intror (or_introl eq_refl))
           eq_refl eq_refl ltac:(discriminate) eq_refl ltac:(discriminate)
           shelf_changes_validated).
Defined.

End Validation.

(* ===================================================================== *)
(** * Grants at work (src/logic/permissions.py, src/logic/metadata_ops.py) *)
(* ===================================================================== *)

Module Grants.
Import Permissions Config Logic.

Section Checks.

Variable libs : list (string * library_entry).
Variable rt : runtime.
Variable be : backend.

(** [check_write_permission_single_field] *)
Definition check_write_permission_single_field (lib_conf : lib_conf)
    (field_name : string) : result grant :=
  let write_perm := perm_write (lc_permissions lib_conf) in
  let lib_name := lc_name lib_conf in
  if grant_falsy write_perm then
    Raise (Exn PermissionError ("Write access denied for library '" ++ lib_name ++ "'."))
  else
    match write_perm with
    | GList allowed =>
        if bool_decide (field_name ∈ allowed) then Ok write_perm
        else
          Raise (Exn PermissionError
            ("Write access denied for field '" ++ field_name ++ "' in library '"
             ++ lib_name ++ "'. Allowed: " ++ py_str rt (VList (map VStr allowed))))
    | _ => Ok write_perm
    end.

(** What a write grant admits: it is truthy, and when it is a list of
    fields, every field to be written is in the list. *)
Definition write_admits (write_perm : grant) (changes_keys : option (list string)) : Prop :=
  grant_falsy write_perm = false /\
  match write_perm, changes_keys with
  | GList allowed, Some keys => forall k, k ∈ keys -> k ∈ allowed
  | _, _ => True
  end.

Lemma denied_fields_nil (requested allowed : list string) :
  denied_fields requested allowed = [] <-> forall k, k ∈ requested -> k ∈ allowed.
Proof.
  unfold denied_fields. split.
  - intros H k Hk. destruct (decide (k ∈ allowed)) as [Hin | Hout]; [exact Hin |].
    assert (Hd : k ∈ remove_dups
                   (List.filter (fun f => negb (bool_decide (f ∈ allowed))) requested)).
    { apply elem_of_remove_dups, list_elem_of_In, List.filter_In.
      split; [apply list_elem_of_In, Hk |].
      rewrite bool_decide_eq_false_2 by exact Hout. reflexivity. }
    rewrite H in Hd. apply elem_of_nil in Hd. destruct Hd.
  - intros H.
    destruct (remove_dups _) as [|k r] eqn:Hd; [reflexivity | exfalso].
    assert (Hk : k ∈ remove_dups
                   (List.filter (fun f => negb (bool_decide (f ∈ allowed))) requested))
      by (rewrite Hd; left).
    apply elem_of_remove_dups, list_elem_of_In, List.filter_In in Hk as [Hk Hout].
    apply list_elem_of_In, H in Hk. rewrite bool_decide_eq_true_2 in Hout by exact Hk.
    discriminate.
Qed.

Lemma check_write_permission_spec (lib_conf : lib_conf)
    (changes_keys : option (list string)) :
  let write_perm := perm_write (lc_permissions lib_conf) in
  (write_admits write_perm changes_keys ->
   check_write_permission rt lib_conf changes_keys = Ok write_perm) /\
  (~ write_admits write_perm changes_keys ->
   exists msg, check_write_permission rt lib_conf changes_keys
               = Raise (Exn PermissionError msg)).
Proof.
  cbv zeta. unfold check_write_permission, write_admits.
  destruct (grant_falsy (perm_write (lc_permissions lib_conf))) eqn:Hf.
  { split; [intros [H _]; discriminate | eauto]. }
  destruct (perm_write (lc_permissions lib_conf)) as [| b | allowed];
    try (split; [reflexivity | intros H; exfalso; apply H; split; [reflexivity | exact I]]).
  destruct changes_keys as [keys|];
    [| split; [reflexivity | intros H; exfalso; apply H; split; [reflexivity | exact I]]].
  destruct (denied_fields keys allowed) as [|d ds] eqn:Hd.
  - split; [reflexivity |]. intros H. exfalso. apply H. split; [reflexivity |].
    apply denied_fields_nil, Hd.
  - split; [| eauto]. intros [_ H]. apply denied_fields_nil in H. congruence.
Qed.

End Checks.

(** ** Samples *)

Definition main_conf : lib_conf :=
  {| lc_name := "main"; lc_path := "/srv/calibre/main";
     lc_permissions :=
       {| perm_read := GList ["title"; "authors"]; perm_write := GList ["title"; "rating"];
          perm_delete := GAbsent; perm_convert := GAbsent |} |}.

Lemma main_conf_resolved : get_library_config sample_libs (Some "main") = Some main_conf.
Proof. reflexivity. Qed.

(** X6.  [check_write_permission] returns the write grant exactly when the
    grant is truthy and, for a field-list grant, every key to be written is
    in the list; otherwise it raises [PermissionError].  So
    [_update_book_impl] on a change set the grant does not admit raises
    [PermissionError] and dispatches nothing, not even the schema fetch. *)
Theorem update_book_needs_write_grant :
  forall (libs : list (string * library_entry)) (rt : runtime) (be : backend)
         (lib_conf : lib_conf),
    let write_perm := perm_write (lc_permissions lib_conf) in
    (forall changes_keys,
       (write_admits write_perm changes_keys ->
        check_write_permission rt lib_conf changes_keys = Ok write_perm) /\
       (~ write_admits write_perm changes_keys ->
        exists msg, check_write_permission rt lib_conf changes_keys
                    = Raise (Exn PermissionError msg))) /\
    (forall st book_id changes library_name,
       get_library_config libs library_name = Some lib_conf ->
       ~ write_admits write_perm (Some (map fst changes)) ->
       exists msg,
         _update_book_impl libs rt be book_id changes library_name st
           = (Raise (Exn PermissionError msg), st)).
Proof.
  intros libs rt be lib_conf write_perm. split.
  - intros changes_keys. apply check_write_permission_spec.
  - intros st book_id changes library_name Hconf Hdeny.
    destruct (proj2 (check_write_permission_spec rt lib_conf (Some (map fst changes))) Hdeny)
      as [msg Hmsg].
    exists msg. unfold _update_book_impl, bind, lift, get_lib_conf.
    rewrite Hconf, Hmsg. reflexivity.
Qed.

Lemma update_book_needs_write_grant_witness :
  exists msg,
    _update_book_impl sample_libs sample_runtime sample_backend 7
        [("title", VStr "Dune"); ("authors", VStr "Frank Herbert")] (Some "main")
        initial_state
      = (Raise (Exn PermissionError msg), initial_state).
Proof.
  apply (proj2 (update_book_needs_write_grant sample_libs sample_runtime sample_backend
                  main_conf)
           initial_state 7 [("title", VStr "Dune"); ("authors", VStr "Frank Herbert")]
           (Some "main") main_conf_resolved).
  intros [_ H]. specialize (H "authors"). simpl in H.
  assert (Hin : "authors" ∈ ["title"; "rating"]) by (apply H; right; left).
  revert Hin. apply (bool_decide_eq_false_1 ("authors" ∈ ["title"; "rating"])).
  reflexivity.
Defined.

(** X7.  The single-field check used by the bulk update decides like
    [check_write_permission] on the one-key change set: both return the
    write grant, or both raise [PermissionError]. *)
Theorem single_field_check_agrees :
  forall (rt : runtime) (lib_conf : lib_conf) (field_name : string),
    match check_write_permission_single_field rt lib_conf field_name,
          check_write_permission rt lib_conf (Some [field_name]) with
    | Ok g1, Ok g2 => g1 = perm_write (lc_permissions lib_conf) /\ g2 = g1
    | Raise e1, Raise e2 =>
        exn_kind_of e1 = PermissionError /\ exn_kind_of e2 = PermissionError
    | _, _ => False
    end.
Proof.
  intros rt lib_conf field_name.
  unfold check_write_permission_single_field, check_write_permission, denied_fields.
  destruct (grant_falsy (perm_write (lc_permissions lib_conf))); [split; reflexivity |].
  destruct (perm_write (lc_permissions lib_conf)) as [| b | allowed];
    try (split; reflexivity).
  simpl. destruct (bool_decide (field_name ∈ allowed)); simpl; split; reflexivity.
Qed.

(** X8.  [check_read_permission] for a named field: a field-list grant
    admits exactly its fields (an empty list admits none); any other grant
    admits every field when truthy and none when absent or false.  A
    get-field-values call the grant rejects raises [PermissionError] and
    dispatches nothing. *)
Theorem field_values_needs_read_grant :
  forall (libs : list (string * library_entry)) (rt : runtime) (be : backend)
         (lib_conf : lib_conf) (field_name : string),
    let read_perm := perm_read (lc_permissions lib_conf) in
    let admitted :=
      match read_perm with
      | GList allowed => bool_decide (field_name ∈ allowed)
      | GBool b => b
      | GAbsent => false
      end in
    (admitted = true -> check_read_permission lib_conf (Some field_name) = Ok read_perm) /\
    (admitted = false ->
     field_name <> "" ->
     forall st library_name book_ids value_filter limit offset,
       get_library_config libs library_name = Some lib_conf ->
       exists msg,
         _get_field_values_impl libs rt be library_name (Some field_name) book_ids
                                value_filter limit offset st
           = (Raise (Exn PermissionError msg), st)).
Proof.
  intros libs rt be lib_conf field_name. cbv zeta. split.
  - unfold check_read_permission.
    destruct (perm_read (lc_permissions lib_conf)) as [| b | allowed]; simpl;
      intros H; try discriminate; rewrite H; reflexivity.
  - intros Hdeny Hne st library_name book_ids value_filter limit offset Hconf.
    assert (Hc : exists msg, check_read_permission lib_conf (Some field_name)
                             = Raise (Exn PermissionError msg)).
    { unfold check_read_permission.
      destruct (perm_read (lc_permissions lib_conf)) as [| b | allowed]; simpl;
        try rewrite Hdeny; eauto. }
    destruct Hc as [msg Hc]. exists msg.
    unfold _get_field_values_impl. destruct field_name as [|c f]; [congruence |].
    unfold bind, lift, get_lib_conf. rewrite Hconf, Hc. reflexivity.
Qed.

Lemma field_values_needs_read_grant_witness :
  exists msg,
    _get_field_values_impl sample_libs sample_runtime sample_backend (Some "main")
        (Some "rating") None None 50 0 initial_state
      = (Raise (Exn PermissionError msg), initial_state).
Proof.
  exact (proj2 (field_values_needs_read_grant sample_libs sample_runtime sample_backend
                  main_conf "rating")
           eq_refl ltac:(discriminate) initial_state (Some "main") None None 50 0
           main_conf_resolved).
Defined.

(** ** Pages *)

Lemma slice_nonneg {A} (l : list A) (a b : Z) :
  0 <= a -> a <= b ->
  Py.slice l a b = take (Z.to_nat (b - a)) (drop (Z.to_nat a) l).
Proof.
  intros Ha Hab. unfold Py.slice, clamp_index.
  set (n := Z.of_nat (length l)).
  assert (Hn : 0 <= n) by (unfold n; lia).
  destruct (a <? 0) eqn:Ha0; [apply Z.ltb_lt in Ha0; lia |].
  destruct (b <? 0) eqn:Hb0; [apply Z.ltb_lt in Hb0; lia |].
  destruct (Z_lt_le_dec a n) as [Han | Han].
  - replace (Z.max 0 (Z.min n a)) with a by lia.
    destruct (Z_lt_le_dec b n) as [Hbn | Hbn].
    + replace (Z.max 0 (Z.min n b)) with b by lia. reflexivity.
    + replace (Z.max 0 (Z.min n b)) with n by lia.
      rewrite !take_ge; [reflexivity | |]; rewrite length_drop; unfold n in *; lia.
  - replace (Z.max 0 (Z.min n a)) with n by lia.
    rewrite !(drop_ge l) by (unfold n in *; lia). rewrite !take_nil. reflexivity.
Qed.

Lemma slice_pages {A} (l : list A) (offset limit limit' : Z) :
  0 <= offset -> 0 <= limit -> 0 <= limit' ->
  (Py.slice l offset (offset + limit)
   ++ Py.slice l (offset + limit) (offset + limit + limit'))%list
  = Py.slice l offset (offset + (limit + limit')).
Proof.
  intros Ho Hl Hl'. rewrite !slice_nonneg by lia.
  replace (offset + limit - offset) with limit by lia.
  replace (offset + limit + limit' - (offset + limit)) with limit' by lia.
  replace (offset + (limit + limit') - offset) with (limit + limit') by lia.
  rewrite Z2Nat.inj_add by lia. rewrite (Z2Nat.inj_add limit limit') by lia.
  rewrite <- drop_drop. apply take_take_drop.
Qed.

Lemma slice_length {A} (l : list A) (offset limit : Z) :
  0 <= offset -> 0 <= limit ->
  Z.of_nat (length (Py.slice l offset (offset + limit)))
  = Z.min limit (Z.max 0 (Z.of_nat (length l) - offset)).
Proof.
  intros Ho Hl. rewrite slice_nonneg by lia.
  rewrite length_take, length_drop. lia.
Qed.

(** The page a get-field-values call returns, [[]] when it raises. *)
Definition page (r : result field_values_reply * state) : list counted :=
  match r.1 with Ok reply => fv_results reply | Raise _ => [] end.

(** X9.  Pages of get-field-values fit together.  For a non-negative
    offset and limits, on a library whose worker answers the same counts,
    the page at [offset] of [limit] entries followed by the page at
    [offset + limit] is the page at [offset] of the two limits added; and a
    page holds [min(limit, max(0, total_results - offset))] entries. *)
Theorem field_values_pages_concatenate :
  forall (libs : list (string * library_entry)) (rt : runtime) (be : backend)
         (library_name : option string) (field_name : string)
         (book_ids : option (list Z)) (value_filter : option string)
         (lib_conf : lib_conf) (res : list (string * Z))
         (offset limit limit' : Z) (st1 st2 st3 : state),
    field_name <> "" ->
    get_library_config libs library_name = Some lib_conf ->
    is_ok (check_read_permission lib_conf (Some field_name)) = true ->
    (forall log, reply_counts be log library_name field_name book_ids value_filter
                 = Ok (Counts res)) ->
    0 <= offset -> 0 <= limit -> 0 <= limit' ->
    let call := _get_field_values_impl libs rt be library_name (Some field_name)
                                       book_ids value_filter in
    (page (call limit offset st1) ++ page (call limit' (offset + limit) st2))%list
      = page (call (limit + limit') offset st3) /\
    Z.of_nat (length (page (call limit offset st1)))
      = Z.min limit (Z.max 0 (Z.of_nat (length res) - offset)).
Proof.
  intros libs rt be library_name field_name book_ids value_filter lib_conf res
         offset limit limit' st1 st2 st3 Hname Hconf Hperm Hreply Ho Hl Hl' call.
  assert (Hpage : forall lim off st,
             page (call lim off st)
             = Py.slice (sort_counted
                           (map (fun kv => {| cv_value := kv.1; cv_count := kv.2 |}) res))
                        off (off + lim)).
  { intros lim off st. unfold call, page, _get_field_values_impl.
    destruct field_name as [|c f]; [congruence |].
    unfold bind, lift, get_lib_conf, send_rpc. simpl. rewrite Hconf.
    destruct (check_read_permission lib_conf (Some (String c f))); [| discriminate].
    simpl. rewrite Hreply. reflexivity. }
  rewrite !Hpage. split.
  - apply slice_pages; assumption.
  - rewrite slice_length by assumption.
    rewrite (Permutation_length (sort_counted_perm _)), length_map. reflexivity.
Qed.

Lemma field_values_pages_witness :
  (page (_get_field_values_impl sample_libs null_runtime counts_backend None
           (Some "title") None None 1 1 initial_state)
   ++ page (_get_field_values_impl sample_libs null_runtime counts_backend None
              (Some "title") None None 2 2 initial_state))%list
    = page (_get_field_values_impl sample_libs null_runtime counts_backend None
              (Some "title") None None 3 1 initial_state).
Proof.
  exact (proj1 (field_values_pages_concatenate sample_libs null_runtime counts_backend
                  None "title" None None _ _ 1 1 2 initial_state initial_state
                  initial_state ltac:(discriminate) eq_refl eq_refl
                  (fun _ => eq_refl) ltac:(lia) ltac:(lia) ltac:(lia))).
Defined.

End Grants.

(* ===================================================================== *)
(** * Bulk update (src/logic/metadata_ops.py)                              *)
(* ===================================================================== *)

Module BulkUpdate.
Import Permissions Config Logic Grants.

(** The parameters of one [bulk_update_metadata] call to the worker. *)
Record bulk_call := {
  bc_library : option string;
  bc_field_name : string;
  bc_old_value : value;
  bc_new_value : value;
  bc_book_ids : option (list Z)
}.

(** The schema cache and its call log, and the bulk calls dispatched. *)
Record bulk_state := {
  meta : state;
  bulk_log : list bulk_call
}.

(** How a call ends: it returns or raises one of the exceptions of [exn],
    or the subscript [normalized_changes[field_name]] raises [KeyError]. *)
Inductive outcome :=
| Finished (r : result value)
| KeyError (key : string).

Definition is_none (v : value) : bool :=
  match v with VNone => true | _ => false end.

(** [isinstance(v, (list, tuple, dict))] *)
Definition is_container (v : value) : bool :=
  match v with VList _ | VDict _ => true | _ => false end.

Section Bulk.

Variable libs : list (string * library_entry).
Variable rt : runtime.
Variable be : backend.

(** The worker's answer to a bulk call, given the bulk calls before it. *)
Variable reply_bulk : list bulk_call -> bulk_call -> result value.

(** [worker_pool.send_rpc(library_name, "bulk_update_metadata", ...)] *)
Definition send_bulk (call : bulk_call) (st : bulk_state) : outcome * bulk_state :=
  match get_library_config libs (bc_library call) with
  | None =>
      (Finished (Raise (Exn ValueError
         ("Library '" ++ fmt_name (bc_library call)
          ++ "' not found in configuration."))), st)
  | Some _ =>
      (Finished (reply_bulk (bulk_log st) call),
       {| meta := meta st; bulk_log := bulk_log st ++ [call] |})
  end.

Definition invalid_new_value (field_name : string) (errors : list string) : string :=
  "Invalid new_value for field '" ++ field_name ++ "': " ++ Py.join "; " errors.

Definition _bulk_update_metadata_impl (field_name : string)
    (old_value new_value : value) (book_ids : option (list Z))
    (library_name : option string) (st : bulk_state) : outcome * bulk_state :=
  if String.eqb field_name "" then
    (Finished (Raise (Exn ValueError "field_name is required")), st)
  else if is_none old_value && is_none new_value then
    (Finished (Raise (Exn ValueError
       "Either old_value or new_value (or both) must be provided.")), st)
  else if negb (is_none old_value) && is_container old_value then
    (Finished (Raise (Exn ValueError
       "old_value must be a simple string/number. Complex logical matching is not supported.")),
     st)
  else
    match get_lib_conf libs library_name with
    | Raise e => (Finished (Raise e), st)
    | Ok lib_conf =>
        match check_write_permission_single_field rt lib_conf field_name with
        | Raise e => (Finished (Raise e), st)
        | Ok _ =>
            if negb (is_none new_value) then
              match _get_library_schema_impl libs be library_name (meta st) with
              | (Raise e, m) => (Finished (Raise e), {| meta := m; bulk_log := bulk_log st |})
              | (Ok schema, m) =>
                  let st1 := {| meta := m; bulk_log := bulk_log st |} in
                  let dummy_changes := [(field_name, new_value)] in
                  let '(normalized_changes, errors) :=
                    _validate_and_normalize_changes rt dummy_changes schema in
                  match errors with
                  | _ :: _ =>
                      (Finished (Raise (Exn ValueError
                         (invalid_new_value field_name errors))), st1)
                  | [] =>
                      match normalized_changes !! field_name with
                      | None => (KeyError field_name, st1)
                      | Some new_value =>
                          send_bulk {| bc_library := library_name;
                                       bc_field_name := field_name;
                                       bc_old_value := old_value;
                                       bc_new_value := new_value;
                                       bc_book_ids := book_ids |} st1
                      end
                  end
              end
            else
              send_bulk {| bc_library := library_name;
                           bc_field_name := field_name;
                           bc_old_value := old_value;
                           bc_new_value := new_value;
                           bc_book_ids := book_ids |} st
        end
    end.

(** What the one-field validation leaves: a message, or a value at the
    field. *)
Lemma one_field_validation (field_name : string) (new_value : value)
    (schema : gmap string field_schema) :
  let r := _validate_and_normalize_changes rt [(field_name, new_value)] schema in
  r = validate_field rt [(field_name, new_value)] schema field_name new_value ∅ /\
  (r.2 = [] -> is_Some (r.1 !! field_name)).
Proof.
  cbv zeta. unfold _validate_and_normalize_changes. simpl.
  destruct (validate_field rt [(field_name, new_value)] schema field_name new_value ∅)
    as [n e] eqn:Hf.
  split; [reflexivity |]. simpl. intros ->.
  destruct (validate_field_progress rt [(field_name, new_value)] schema field_name
              new_value ∅) as [H | H]; rewrite Hf in H; simpl in H; [exact H | congruence].
Qed.

Lemma send_bulk_log (call : bulk_call) (st : bulk_state) :
  (exists r, (send_bulk call st).1 = Finished r) /\
  meta (send_bulk call st).2 = meta st /\
  (bulk_log (send_bulk call st).2 = bulk_log st
   \/ bulk_log (send_bulk call st).2 = (bulk_log st ++ [call])%list).
Proof.
  unfold send_bulk. destruct (get_library_config libs (bc_library call)); simpl; eauto.
Qed.

End Bulk.

(** X10.  [_bulk_update_metadata_impl] never fails on the subscript
    [normalized_changes[field_name]], and dispatches at most one bulk call,
    which carries the field name, old value and book ids as given.  Its new
    value is [None] when none was given; otherwise it is the value the
    validation of the one-field change set stored for the field, and that
    validation produced no message. *)
Theorem bulk_update_sends_validated_value :
  forall (libs : list (string * library_entry)) (rt : runtime) (be : backend)
         (reply_bulk : list bulk_call -> bulk_call -> result value)
         (field_name : string) (old_value new_value : value)
         (book_ids : option (list Z)) (library_name : option string)
         (st : bulk_state),
    let run := _bulk_update_metadata_impl libs rt be reply_bulk field_name old_value
                 new_value book_ids library_name st in
    (exists r, run.1 = Finished r) /\
    (bulk_log run.2 = bulk_log st \/
     exists sent,
       bulk_log run.2 = (bulk_log st ++ [{| bc_library := library_name;
                                            bc_field_name := field_name;
                                            bc_old_value := old_value;
                                            bc_new_value := sent;
                                            bc_book_ids := book_ids |}])%list /\
       field_name <> "" /\
       (new_value = VNone -> sent = VNone) /\
       (new_value <> VNone ->
        exists schema normalized,
          _validate_and_normalize_changes rt [(field_name, new_value)] schema
            = (normalized, []) /\
          normalized !! field_name = Some sent)).
Proof.
  intros libs rt be reply_bulk field_name old_value new_value book_ids library_name st.
  cbv zeta. unfold _bulk_update_metadata_impl.
  destruct (String.eqb field_name "") eqn:Hname; [simpl; eauto |].
  apply String.eqb_neq in Hname.
  destruct (is_none old_value && is_none new_value); [simpl; eauto |].
  destruct (negb (is_none old_value) && is_container old_value); [simpl; eauto |].
  destruct (get_lib_conf libs library_name) as [lib_conf|e]; [| simpl; eauto].
  destruct (check_write_permission_single_field rt lib_conf field_name) as [g|e];
    [| simpl; eauto].
  destruct (is_none new_value) eqn:Hnone; simpl negb; cbv iota.
  - assert (new_value = VNone) as -> by (destruct new_value; try discriminate; reflexivity).
    match goal with |- context [send_bulk _ _ ?c ?s] =>
      destruct (send_bulk_log libs reply_bulk c s) as ([r Hr] & _ & [Hl | Hl]) end;
      (split; [eauto |]); [left; exact Hl | right].
    exists VNone. split; [exact Hl |]. split; [exact Hname |]. split; [reflexivity |].
    congruence.
  - destruct (_get_library_schema_impl libs be library_name (meta st)) as [[schema|e] m];
      [| simpl; eauto].
    destruct (one_field_validation rt field_name new_value schema) as [_ Hsome].
    destruct (_validate_and_normalize_changes rt [(field_name, new_value)] schema)
      as [normalized errors] eqn:Hv.
    destruct errors as [|e errors]; [| simpl; eauto].
    destruct (Hsome eq_refl) as [sent Hsent]. simpl in Hsent. rewrite Hsent.
    match goal with |- context [send_bulk _ _ ?c ?s] =>
      destruct (send_bulk_log libs reply_bulk c s) as ([r Hr] & _ & [Hl | Hl]) end;
      (split; [eauto |]); [left; exact Hl | right].
    exists sent. split; [exact Hl |]. split; [exact Hname |].
    split; [intros ->; discriminate |]. intros _. eauto.
Qed.

(** X11.  A new value the validator rejects stops the bulk update: the call
    raises [ValueError] naming the field and the messages, and no bulk call
    is dispatched. *)
Theorem bulk_update_rejects_invalid_value :
  forall (libs : list (string * library_entry)) (rt : runtime) (be : backend)
         (reply_bulk : list bulk_call -> bulk_call -> result value)
         (field_name : string) (old_value new_value : value)
         (book_ids : option (list Z)) (library_name : option string)
         (st : bulk_state) (lib_conf : lib_conf) (g : grant)
         (schema : gmap string field_schema) (m : state),
    field_name <> "" -> new_value <> VNone -> is_container old_value = false ->
    get_library_config libs library_name = Some lib_conf ->
    check_write_permission_single_field rt lib_conf field_name = Ok g ->
    _get_library_schema_impl libs be library_name (meta st) = (Ok schema, m) ->
    (validate_field rt [(field_name, new_value)] schema field_name new_value ∅).2 <> [] ->
    _bulk_update_metadata_impl libs rt be reply_bulk field_name old_value new_value
                               book_ids library_name st
      = (Finished (Raise (Exn ValueError
           (invalid_new_value field_name
              (validate_field rt [(field_name, new_value)] schema field_name
                              new_value ∅).2))),
         {| meta := m; bulk_log := bulk_log st |}).
Proof.
  intros libs rt be reply_bulk field_name old_value new_value book_ids library_name st
         lib_conf g schema m Hname Hnew Hold Hconf Hperm Hschema Herr.
  unfold _bulk_update_metadata_impl, get_lib_conf.
  apply String.eqb_neq in Hname. rewrite Hname.
  assert (Hn : is_none new_value = false) by (destruct new_value; simpl; congruence).
  rewrite Hn, andb_false_r, Hold, andb_false_r, Hconf, Hperm. simpl negb. cbv iota.
  rewrite Hschema.
  destruct (one_field_validation rt field_name new_value schema) as [-> _].
  destruct (validate_field rt [(field_name, new_value)] schema field_name new_value ∅)
    as [n errors]. simpl in *. destruct errors; [congruence | reflexivity].
Qed.

Lemma bulk_update_rejects_witness :
  _bulk_update_metadata_impl sample_libs sample_runtime sample_backend
      (fun _ _ => Ok (VStr "done")) "rating" (VInt 3) (VInt 11) None (Some "main")
      {| meta := initial_state; bulk_log := [] |}
    = (Finished (Raise (Exn ValueError
         (invalid_new_value "rating"
            ["Field 'rating' (rating): value must be between 0 and 10, got 11."]))),
       {| meta :=
            {| _library_schemata :=
                 <[Some "main" := visible_schema main_conf sample_schema]> ∅;
               rpc_log := [GetLibrarySchema (Some "main")] |};
          bulk_log := [] |}).
Proof.
  assert (Hv : (validate_field sample_runtime [("rating", VInt 11)]
                  (visible_schema main_conf sample_schema) "rating" (VInt 11) ∅).2
               = ["Field 'rating' (rating): value must be between 0 and 10, got 11."])
    by (vm_compute; reflexivity).
  rewrite <- Hv.
  apply (bulk_update_rejects_invalid_value sample_libs sample_runtime sample_backend
           (fun _ _ => Ok (VStr "done")) "rating" (VInt 3) (VInt 11) None (Some "main")
           {| meta := initial_state; bulk_log := [] |} main_conf
           (GList ["title"; "rating"]) (visible_schema main_conf sample_schema)).
  - discriminate.
  - discriminate.
  - reflexivity.
  - reflexivity.
  - reflexivity.
  - apply (schema_miss sample_libs sample_backend initial_state (Some "main") main_conf
             sample_schema); reflexivity.
  - rewrite Hv. discriminate.
Defined.

End BulkUpdate.

(* ===================================================================== *)
(** * The search cache over many calls (src/logic/__init__.py)             *)
(* ===================================================================== *)

Module CacheFacts.
Import Permissions TextSearch SearchCache.

Lemma cache_set_length (k : cache_key) (e : entry) (c : cache) :
  (length (cache_set k e c) <= S (length c))%nat.
Proof.
  induction c as [|[k' e'] r IH]; simpl; [lia |].
  destruct (decide (k = k')); simpl; lia.
Qed.

Lemma cache_set_length_present (k : cache_key) (e e0 : entry) (c : cache) :
  cache_get k c = Some e0 -> length (cache_set k e c) = length c.
Proof.
  induction c as [|[k' e'] r IH]; simpl; [discriminate |].
  destruct (decide (k = k')); simpl; [reflexivity |]. intros H. rewrite IH by exact H.
  reflexivity.
Qed.

Lemma cache_del_length (k : cache_key) (c : cache) :
  k ∈ map fst c -> S (length (cache_del k c)) = length c.
Proof.
  induction c as [|[k' e'] r IH]; simpl; [intros H; inversion H |].
  destruct (decide (k = k')); [reflexivity |]. intros H.
  apply elem_of_cons in H as [H | H]; [contradiction |]. simpl. rewrite IH by exact H.
  reflexivity.
Qed.

Lemma cache_get_set_eq (k : cache_key) (e : entry) (c : cache) :
  cache_get k (cache_set k e c) = Some e.
Proof.
  induction c as [|[k' e'] r IH]; simpl.
  - destruct (decide (k = k)); [reflexivity | congruence].
  - destruct (decide (k = k')) as [Heq | Hne]; simpl.
    + destruct (decide (k = k)); [reflexivity | congruence].
    + destruct (decide (k = k')); [contradiction | exact IH].
Qed.

(** [cache_store] never lets the dictionary grow past its bound. *)
Lemma cache_store_length (k : cache_key) (e : entry) (c : cache) :
  (length c <= MAX_CACHE_SIZE)%nat ->
  (length (cache_store k e c) <= MAX_CACHE_SIZE)%nat.
Proof.
  intros Hlen. unfold cache_store.
  destruct (MAX_CACHE_SIZE <=? length c)%nat eqn:Hfull.
  - apply Nat.leb_le in Hfull.
    destruct (sorted_by_timestamp_head c) as (pre & v & post & Hc & Hh & _).
    { intros ->. simpl in Hfull. unfold MAX_CACHE_SIZE in Hfull. lia. }
    unfold sorted_keys. destruct (sorted_by_timestamp c) as [|h tl]; [discriminate |].
    simpl in Hh. injection Hh as ->. simpl.
    assert (Hin : v.1 ∈ map fst c).
    { rewrite Hc, map_app. apply elem_of_app. right. left. }
    pose proof (cache_del_length v.1 c Hin) as Hd.
    pose proof (cache_set_length k e (cache_del v.1 c)) as Hs. lia.
  - apply Nat.leb_gt in Hfull. pose proof (cache_set_length k e c). lia.
Qed.

Lemma purge_length (now : Z) (c : cache) :
  (length (_purge_search_cache now c) <= length c)%nat.
Proof. unfold _purge_search_cache. apply List.filter_length_le. Qed.

Lemma purge_unexpired (now : Z) (c : cache) (ke : cache_key * entry) :
  ke ∈ _purge_search_cache now c ->
  now - timestamp ke.2 <= CACHE_TTL_SECONDS * ticks_per_second.
Proof.
  unfold _purge_search_cache. intros H.
  apply list_elem_of_In, List.filter_In in H as [_ H].
  apply negb_true_iff, Z.ltb_ge in H. exact H.
Qed.

(** The purge keeps the entry a key leads to when that entry has not
    expired. *)
Lemma cache_get_purge (now : Z) (k : cache_key) (e : entry) (c : cache) :
  cache_get k c = Some e ->
  now - timestamp e <= CACHE_TTL_SECONDS * ticks_per_second ->
  cache_get k (_purge_search_cache now c) = Some e.
Proof.
  intros Hget Hfresh. unfold _purge_search_cache.
  induction c as [|[k' e'] r IH]; simpl in *; [discriminate |].
  destruct (decide (k = k')) as [-> | Hne].
  - injection Hget as ->. apply Z.ltb_ge in Hfresh. rewrite Hfresh. simpl.
    destruct (decide (k' = k')); [reflexivity | congruence].
  - destruct (negb _); simpl; [| exact (IH Hget)].
    destruct (decide (k = k')); [contradiction | exact (IH Hget)].
Qed.

(** X12.  The search cache never outgrows its bound: a call of
    [_search_book_content_impl] on a cache of at most 50 entries leaves at
    most 50 entries.  A call that raises leaves the cache as it was, and
    after a call that returns no entry of the cache is older than the
    30 minutes of [CACHE_TTL_SECONDS] at the reading of the purge. *)
Theorem search_cache_stays_bounded :
  forall (libs : list (string * Config.library_entry)) (stem : string -> string)
         (get_book_content : option string -> Z -> bool -> result (option string))
         (c : cache) (now now_purge book_id : Z) (query : string)
         (hit_limit offset : Z) (library_name : option string),
    (length c <= MAX_CACHE_SIZE)%nat ->
    let run := _search_book_content_impl libs stem get_book_content c now now_purge
                 book_id query hit_limit offset library_name in
    (length run.2 <= MAX_CACHE_SIZE)%nat /\
    (is_ok run.1 = false -> run.2 = c) /\
    (is_ok run.1 = true ->
     forall ke, ke ∈ run.2 ->
       now_purge - timestamp ke.2 <= CACHE_TTL_SECONDS * ticks_per_second).
Proof.
  intros libs stem g c now now_purge book_id query hit_limit offset library_name Hlen.
  cbv zeta. unfold _search_book_content_impl.
  destruct (cache_get (library_name, book_id, query) c) as [e|] eqn:Hget; simpl.
  - split; [| split; [discriminate | intros _ ke; apply purge_unexpired]].
    pose proof (purge_length now_purge (cache_touch (library_name, book_id, query) now c)).
    unfold cache_touch in *. rewrite Hget in *.
    rewrite (cache_set_length_present _ _ e c Hget) in H. lia.
  - destruct (g library_name book_id (auto_convert_of libs library_name)) as [[text|]|err];
      simpl; try (split; [exact Hlen | split; [reflexivity | discriminate]]).
    destruct (_find_fts_matches stem text query 500) as [spans|]; simpl;
      [| split; [exact Hlen | split; [reflexivity | discriminate]]].
    split; [| split; [discriminate | intros _ ke; apply purge_unexpired]].
    match goal with |- (length (_purge_search_cache _ (cache_store ?k ?e ?c)) <= _)%nat =>
      pose proof (purge_length now_purge (cache_store k e c));
      pose proof (cache_store_length k e c Hlen) end.
    lia.
Qed.

Lemma search_cache_bounded_witness :
  (length (search_at fifty_refreshed 50 52) <= MAX_CACHE_SIZE)%nat.
Proof.
  assert (Hlen : (length fifty_refreshed <= MAX_CACHE_SIZE)%nat)
    by (vm_compute; repeat constructor).
  exact (proj1 (search_cache_stays_bounded [] stem_id sample_content fifty_refreshed
                  52 52 50 "whale" 10 0 (Some "main") Hlen)).
Defined.

(** The results a reply was cut from. *)
Definition cut_from (all_results : list hit) (offset hit_limit : Z) (r : search_reply)
    : Prop :=
  sr_total_results r = Z.of_nat (length all_results) /\
  sr_results r = Py.slice all_results offset (offset + hit_limit).

(** X13.  A search that returned is served from the cache when it is asked
    again.  If a call returns and its purge ran within the 30 minutes after
    the reading taken for its entry, then every later call for the same
    library, book and query on the cache it left answers from the same list
    of hits, whatever the worker would deliver and whatever page is asked
    for. *)
Theorem repeated_search_served_from_cache :
  forall (libs : list (string * Config.library_entry)) (stem : string -> string)
         (get_book_content : option string -> Z -> bool -> result (option string))
         (c c1 : cache) (now now_purge book_id : Z) (query : string)
         (hit_limit offset : Z) (library_name : option string) (r1 : search_reply),
    _search_book_content_impl libs stem get_book_content c now now_purge
        book_id query hit_limit offset library_name = (Ok r1, c1) ->
    now_purge - now <= CACHE_TTL_SECONDS * ticks_per_second ->
    exists all_results,
      cut_from all_results offset hit_limit r1 /\
      forall (libs' : list (string * Config.library_entry))
             (get_book_content' : option string -> Z -> bool -> result (option string))
             (now' now_purge' hit_limit' offset' : Z),
        exists r2 c2,
          _search_book_content_impl libs' stem get_book_content' c1 now' now_purge'
              book_id query hit_limit' offset' library_name = (Ok r2, c2) /\
          cut_from all_results offset' hit_limit' r2.
Proof.
  intros libs stem g c c1 now now_purge book_id query hit_limit offset library_name r1
         Hrun Hfresh.
  set (key := (library_name, book_id, query)) in *.
  assert (Hcached : exists all_results,
             cut_from all_results offset hit_limit r1 /\
             cache_get key c1 = Some {| timestamp := now; e_results := all_results |}).
  { unfold _search_book_content_impl in Hrun. fold key in Hrun.
    destruct (cache_get key c) as [e|] eqn:Hget.
    - injection Hrun as <- <-. exists (e_results e). split; [split; reflexivity |].
      apply cache_get_purge; [| exact Hfresh].
      apply (cache_touch_hit key now c e Hget).
    - destruct (g library_name book_id (auto_convert_of libs library_name))
        as [[text|]|err]; try discriminate.
      destruct (_find_fts_matches stem text query 500) as [spans|]; [| discriminate].
      injection Hrun as <- <-. exists (map (make_hit text) spans).
      split; [split; reflexivity |].
      apply cache_get_purge; [| exact Hfresh].
      unfold cache_store. apply cache_get_set_eq. }
  destruct Hcached as (all_results & Hcut & Hget). exists all_results.
  split; [exact Hcut |].
  intros libs' g' now' now_purge' hit_limit' offset'.
  unfold _search_book_content_impl. fold key. rewrite Hget.
  eexists _, _. split; [reflexivity | split; reflexivity].
Qed.

Lemma repeated_search_witness :
  exists all_results,
    cut_from all_results 0 10
      {| sr_book_id := 3; sr_query := "whale"; sr_total_results := 1; sr_offset := 0;
         sr_limit := 10;
         sr_results :=
           [make_hit "Call me Ishmael. The white whale swims." (27, 32)] |} /\
    forall (libs' : list (string * Config.library_entry))
           (get_book_content' : option string -> Z -> bool -> result (option string))
           (now' now_purge' hit_limit' offset' : Z),
      exists r2 c2,
        _search_book_content_impl libs' stem_id get_book_content'
            (search_at [] 3 7) now' now_purge' 3 "whale" hit_limit' offset' (Some "main")
          = (Ok r2, c2) /\
        cut_from all_results offset' hit_limit' r2.
Proof.
  apply (repeated_search_served_from_cache [] stem_id sample_content [] (search_at [] 3 7)
           7 7 3 "whale" 10 0 (Some "main")).
  - vm_compute. reflexivity.
  - vm_compute. discriminate.
Defined.

(** ** Snippets *)

Lemma len_nonneg (s : string) : 0 <= len s.
Proof. unfold len. lia. Qed.

Lemma take_str_length (n : nat) (s : string) :
  String.length (take_str n s) = Nat.min n (String.length s).
Proof.
  revert s. induction n as [|n IH]; intros [|c r]; simpl; try reflexivity.
  rewrite IH. reflexivity.
Qed.

Lemma drop_str_length (n : nat) (s : string) :
  String.length (drop_str n s) = (String.length s - n)%nat.
Proof.
  revert s. induction n as [|n IH]; intros [|c r]; simpl; try reflexivity; try lia.
  apply IH.
Qed.

Lemma take_str_empty (n : nat) : take_str n "" = "".
Proof. destruct n; reflexivity. Qed.

Lemma take_str_zero (s : string) : take_str 0 s = "".
Proof. destruct s; reflexivity. Qed.

Lemma drop_str_empty (n : nat) : drop_str n "" = "".
Proof. destruct n; reflexivity. Qed.

Lemma drop_str_take_str (n m : nat) (s : string) :
  drop_str n (take_str m s) = take_str (m - n) (drop_str n s).
Proof.
  revert m s. induction n as [|n IH]; intros m s.
  - simpl. rewrite Nat.sub_0_r. reflexivity.
  - destruct m as [|m].
    + rewrite take_str_zero, drop_str_empty. simpl Nat.sub. rewrite take_str_zero.
      reflexivity.
    + destruct s as [|c r].
      * rewrite take_str_empty, !drop_str_empty, take_str_empty. reflexivity.
      * simpl. apply IH.
Qed.

Lemma take_str_take_str (k m : nat) (s : string) :
  (k <= m)%nat -> take_str k (take_str m s) = take_str k s.
Proof.
  revert m s. induction k as [|k IH]; intros m s H.
  - rewrite !take_str_zero. reflexivity.
  - destruct m as [|m]; [lia |]. destruct s as [|c r]; simpl; [reflexivity |].
    rewrite IH by lia. reflexivity.
Qed.

Lemma drop_str_drop_str (n a : nat) (s : string) :
  drop_str n (drop_str a s) = drop_str (a + n) s.
Proof.
  revert s. induction a as [|a IH]; intros s; simpl; [reflexivity |].
  destruct s as [|c r]; [apply drop_str_empty | apply IH].
Qed.

(** [s[a:b]] for bounds in order inside the text. *)
Lemma slice_str_inside (s : string) (a b : Z) :
  0 <= a -> a <= b -> b <= len s ->
  slice_str s a b = take_str (Z.to_nat (b - a)) (drop_str (Z.to_nat a) s).
Proof.
  intros Ha Hab Hb. unfold slice_str, clamp_index.
  destruct (a <? 0) eqn:Ha0; [apply Z.ltb_lt in Ha0; lia |].
  destruct (b <? 0) eqn:Hb0; [apply Z.ltb_lt in Hb0; lia |].
  replace (Z.max 0 (Z.min (len s) a)) with a by lia.
  replace (Z.max 0 (Z.min (len s) b)) with b by lia. reflexivity.
Qed.

Lemma slice_str_len (s : string) (a b : Z) :
  0 <= a -> a <= b -> b <= len s -> len (slice_str s a b) = b - a.
Proof.
  intros Ha Hab Hb. rewrite slice_str_inside by assumption. unfold len in *.
  rewrite take_str_length, drop_str_length. lia.
Qed.

(** A slice of a slice is a slice of the text. *)
Lemma slice_str_slice_str (s : string) (a b x y : Z) :
  0 <= a -> a <= x -> x <= y -> y <= b -> b <= len s ->
  slice_str (slice_str s a b) (x - a) (y - a) = slice_str s x y.
Proof.
  intros Ha Hax Hxy Hyb Hb.
  rewrite (slice_str_inside (slice_str s a b))
    by (rewrite ?slice_str_len by lia; lia).
  rewrite (slice_str_inside s a b), (slice_str_inside s x y) by lia.
  rewrite drop_str_take_str, drop_str_drop_str, take_str_take_str by lia.
  replace (y - a - (x - a)) with (y - x) by lia.
  replace (Z.to_nat a + Z.to_nat (x - a))%nat with (Z.to_nat x) by lia.
  reflexivity.
Qed.

(** X14.  The snippet of a search hit shows the match where the hit says it
    is.  For a span inside the text, the hit's [text], cut at the two
    offsets of [match_in_text], is the matched text itself; [start] and
    [length] are the span's; and the snippet carries at most 100 characters
    of context on either side. *)
Theorem hit_snippet_contains_match :
  forall (full_text : string) (start end_ : Z),
    0 <= start -> start <= end_ -> end_ <= len full_text ->
    let h := make_hit full_text (start, end_) in
    slice_str (h_text h) (h_match_in_text h).1 (h_match_in_text h).2
      = slice_str full_text start end_ /\
    h_start h = start /\ h_length h = end_ - start /\
    0 <= (h_match_in_text h).1 <= 100 /\
    (h_match_in_text h).2 <= len (h_text h) <= (h_match_in_text h).2 + 100.
Proof.
  intros full_text start end_ H0 Hse He. cbv zeta. unfold make_hit. simpl.
  pose proof (len_nonneg full_text) as Hl.
  split; [apply slice_str_slice_str; lia |].
  split; [reflexivity |]. split; [reflexivity |].
  rewrite slice_str_len by lia. lia.
Qed.

Lemma hit_snippet_witness :
  slice_str (h_text (make_hit "Call me Ishmael. The white whale swims." (27, 32)))
            27 32
    = "whale".
Proof.
  exact (eq_trans
           (proj1 (hit_snippet_contains_match "Call me Ishmael. The white whale swims."
                     27 32 ltac:(lia) ltac:(lia) ltac:(vm_compute; discriminate)))
           eq_refl).
Defined.

End CacheFacts.

(* ===================================================================== *)
(** * The transport of one call (src/worker_pool.py)                       *)
(* ===================================================================== *)

Module PoolFacts.
Import Permissions Config WorkerPool.

Section Transport.

Variable libs : list (string * library_entry).
Variable alive : proc -> bool.
Variable launchable : bool.
Variable sink_path : string -> proc -> string.
Variable read_lines : string -> option (list string).
Variable json_loads : string -> decoded.
Variable py_str : value -> string.
Variable exchange : proc -> Z -> string -> value -> transport.

(** A line the read loop passes over: it is not the end of the stream, and
    it is blank, or not JSON, or JSON text whose value has a membership test
    that does not find ["jsonrpc"]. *)
Definition chatter (line : string) : Prop :=
  line <> "" /\
  (strip line = "" \/
   json_loads (strip line) = DecodeError \/
   exists v, json_loads (strip line) = Decoded v /\ py_in "jsonrpc" v = Ok false).

(** A line that carries an envelope. *)
Definition envelope (line : string) (response : value) : Prop :=
  line <> "" /\ strip line <> "" /\
  json_loads (strip line) = Decoded response /\
  py_in "jsonrpc" response = Ok true.

Lemma read_response_chatter (junk rest : list string) :
  Forall chatter junk ->
  read_response json_loads (junk ++ rest) = read_response json_loads rest.
Proof.
  induction 1 as [|line junk [Hne Hline] _ IH]; [reflexivity |].
  simpl. apply String.eqb_neq in Hne. rewrite Hne.
  destruct Hline as [Hblank | [Hdec | (v & Hdec & Hin)]].
  - rewrite Hblank. simpl. exact IH.
  - destruct (String.eqb (strip line) ""); [exact IH |]. rewrite Hdec. exact IH.
  - destruct (String.eqb (strip line) ""); [exact IH |]. rewrite Hdec, Hin. exact IH.
Qed.

Lemma read_response_envelope (line : string) (response : value) (rest : list string) :
  envelope line response ->
  read_response json_loads (line :: rest) = Response response.
Proof.
  intros (Hne & Hs & Hdec & Hin). simpl.
  apply String.eqb_neq in Hne, Hs. rewrite Hne, Hs, Hdec, Hin. reflexivity.
Qed.

(** What the read loop hands on has a ["jsonrpc"] entry. *)
Lemma read_response_has_jsonrpc (lines : list string) (response : value) :
  read_response json_loads lines = Response response ->
  py_in "jsonrpc" response = Ok true.
Proof.
  induction lines as [|line rest IH]; simpl; [discriminate |].
  destruct (String.eqb line ""); [discriminate |].
  destruct (String.eqb (strip line) ""); [exact IH |].
  destruct (json_loads (strip line)) as [v | | e]; [| exact IH | discriminate].
  destruct (py_in "jsonrpc" v) as [[|]|e] eqn:Hin; [| exact IH | discriminate].
  intros H. injection H as <-. exact Hin.
Qed.

Lemma bump_stats_back (now now_done : Z) (name : string) (st : gmap string stats)
    (s : stats) :
  st !! name = Some s ->
  bump_stats now_done (-1) name (bump_stats now 1 name st)
    = <[name := {| last_used := now_done; active_requests := active_requests s |}]> st.
Proof.
  intros Hs. unfold bump_stats. rewrite Hs, lookup_insert_eq, insert_insert_eq. simpl.
  f_equal. f_equal. lia.
Qed.

Lemma bump_stats_absent (now delta : Z) (name : string) (st : gmap string stats) :
  st !! name = None -> bump_stats now delta name st = st.
Proof. intros Hs. unfold bump_stats. rewrite Hs. reflexivity. Qed.

Lemma get_worker_reuses (p : pool) (library_name : option string) (now : Z)
    (lib_conf : lib_conf) (pr : proc) :
  get_library_config libs library_name = Some lib_conf ->
  workers p !! lc_name lib_conf = Some pr -> alive pr = true ->
  get_worker libs alive launchable sink_path p library_name now
    = reuse_worker p pr (lc_name lib_conf) now.
Proof.
  intros Hconf Hw Ha. unfold get_worker. rewrite Hconf. simpl. rewrite Hw, Ha.
  reflexivity.
Qed.

End Transport.

(** ** A sample exchange *)

(** The line feed that ends a line read by [readline]. *)
Definition nl : string := String "010" "".

Definition line_log : string := "Loading library".
Definition line_progress : string := dq "{'progress': 40}".
Definition line_reply : string := dq "{'jsonrpc': '2.0', 'result': 7, 'id': 1}".

Definition reply_value : value :=
  VDict [("jsonrpc", VStr "2.0"); ("result", VInt 7); ("id", VInt 1)].

(** [json.loads] on the lines of the sample. *)
Definition chatty_json_loads (line : string) : decoded :=
  if String.eqb line line_progress then Decoded (VDict [("progress", VInt 40)])
  else if String.eqb line line_reply then Decoded reply_value
  else DecodeError.

(** A worker that logs on its output before it answers. *)
Definition chatty_exchange (pr : proc) (req_id : Z) (method : string) (params : value)
    : transport :=
  Lines [line_log ++ nl; nl; line_progress ++ nl; line_reply ++ nl].

(** The pool after a first call has started worker 0 for "main". *)
Definition warm_pool : pool :=
  (send_rpc sample_libs (fun _ => true) true sample_sink_path sample_read_lines
            chatty_json_loads sample_py_str chatty_exchange
            empty_pool None "search_books" (VDict []) 100 101).2.

Lemma read_loop_reply :
  read_response chatty_json_loads
    [line_log ++ nl; nl; line_progress ++ nl; line_reply ++ nl]
  = Response reply_value.
Proof. vm_compute. reflexivity. Qed.

(** X15.  The read loop of [send_rpc] passes over what a worker prints
    besides its answer.  Lines that are blank, that are not JSON, or that
    decode to a value in which ["jsonrpc"] is not found do not change what
    the loop returns; the first line that decodes to a value with a
    ["jsonrpc"] entry ends the loop with that value, whatever follows it; and
    whatever the loop hands on has a ["jsonrpc"] entry. *)
Theorem read_loop_skips_chatter :
  forall (json_loads : string -> decoded) (junk rest : list string),
    Forall (chatter json_loads) junk ->
    read_response json_loads (junk ++ rest) = read_response json_loads rest /\
    (forall line response,
       envelope json_loads line response ->
       read_response json_loads (junk ++ line :: rest) = Response response) /\
    (forall response,
       read_response json_loads (junk ++ rest) = Response response ->
       py_in "jsonrpc" response = Ok true).
Proof.
  intros json_loads junk rest Hjunk. split; [apply read_response_chatter, Hjunk |].
  split.
  - intros line response Henv. rewrite read_response_chatter by exact Hjunk.
    apply read_response_envelope, Henv.
  - intros response. apply read_response_has_jsonrpc.
Qed.

Lemma read_loop_skips_chatter_witness :
  read_response chatty_json_loads
    [line_log ++ nl; nl; line_progress ++ nl; line_reply ++ nl]
  = Response reply_value.
Proof.
  assert (Hjunk : Forall (chatter chatty_json_loads)
                    [line_log ++ nl; nl; line_progress ++ nl]).
  { constructor; [| constructor; [| constructor; [| constructor]]];
      (split; [discriminate |]).
    - right. left. vm_compute. reflexivity.
    - left. vm_compute. reflexivity.
    - right. right. eexists. split; vm_compute; reflexivity. }
  apply (proj1 (proj2 (read_loop_skips_chatter chatty_json_loads
                         [line_log ++ nl; nl; line_progress ++ nl] [] Hjunk))
           (line_reply ++ nl) reply_value).
  repeat split; try discriminate; vm_compute; reflexivity.
Defined.

(** X16.  A call answered by a live worker leaves the pool's accounting
    balanced.  When the library's worker is listed and running and the read
    loop ends with an envelope, [send_rpc] returns what the envelope gives,
    starts no process, keeps the process table and the capture files, uses
    one request id, and leaves the worker's count of active requests as it
    found it, with the time of last use set to the reading of the [finally]
    clause; no other worker's record is touched. *)
Theorem send_rpc_accounting_balanced :
  forall (libs : list (string * library_entry)) (alive : proc -> bool)
         (launchable : bool) (sink_path : string -> proc -> string)
         (read_lines : string -> option (list string))
         (json_loads : string -> decoded) (py_str : value -> string)
         (exchange : proc -> Z -> string -> value -> transport)
         (p : pool) (library_name : option string) (method : string)
         (params : value) (now now_done : Z) (lib_conf : lib_conf) (pr : proc)
         (s : stats) (lines : list string) (response : value),
    get_library_config libs library_name = Some lib_conf ->
    workers p !! lc_name lib_conf = Some pr -> alive pr = true ->
    worker_stats p !! lc_name lib_conf = Some s ->
    exchange pr (request_id_counter p) method params = Lines lines ->
    read_response json_loads lines = Response response ->
    send_rpc libs alive launchable sink_path read_lines json_loads py_str exchange
             p library_name method params now now_done
      = (deliver py_str response,
         {| workers := workers p;
            worker_stderr_files := worker_stderr_files p;
            worker_stats :=
              <[lc_name lib_conf :=
                  {| last_used := now_done; active_requests := active_requests s |}]>
                (worker_stats p);
            request_id_counter := request_id_counter p + 1;
            spawned := spawned p |}).
Proof.
  intros libs alive launchable sink_path read_lines json_loads py_str exchange
         p library_name method params now now_done lib_conf pr s lines response
         Hconf Hw Ha Hs Hex Hread.
  unfold send_rpc.
  rewrite (get_worker_reuses libs alive launchable sink_path p library_name now
             lib_conf pr Hconf Hw Ha).
  unfold reuse_worker. cbn [request_id_counter]. rewrite Hex, Hread.
  unfold release. cbn [workers worker_stderr_files worker_stats request_id_counter spawned].
  rewrite (bump_stats_back now now_done _ _ s Hs). reflexivity.
Qed.

Lemma send_rpc_accounting_witness :
  send_rpc sample_libs (fun _ => true) true sample_sink_path sample_read_lines
           chatty_json_loads sample_py_str chatty_exchange
           warm_pool (Some "main") "get_book_details" (VDict []) 200 205
  = (Ok (VInt 7),
     {| workers := workers warm_pool;
        worker_stderr_files := worker_stderr_files warm_pool;
        worker_stats :=
          <["main" := {| last_used := 205; active_requests := 0 |}]>
            (worker_stats warm_pool);
        request_id_counter := request_id_counter warm_pool + 1;
        spawned := spawned warm_pool |}).
Proof.
  assert (Hw : workers warm_pool !! "main" = Some O) by (vm_compute; reflexivity).
  assert (Hs : worker_stats warm_pool !! "main"
               = Some {| last_used := 101; active_requests := 0 |})
    by (vm_compute; reflexivity).
  exact (send_rpc_accounting_balanced sample_libs (fun _ => true) true
           sample_sink_path sample_read_lines chatty_json_loads sample_py_str
           chatty_exchange warm_pool (Some "main") "get_book_details" (VDict [])
           200 205
           {| lc_name := "main"; lc_path := "/srv/calibre/main";
              lc_permissions :=
                {| perm_read := GBool true; perm_write := GBool false;
                   perm_delete := GAbsent; perm_convert := GAbsent |} |}
           O {| last_used := 101; active_requests := 0 |}
           [line_log ++ nl; nl; line_progress ++ nl; line_reply ++ nl] reply_value
           eq_refl Hw eq_refl Hs eq_refl read_loop_reply).
Defined.

(** X17.  Only the last fifty lines of a worker's capture file bear on the
    extracted error: whatever precedes fifty or more lines, the result is
    the same, and it is the result for the last fifty of them alone. *)
Theorem stderr_extraction_reads_last_fifty :
  forall (json_loads : string -> decoded) (older recent : list string),
    (50 <= length recent)%nat ->
    extract_from json_loads (older ++ recent) = extract_from json_loads recent /\
    extract_from json_loads recent
      = extract_from json_loads (drop (length recent - 50) recent).
Proof.
  intros json_loads older recent Hlen.
  assert (Hr : last_lines recent = drop (length recent - 50) recent).
  { unfold last_lines. destruct (50 <? length recent)%nat eqn:Hc; [reflexivity |].
    apply Nat.ltb_ge in Hc. replace (length recent - 50)%nat with 0%nat by lia.
    reflexivity. }
  assert (Hl : last_lines (older ++ recent) = last_lines recent).
  { rewrite Hr. unfold last_lines. rewrite length_app.
    destruct (50 <? length older + length recent)%nat eqn:Hc.
    - replace (length older + length recent - 50)%nat
        with (length older + (length recent - 50))%nat by lia.
      apply drop_app_add.
    - apply Nat.ltb_ge in Hc.
      replace (length recent - 50)%nat with 0%nat by lia.
      destruct older; [reflexivity | simpl in Hc; lia]. }
  assert (Hd : last_lines (drop (length recent - 50) recent)
               = drop (length recent - 50) recent).
  { unfold last_lines. rewrite length_drop.
    replace (50 <? length recent - (length recent - 50))%nat with false;
      [reflexivity |].
    symmetry. apply Nat.ltb_ge. lia. }
  unfold extract_from. rewrite Hl, Hd, Hr. split; reflexivity.
Qed.

Lemma stderr_extraction_witness :
  extract_from sample_json_loads
    ([line_warning; "Traceback (most recent call last):"]
     ++ (line_first :: replicate 49 "Warning: slow disk"))
  = VStr "first failure".
Proof.
  rewrite (proj1 (stderr_extraction_reads_last_fifty sample_json_loads
                    [line_warning; "Traceback (most recent call last):"]
                    (line_first :: replicate 49 "Warning: slow disk")
                    ltac:(vm_compute; lia))).
  vm_compute. reflexivity.
Defined.

(** X18.  [send_rpc] returns a value only for an envelope without an
    ["error"] entry.  If the call returns [v], then a worker was obtained,
    the write went through, the read loop ended with a JSON object that has a
    ["jsonrpc"] entry and no ["error"] entry, and [v] is its ["result"]
    entry, or [None] when it has none. *)
Theorem send_rpc_returns_envelope_result :
  forall (libs : list (string * library_entry)) (alive : proc -> bool)
         (launchable : bool) (sink_path : string -> proc -> string)
         (read_lines : string -> option (list string))
         (json_loads : string -> decoded) (py_str : value -> string)
         (exchange : proc -> Z -> string -> value -> transport)
         (p p' : pool) (library_name : option string) (method : string)
         (params : value) (now now_done : Z) (v : value),
    send_rpc libs alive launchable sink_path read_lines json_loads py_str exchange
             p library_name method params now now_done = (Ok v, p') ->
    exists pr name p1 lines d,
      get_worker libs alive launchable sink_path p library_name now
        = (Ok (pr, name), p1) /\
      exchange pr (request_id_counter p1) method params = Lines lines /\
      read_response json_loads lines = Response (VDict d) /\
      dict_get "jsonrpc" d <> None /\
      dict_get "error" d = None /\
      v = default VNone (dict_get "result" d).
Proof.
  intros libs alive launchable sink_path read_lines json_loads py_str exchange
         p p' library_name method params now now_done v.
  unfold send_rpc.
  destruct (get_worker libs alive launchable sink_path p library_name now)
    as [[[pr name]|e] p1] eqn:Hget; [| discriminate].
  destruct (exchange pr (request_id_counter p1) method params) as [|lines] eqn:Hex;
    [discriminate |].
  destruct (read_response json_loads lines) as [| response | e] eqn:Hread;
    [discriminate | | discriminate].
  intros H. injection H as Hdel _.
  pose proof (read_response_has_jsonrpc json_loads lines response Hread) as Hrpc.
  unfold deliver in Hdel.
  destruct response as [| | | | | | d |]; simpl in Hdel; try discriminate.
  - destruct (contains "error" s); discriminate.
  - destruct (existsb (is_str "error") l); discriminate.
  - exists pr, name, p1, lines, d. split; [reflexivity |]. split; [exact Hex |].
    split; [exact Hread |]. simpl in Hrpc.
    destruct (dict_get "jsonrpc" d); [| discriminate].
    split; [discriminate |].
    destruct (dict_get "error" d) as [err|].
    + destruct err; discriminate.
    + split; [reflexivity |]. injection Hdel as <-. reflexivity.
Qed.

Lemma send_rpc_returns_envelope_witness :
  exists pr name p1 lines d,
    get_worker sample_libs (fun _ => true) true sample_sink_path warm_pool
               (Some "main") 200 = (Ok (pr, name), p1) /\
    chatty_exchange pr (request_id_counter p1) "get_book_details" (VDict [])
      = Lines lines /\
    read_response chatty_json_loads lines = Response (VDict d) /\
    dict_get "jsonrpc" d <> None /\
    dict_get "error" d = None /\
    VInt 7 = default VNone (dict_get "result" d).
Proof.
  apply (send_rpc_returns_envelope_result sample_libs (fun _ => true) true
           sample_sink_path sample_read_lines chatty_json_loads sample_py_str
           chatty_exchange warm_pool
           (send_rpc sample_libs (fun _ => true) true sample_sink_path sample_read_lines
              chatty_json_loads sample_py_str chatty_exchange
              warm_pool (Some "main") "get_book_details" (VDict []) 200 205).2
           (Some "main") "get_book_details" (VDict []) 200 205 (VInt 7)).
  vm_compute. reflexivity.
Defined.

(** X19.  A broken pipe on the write makes the pool forget the worker and
    its record, and the [finally] clause then finds no record to update: the
    call raises [RuntimeError] naming the library as the caller gave it, the
    worker is no longer listed, it has no record of use, one request id is
    spent, and the next [get_worker] for the library starts a process. *)
Theorem send_rpc_broken_pipe_forgets_worker :
  forall (libs : list (string * library_entry)) (alive : proc -> bool)
         (launchable : bool) (sink_path : string -> proc -> string)
         (read_lines : string -> option (list string))
         (json_loads : string -> decoded) (py_str : value -> string)
         (exchange : proc -> Z -> string -> value -> transport)
         (p p1 : pool) (library_name : option string) (method : string)
         (params : value) (now now_done : Z) (pr : proc) (name : string),
    get_worker libs alive launchable sink_path p library_name now = (Ok (pr, name), p1) ->
    exchange pr (request_id_counter p1) method params = Broken ->
    let run := send_rpc libs alive launchable sink_path read_lines json_loads py_str
                 exchange p library_name method params now now_done in
    run.1 = Raise (Exn RuntimeError
              ("Communication with Calibre worker for '" ++ fmt_name library_name
               ++ "' failed.")) /\
    run.2 = {| workers := delete name (workers p1);
               worker_stderr_files := worker_stderr_files p1;
               worker_stats := delete name (worker_stats p1);
               request_id_counter := request_id_counter p1 + 1;
               spawned := spawned p1 |} /\
    (forall now',
       get_worker libs alive launchable sink_path run.2 library_name now'
       = start_worker launchable sink_path run.2 name now').
Proof.
  intros libs alive launchable sink_path read_lines json_loads py_str exchange
         p p1 library_name method params now now_done pr name Hget Hex.
  destruct (get_worker_resolves libs alive launchable sink_path p p1 library_name now
              pr name Hget) as (lib_conf & Hconf & Hname).
  cbv zeta. unfold send_rpc. rewrite Hget, Hex. cbn [fst snd].
  split; [reflexivity |].
  assert (Hrel :
    release now_done name
      (del_worker_and_stats name
         {| workers := workers p1; worker_stderr_files := worker_stderr_files p1;
            worker_stats := worker_stats p1;
            request_id_counter := request_id_counter p1 + 1;
            spawned := spawned p1 |})
    = {| workers := delete name (workers p1);
         worker_stderr_files := worker_stderr_files p1;
         worker_stats := delete name (worker_stats p1);
         request_id_counter := request_id_counter p1 + 1;
         spawned := spawned p1 |}).
  { unfold release, del_worker_and_stats.
    cbn [workers worker_stderr_files worker_stats request_id_counter spawned].
    rewrite bump_stats_absent by apply lookup_delete_eq. reflexivity. }
  rewrite Hrel. split; [reflexivity |].
  intros now'. unfold get_worker. rewrite Hconf, Hname. cbn [workers].
  rewrite lookup_delete_eq. reflexivity.
Qed.

(** A worker whose input is closed. *)
Definition broken_exchange (pr : proc) (req_id : Z) (method : string) (params : value)
    : transport := Broken.

Lemma send_rpc_broken_pipe_witness :
  (send_rpc sample_libs (fun _ => true) true sample_sink_path sample_read_lines
            chatty_json_loads sample_py_str broken_exchange
            warm_pool None "search_books" (VDict []) 200 201).1
  = Raise (Exn RuntimeError "Communication with Calibre worker for 'None' failed.").
Proof.
  apply (send_rpc_broken_pipe_forgets_worker sample_libs (fun _ => true) true
           sample_sink_path sample_read_lines chatty_json_loads sample_py_str
           broken_exchange warm_pool
           (get_worker sample_libs (fun _ => true) true sample_sink_path
                       warm_pool None 200).2
           None "search_books" (VDict []) 200 201 O "main").
  - vm_compute. reflexivity.
  - reflexivity.
Defined.

(** X20.  An exception in the read loop other than a decode error leaves
    the worker listed.  When [json.loads] raises such an exception on a line,
    or the membership test for ["jsonrpc"] raises on what it decoded, before
    any envelope was read, [send_rpc] passes the exception on; the process
    table is as [get_worker] left it, so the next call for the library is
    written to the same process as long as it runs. *)
Theorem send_rpc_read_failure_keeps_worker :
  forall (libs : list (string * library_entry)) (alive : proc -> bool)
         (launchable : bool) (sink_path : string -> proc -> string)
         (read_lines : string -> option (list string))
         (json_loads : string -> decoded) (py_str : value -> string)
         (exchange : proc -> Z -> string -> value -> transport)
         (p p1 : pool) (library_name : option string) (method : string)
         (params : value) (now now_done : Z) (pr : proc) (name : string)
         (lines : list string) (e : exn),
    get_worker libs alive launchable sink_path p library_name now = (Ok (pr, name), p1) ->
    exchange pr (request_id_counter p1) method params = Lines lines ->
    read_response json_loads lines = Failed e ->
    let run := send_rpc libs alive launchable sink_path read_lines json_loads py_str
                 exchange p library_name method params now now_done in
    run.1 = Raise e /\
    workers run.2 = workers p1 /\
    workers run.2 !! name = Some pr /\
    (alive pr = true ->
     forall now', exists p'',
       get_worker libs alive launchable sink_path run.2 library_name now'
         = (Ok (pr, name), p'') /\ spawned p'' = spawned p1).
Proof.
  intros libs alive launchable sink_path read_lines json_loads py_str exchange
         p p1 library_name method params now now_done pr name lines e Hget Hex Hread.
  destruct (get_worker_resolves libs alive launchable sink_path p p1 library_name now
              pr name Hget) as (lib_conf & Hconf & Hname).
  assert (Hlisted : workers p1 !! name = Some pr).
  { revert Hget. unfold get_worker, start_worker, reuse_worker. rewrite Hconf, Hname.
    destruct (workers p !! name) as [pr'|] eqn:Hw; [destruct (alive pr') |];
      try destruct launchable; intros H; try discriminate;
      injection H as Hpr Hp1; subst p1; cbn [workers];
      rewrite <- ?Hpr; first [exact Hw | apply lookup_insert_eq]. }
  cbv zeta. unfold send_rpc. rewrite Hget, Hex, Hread. cbn [fst snd release workers].
  split; [reflexivity |]. split; [reflexivity |]. split; [exact Hlisted |].
  intros Ha now'. eexists. split.
  - unfold get_worker. rewrite Hconf, Hname. unfold release. cbn [workers].
    rewrite Hlisted, Ha. unfold reuse_worker. reflexivity.
  - reflexivity.
Qed.

Definition line_number : string := "42".

(** [json.loads] that decodes the text "42" to the number. *)
Definition number_json_loads (line : string) : decoded :=
  if String.eqb line line_number then Decoded (VInt 42) else DecodeError.

(** A worker that prints a bare number. *)
Definition number_exchange (pr : proc) (req_id : Z) (method : string) (params : value)
    : transport := Lines [line_number ++ nl].

(** The call that reads the bare number. *)
Definition number_run : result value * pool :=
  send_rpc sample_libs (fun _ => true) true sample_sink_path sample_read_lines
           number_json_loads sample_py_str number_exchange
           warm_pool None "search_books" (VDict []) 200 201.

Lemma send_rpc_read_failure_witness :
  number_run.1 = Raise (Exn TypeError "argument of type 'int' is not iterable") /\
  workers number_run.2 !! "main" = Some O.
Proof.
  unfold number_run.
  destruct (send_rpc_read_failure_keeps_worker sample_libs (fun _ => true) true
              sample_sink_path sample_read_lines number_json_loads sample_py_str
              number_exchange warm_pool
              (get_worker sample_libs (fun _ => true) true sample_sink_path
                          warm_pool None 200).2
              None "search_books" (VDict []) 200 201 O "main" [line_number ++ nl]
              (Exn TypeError "argument of type 'int' is not iterable"))
    as (H1 & _ & H3 & _).
  - vm_compute. reflexivity.
  - reflexivity.
  - vm_compute. reflexivity.
  - split; [exact H1 | exact H3].
Defined.

End PoolFacts.

(* ===================================================================== *)
(** * Deleting and converting books (src/logic/library_ops.py)             *)
(* ===================================================================== *)

Module LibraryOps.
Import Permissions Config Logic.

(** The remote calls of the two operations. *)
Inductive ops_call :=
| BookDetails (library_name : option string) (book_id : Z)
| DeleteBook (library_name : option string) (book_id : Z)
             (formats : option (list string))
| ConvertBook (library_name : option string) (book_id : Z) (target_format : string).

Definition ops_library (c : ops_call) : option string :=
  match c with
  | BookDetails l _ => l
  | DeleteBook l _ _ => l
  | ConvertBook l _ _ => l
  end.

Definition is_convert (c : ops_call) : bool :=
  match c with ConvertBook _ _ _ => true | _ => false end.

Definition upper_char (c : ascii) : ascii :=
  let n := nat_of_ascii c in
  if ((97 <=? n) && (n <=? 122))%nat then ascii_of_nat (n - 32) else c.

(** [s.upper()] *)
Fixpoint upper (s : string) : string :=
  match s with
  | EmptyString => EmptyString
  | String c r => String (upper_char c) (upper r)
  end.

(** ["PermissionError" in str(type(e))] *)
Definition is_permission_error (e : exn) : bool :=
  match exn_kind_of e with PermissionError => true | _ => false end.

(** [details_raw.get("formats", [])] *)
Definition formats_of (details_raw : value) : result value :=
  match details_raw with
  | VDict d => Ok (default (VList []) (WorkerPool.dict_get "formats" d))
  | _ =>
      Raise (Exn AttributeError
        ("'" ++ type_name details_raw ++ "' object has no attribute 'get'"))
  end.

(** [[f.upper() for f in l]] on the elements of a list. *)
Fixpoint upper_all (l : list value) : result (list string) :=
  match l with
  | [] => Ok []
  | VStr f :: r =>
      match upper_all r with
      | Ok us => Ok (upper f :: us)
      | Raise e => Raise e
      end
  | v :: _ =>
      Raise (Exn AttributeError
        ("'" ++ type_name v ++ "' object has no attribute 'upper'"))
  end.

(** [[f.upper() for f in formats]]: a list gives its elements, a text its
    characters, an object its keys; nothing else can be iterated. *)
Definition existing_formats (formats : value) : result (list string) :=
  match formats with
  | VList l => upper_all l
  | VStr s => Ok (map (fun c => upper (String c "")) (list_ascii_of_string s))
  | VDict d => Ok (map (fun kv => upper kv.1) d)
  | _ => Raise (Exn TypeError ("'" ++ type_name formats ++ "' object is not iterable"))
  end.

Definition format_exists_message (target_format : string) : string :=
  "Target format " ++ target_format
  ++ " already exists. 'delete' permission required to overwrite.".

Section Ops.

Variable libs : list (string * library_entry).

(** The worker's answer to a call, given the calls dispatched before it;
    [Raise] is what [send_rpc] raises. *)
Variable reply : list ops_call -> ops_call -> result value.

(** [worker_pool.send_rpc] seen from the operation layer. *)
Definition send (call : ops_call) (log : list ops_call)
    : result value * list ops_call :=
  match get_library_config libs (ops_library call) with
  | None =>
      (Raise (Exn ValueError
         ("Library '" ++ fmt_name (ops_library call)
          ++ "' not found in configuration.")), log)
  | Some _ => (reply log call, (log ++ [call])%list)
  end.

(** [_delete_book_impl] *)
Definition _delete_book_impl (book_id : Z) (formats : option (list string))
    (library_name : option string) (log : list ops_call)
    : result value * list ops_call :=
  match get_lib_conf libs library_name with
  | Raise e => (Raise e, log)
  | Ok lib_conf =>
      let perms := lc_permissions lib_conf in
      let lib_name := lc_name lib_conf in
      if grant_falsy (perm_delete perms) then
        (Raise (Exn PermissionError
           ("Delete access denied for library '" ++ lib_name ++ "'.")), log)
      else send (DeleteBook library_name book_id formats) log
  end.

(** The body of the [try] of [_convert_book_impl], lines 174-180, after the
    details were asked for. *)
Definition overwrite_check (perms : permissions) (target_format : string)
    (details_raw : result value) : result unit :=
  match details_raw with
  | Raise e => Raise e
  | Ok details_raw =>
      match formats_of details_raw with
      | Raise e => Raise e
      | Ok formats =>
          match existing_formats formats with
          | Raise e => Raise e
          | Ok existing =>
              if bool_decide (upper target_format ∈ existing) then
                if grant_falsy (perm_delete perms) then
                  Raise (Exn PermissionError (format_exists_message target_format))
                else Ok tt
              else Ok tt
          end
      end
  end.

(** [_convert_book_impl]: of the exceptions of the [try], only a
    [PermissionError] is raised again. *)
Definition _convert_book_impl (book_id : Z) (target_format : string)
    (library_name : option string) (log : list ops_call)
    : result value * list ops_call :=
  match get_lib_conf libs library_name with
  | Raise e => (Raise e, log)
  | Ok lib_conf =>
      let perms := lc_permissions lib_conf in
      let lib_name := lc_name lib_conf in
      if grant_falsy (perm_convert perms) then
        (Raise (Exn PermissionError
           ("Convert access denied for library '" ++ lib_name ++ "'.")), log)
      else
        let '(details_raw, log1) := send (BookDetails library_name book_id) log in
        match overwrite_check perms target_format details_raw with
        | Raise e =>
            if is_permission_error e then (Raise e, log1)
            else send (ConvertBook library_name book_id target_format) log1
        | Ok _ => send (ConvertBook library_name book_id target_format) log1
        end
  end.

Lemma send_known (call : ops_call) (log : list ops_call) (lib_conf : lib_conf) :
  get_library_config libs (ops_library call) = Some lib_conf ->
  send call log = (reply log call, (log ++ [call])%list).
Proof. intros H. unfold send. rewrite H. reflexivity. Qed.

(** The checks of the [try] never fail with a [PermissionError] of their
    own making unless the format is there and deleting is not granted. *)
Lemma formats_of_not_permission (v : value) (e : exn) :
  formats_of v = Raise e -> is_permission_error e = false.
Proof. destruct v; simpl; intros H; try discriminate; injection H as <-; reflexivity. Qed.

Lemma upper_all_not_permission (l : list value) (e : exn) :
  upper_all l = Raise e -> is_permission_error e = false.
Proof.
  induction l as [|v r IH]; simpl; [discriminate |].
  destruct v; try (intros H; injection H as <-; reflexivity).
  destruct (upper_all r); [discriminate |].
  intros H. injection H as <-. apply IH. reflexivity.
Qed.

Lemma existing_formats_not_permission (v : value) (e : exn) :
  existing_formats v = Raise e -> is_permission_error e = false.
Proof.
  destruct v; simpl; try discriminate;
    try (intros H; injection H as <-; reflexivity).
  apply upper_all_not_permission.
Qed.

End Ops.

(** ** Sample libraries *)

Definition shelf_libs : list (string * library_entry) :=
  [("main",
    {| le_default := true; le_path := "/srv/calibre/main";
       le_permissions :=
         {| perm_read := GBool true; perm_write := GBool true;
            perm_delete := GBool false; perm_convert := GBool true |};
       le_worker_timeout := None |});
   ("scratch",
    {| le_default := false; le_path := "/srv/calibre/scratch";
       le_permissions :=
         {| perm_read := GBool true; perm_write := GBool true;
            perm_delete := GBool true; perm_convert := GBool true |};
       le_worker_timeout := None |})].

(** A worker whose books all have an EPUB and a PDF. *)
Definition shelf_reply (log : list ops_call) (call : ops_call) : result value :=
  match call with
  | BookDetails _ book_id =>
      Ok (VDict [("book_id", VInt book_id);
                 ("formats", VList [VStr "epub"; VStr "pdf"])])
  | _ => Ok (VDict [("status", VStr "success")])
  end.

(** A worker that fails on the details and answers everything else. *)
Definition flaky_reply (log : list ops_call) (call : ops_call) : result value :=
  match call with
  | BookDetails _ _ => Raise (Exn RuntimeError "Worker Error: database is locked")
  | _ => Ok (VDict [("status", VStr "success")])
  end.

(** X21.  [_delete_book_impl] dispatches [delete_book] only under a truthy
    delete grant.  For a configured library: without the grant the call
    raises [PermissionError] naming the library by its configured name and
    dispatches nothing; with it, exactly the one [delete_book] call is
    dispatched, with the arguments as given, and its answer is the result.
    Whatever the configuration, a run adds no call but that one, and adds it
    only when the library is configured and grants deleting. *)
Theorem delete_book_needs_delete_grant :
  forall (libs : list (string * library_entry))
         (reply : list ops_call -> ops_call -> result value)
         (book_id : Z) (formats : option (list string))
         (library_name : option string) (log : list ops_call),
    let run := _delete_book_impl libs reply book_id formats library_name log in
    let call := DeleteBook library_name book_id formats in
    (forall lib_conf,
       get_library_config libs library_name = Some lib_conf ->
       run = if grant_falsy (perm_delete (lc_permissions lib_conf))
             then (Raise (Exn PermissionError
                     ("Delete access denied for library '" ++ lc_name lib_conf ++ "'.")),
                   log)
             else (reply log call, (log ++ [call])%list)) /\
    (run.2 = log \/
     run.2 = (log ++ [call])%list /\
     exists lib_conf,
       get_library_config libs library_name = Some lib_conf /\
       grant_falsy (perm_delete (lc_permissions lib_conf)) = false).
Proof.
  intros libs reply book_id formats library_name log. cbv zeta.
  unfold _delete_book_impl, get_lib_conf.
  destruct (get_library_config libs library_name) as [lib_conf|] eqn:Hconf.
  - split.
    + intros lc Hlc. injection Hlc as <-.
      destruct (grant_falsy (perm_delete (lc_permissions lib_conf))); [reflexivity |].
      apply (send_known libs reply _ log lib_conf). exact Hconf.
    + destruct (grant_falsy (perm_delete (lc_permissions lib_conf))) eqn:Hg;
        [left; reflexivity |].
      right. rewrite (send_known libs reply _ log lib_conf) by exact Hconf.
      split; [reflexivity |]. exists lib_conf. split; [reflexivity | exact Hg].
  - split; [discriminate | left; reflexivity].
Qed.

Lemma delete_book_needs_delete_grant_witness :
  _delete_book_impl shelf_libs shelf_reply 7 None None []
  = (Raise (Exn PermissionError "Delete access denied for library 'main'."), []).
Proof.
  exact (proj1 (delete_book_needs_delete_grant shelf_libs shelf_reply 7 None None [])
           {| lc_name := "main"; lc_path := "/srv/calibre/main";
              lc_permissions :=
                {| perm_read := GBool true; perm_write := GBool true;
                   perm_delete := GBool false; perm_convert := GBool true |} |}
           eq_refl).
Defined.

(** X22.  [_convert_book_impl] does not overwrite a format without the
    delete grant when the worker shows the format.  If the details the
    worker answers list the target format (compared in upper case) and the
    library does not grant deleting, the call does not return and dispatches
    no [convert_book]; under a convert grant it raises the
    [PermissionError] that names the format, after the one details call.
    And no run dispatches [convert_book] without a truthy convert grant. *)
Theorem convert_book_overwrite_needs_delete_grant :
  forall (libs : list (string * library_entry))
         (reply : list ops_call -> ops_call -> result value)
         (book_id : Z) (target_format : string)
         (library_name : option string) (log : list ops_call),
    let run := _convert_book_impl libs reply book_id target_format library_name log in
    (forall lib_conf d existing,
       get_library_config libs library_name = Some lib_conf ->
       reply log (BookDetails library_name book_id) = Ok (VDict d) ->
       existing_formats (default (VList []) (WorkerPool.dict_get "formats" d))
         = Ok existing ->
       upper target_format ∈ existing ->
       grant_falsy (perm_delete (lc_permissions lib_conf)) = true ->
       is_ok run.1 = false /\
       List.filter is_convert run.2 = List.filter is_convert log /\
       (grant_falsy (perm_convert (lc_permissions lib_conf)) = false ->
        run = (Raise (Exn PermissionError (format_exists_message target_format)),
               (log ++ [BookDetails library_name book_id])%list))) /\
    (List.filter is_convert run.2 <> List.filter is_convert log ->
     exists lib_conf,
       get_library_config libs library_name = Some lib_conf /\
       grant_falsy (perm_convert (lc_permissions lib_conf)) = false).
Proof.
  intros libs reply book_id target_format library_name log. cbv zeta. split.
  - intros lib_conf d existing Hconf Hreply Hex Hin Hdel.
    unfold _convert_book_impl, get_lib_conf. rewrite Hconf.
    destruct (grant_falsy (perm_convert (lc_permissions lib_conf))) eqn:Hconv.
    + split; [reflexivity |]. split; [reflexivity | discriminate].
    + rewrite (send_known libs reply (BookDetails library_name book_id) log lib_conf)
        by exact Hconf.
      unfold overwrite_check, formats_of. rewrite Hreply, Hex.
      rewrite bool_decide_eq_true_2 by exact Hin. rewrite Hdel. simpl.
      split; [reflexivity |]. split; [| reflexivity].
      rewrite List.filter_app. simpl. apply app_nil_r.
  - unfold _convert_book_impl, get_lib_conf.
    destruct (get_library_config libs library_name) as [lib_conf|];
      [| intros H; exfalso; apply H; reflexivity].
    destruct (grant_falsy (perm_convert (lc_permissions lib_conf))) eqn:Hconv;
      [intros H; exfalso; apply H; reflexivity |].
    intros _. exists lib_conf. split; [reflexivity | exact Hconv].
Qed.

Lemma convert_book_overwrite_witness :
  _convert_book_impl shelf_libs shelf_reply 7 "epub" None []
  = (Raise (Exn PermissionError
       "Target format epub already exists. 'delete' permission required to overwrite."),
     [BookDetails None 7]).
Proof.
  refine (proj2 (proj2
            (proj1 (convert_book_overwrite_needs_delete_grant shelf_libs shelf_reply
                      7 "epub" None [])
               {| lc_name := "main"; lc_path := "/srv/calibre/main";
                  lc_permissions :=
                    {| perm_read := GBool true; perm_write := GBool true;
                       perm_delete := GBool false; perm_convert := GBool true |} |}
               [("book_id", VInt 7); ("formats", VList [VStr "epub"; VStr "pdf"])]
               ["EPUB"; "PDF"] eq_refl eq_refl eq_refl _ eq_refl)) eq_refl).
  apply (bool_decide_unpack _). vm_compute. exact I.
Defined.

(** X23.  The overwrite protection of [_convert_book_impl] is skipped when
    the details cannot be used.  Under a convert grant, if the details call
    fails with anything but a [PermissionError], or answers something whose
    formats cannot be listed, then [convert_book] is dispatched right after
    it and its answer is the result, whether or not the library grants
    deleting.  A [PermissionError] of the details call is raised again and
    nothing is converted. *)
Theorem convert_book_proceeds_without_details :
  forall (libs : list (string * library_entry))
         (reply : list ops_call -> ops_call -> result value)
         (book_id : Z) (target_format : string)
         (library_name : option string) (log : list ops_call) (lib_conf : lib_conf),
    get_library_config libs library_name = Some lib_conf ->
    grant_falsy (perm_convert (lc_permissions lib_conf)) = false ->
    let run := _convert_book_impl libs reply book_id target_format library_name log in
    let details := BookDetails library_name book_id in
    let convert := ConvertBook library_name book_id target_format in
    let converted :=
      (reply (log ++ [details])%list convert, (log ++ [details; convert])%list) in
    (forall e,
       reply log details = Raise e ->
       run = if is_permission_error e then (Raise e, (log ++ [details])%list)
             else converted) /\
    (forall v e,
       reply log details = Ok v ->
       match formats_of v with
       | Ok formats => existing_formats formats = Raise e
       | Raise e' => e' = e
       end ->
       run = converted).
Proof.
  intros libs reply book_id target_format library_name log lib_conf Hconf Hconv.
  cbv zeta.
  assert (Hsend : forall call log',
             ops_library call = library_name ->
             send libs reply call log' = (reply log' call, (log' ++ [call])%list)).
  { intros call log' Hl. apply (send_known libs reply call log' lib_conf).
    rewrite Hl. exact Hconf. }
  assert (Hlog : ((log ++ [BookDetails library_name book_id])
                    ++ [ConvertBook library_name book_id target_format])%list
                 = (log ++ [BookDetails library_name book_id;
                            ConvertBook library_name book_id target_format])%list)
    by (rewrite <- app_assoc; reflexivity).
  split.
  - intros e Hreply. unfold _convert_book_impl, get_lib_conf.
    rewrite Hconf, Hconv, Hsend by reflexivity.
    unfold overwrite_check. rewrite Hreply.
    destruct (is_permission_error e); [reflexivity |].
    rewrite Hsend by reflexivity. rewrite Hlog. reflexivity.
  - intros v e Hreply Hbad. unfold _convert_book_impl, get_lib_conf.
    rewrite Hconf, Hconv, Hsend by reflexivity.
    unfold overwrite_check. rewrite Hreply.
    destruct (formats_of v) as [formats|e'] eqn:Hf.
    + rewrite Hbad. rewrite (existing_formats_not_permission formats e Hbad).
      rewrite Hsend by reflexivity. rewrite Hlog. reflexivity.
    + rewrite (formats_of_not_permission v e' Hf).
      rewrite Hsend by reflexivity. rewrite Hlog. reflexivity.
Qed.

Lemma convert_book_proceeds_witness :
  _convert_book_impl shelf_libs flaky_reply 7 "epub" None []
  = (Ok (VDict [("status", VStr "success")]),
     [BookDetails None 7; ConvertBook None 7 "epub"]).
Proof.
  exact (proj1 (convert_book_proceeds_without_details shelf_libs flaky_reply
                  7 "epub" None []
                  {| lc_name := "main"; lc_path := "/srv/calibre/main";
                     lc_permissions :=
                       {| perm_read := GBool true; perm_write := GBool true;
                          perm_delete := GBool false; perm_convert := GBool true |} |}
                  eq_refl eq_refl)
           (Exn RuntimeError "Worker Error: database is locked") eq_refl).
Defined.

End LibraryOps.

(* ===================================================================== *)
(** * Reading a book page by page (src/logic/__init__.py)                  *)
(* ===================================================================== *)

Module BookContent.
Import Permissions Config CacheFacts.

(** What the worker answers to [get_book_content]: something that is falsy
    or has no ["content"] entry, or an object with a ["content"] text and
    its other entries. *)
Inductive content_reply :=
| Bare (res : value)
| Page (content : string) (other : gmap string value).

(** What the operation returns: the worker's answer as it is, or the
    object it has updated. *)
Inductive content_result :=
| AsIs (res : value)
| Paged (res : gmap string value).

(** The loop over the sentences, lines 87-95; [split_point] is
    [len(content)] when the loop ends without a [break]. *)
Fixpoint find_split (sentences : list string) (current_len limit total : Z) : Z :=
  match sentences with
  | [] => total
  | s :: rest =>
      let next_len := current_len + len s in
      if limit <? next_len then
        if (next_len - limit) <? (limit - current_len) then next_len
        else if 0 <? current_len then current_len else next_len
      else find_split rest next_len limit total
  end.

Section Content.

(** The configured libraries, [nltk.sent_tokenize] for English, and the
    worker's answer to [get_book_content] with the parameters [book_id],
    [limit], [offset] and [auto_convert]. *)
Variable libs : list (string * library_entry).
Variable sent_tokenize : string -> result (list string).
Variable reply : option string -> Z -> Z -> Z -> grant -> result content_reply.

(** [lib_conf.get("permissions", {}).get("convert", False)] *)
Definition auto_convert_of (library_name : option string) : grant :=
  match get_library_config libs library_name with
  | Some lib_conf =>
      match perm_convert (lc_permissions lib_conf) with
      | GAbsent => GBool false
      | g => g
      end
  | None => GBool false
  end.

(** [worker_pool.send_rpc(library_name, "get_book_content", ...)] *)
Definition send_content (library_name : option string) (book_id limit offset : Z)
    (auto_convert : grant) : result content_reply :=
  match get_library_config libs library_name with
  | None =>
      Raise (Exn ValueError
        ("Library '" ++ Logic.fmt_name library_name ++ "' not found in configuration."))
  | Some _ => reply library_name book_id limit offset auto_convert
  end.

(** [_get_book_content_impl] *)
Definition _get_book_content_impl (book_id : Z) (library_name : option string)
    (limit offset : Z) (sentence_aware : bool) : result content_result :=
  let auto_convert := auto_convert_of library_name in
  match send_content library_name book_id limit offset auto_convert with
  | Raise e => Raise e
  | Ok (Bare res) => Ok (AsIs res)
  | Ok (Page content other) =>
      let res := <["content" := VStr content]> other in
      if sentence_aware && (limit <? len content) then
        match sent_tokenize content with
        | Raise e => Raise e
        | Ok sentences =>
            let split_point := find_split sentences 0 limit (len content) in
            let content := slice_str content 0 split_point in
            let res := <["content" := VStr content]> res in
            let res := <["actual_length" := VInt (len content)]> res in
            Ok (Paged (<["next_offset" := VInt (offset + len content)]> res))
        end
      else Ok (Paged (<["next_offset" := VInt (offset + len content)]> res))
  end.

End Content.

(** ** The split point *)

(** The total length of some sentences. *)
Definition total_len (sentences : list string) : Z :=
  foldr (fun s n => len s + n) 0 sentences.

(** The loop either runs through all sentences, or stops at the first
    sentence that ends beyond the limit and chooses between the end of that
    sentence and the end of the one before it. *)
Lemma find_split_spec (sentences : list string) (current_len limit total : Z) :
  current_len <= limit ->
  (current_len + total_len sentences <= limit /\
   find_split sentences current_len limit total = total)
  \/
  (exists before s after,
     sentences = (before ++ s :: after)%list /\
     current_len + total_len before <= limit /\
     limit < current_len + total_len before + len s /\
     find_split sentences current_len limit total
       = if (current_len + total_len before + len s - limit)
              <? (limit - (current_len + total_len before))
         then current_len + total_len before + len s
         else if 0 <? current_len + total_len before
              then current_len + total_len before
              else current_len + total_len before + len s).
Proof.
  revert current_len. induction sentences as [|s rest IH]; intros current_len Hc.
  - left. simpl. split; [lia | reflexivity].
  - simpl. destruct (limit <? current_len + len s) eqn:Hcross.
    + apply Z.ltb_lt in Hcross. right. exists [], s, rest. simpl.
      rewrite !Z.add_0_r. split; [reflexivity |]. split; [exact Hc |].
      split; [exact Hcross | reflexivity].
    + apply Z.ltb_ge in Hcross.
      destruct (IH (current_len + len s) Hcross)
        as [[Hall Hsp] | (before & s' & after & -> & Hle & Hlt & Hsp)].
      * left. split; [lia | exact Hsp].
      * right. exists (s :: before), s', after. simpl.
        replace (current_len + (len s + total_len before))
          with (current_len + len s + total_len before) by lia.
        split; [reflexivity |]. split; [exact Hle |]. split; [exact Hlt | exact Hsp].
Qed.

Lemma find_split_positive (sentences : list string) (current_len limit total : Z) :
  0 <= current_len -> 0 <= limit -> limit < total ->
  0 < find_split sentences current_len limit total.
Proof.
  revert current_len. induction sentences as [|s rest IH]; intros current_len Hc Hl Ht;
    simpl; [lia |].
  pose proof (len_nonneg s) as Hs.
  destruct (limit <? current_len + len s) eqn:Hcross.
  - apply Z.ltb_lt in Hcross.
    destruct (current_len + len s - limit <? limit - current_len); [lia |].
    destruct (0 <? current_len) eqn:Hpos; [apply Z.ltb_lt in Hpos; lia | lia].
  - apply IH; lia.
Qed.

Lemma find_split_nonneg (sentences : list string) (current_len limit total : Z) :
  0 <= current_len -> 0 <= total ->
  0 <= find_split sentences current_len limit total.
Proof.
  revert current_len. induction sentences as [|s rest IH]; intros current_len Hc Ht;
    simpl; [lia |].
  pose proof (len_nonneg s) as Hs.
  destruct (limit <? current_len + len s).
  - destruct (current_len + len s - limit <? limit - current_len); [lia |].
    destruct (0 <? current_len); lia.
  - apply IH; lia.
Qed.

Lemma take_str_all (n : nat) (s : string) :
  (String.length s <= n)%nat -> take_str n s = s.
Proof.
  revert n. induction s as [|c r IH]; intros [|n] Hn; simpl in *;
    try reflexivity; try lia.
  rewrite IH by lia. reflexivity.
Qed.

(** A slice from the start keeps the first characters. *)
Lemma slice_str_prefix (s : string) (stop : Z) :
  0 <= stop ->
  slice_str s 0 stop = take_str (Z.to_nat stop) s /\
  len (slice_str s 0 stop) = Z.min stop (len s).
Proof.
  intros Hs. pose proof (len_nonneg s) as Hl.
  assert (H : slice_str s 0 stop = take_str (Z.to_nat stop) s).
  { unfold slice_str, clamp_index. change (0 <? 0) with false. cbv iota.
    destruct (stop <? 0) eqn:H0; [apply Z.ltb_lt in H0; lia |].
    replace (Z.to_nat (Z.max 0 (Z.min (len s) 0))) with 0%nat by lia.
    simpl drop_str.
    destruct (Z.le_gt_cases stop (len s)) as [Hle | Hgt].
    - f_equal. lia.
    - rewrite !take_str_all; [reflexivity | unfold len in *; lia | unfold len in *; lia]. }
  split; [exact H |]. rewrite H. unfold len in *. rewrite take_str_length. lia.
Qed.

(** A slice of [limit] characters has at most [limit] characters. *)
Lemma slice_str_at_most (s : string) (offset limit : Z) :
  0 <= limit -> len (slice_str s offset (offset + limit)) <= limit.
Proof.
  intros Hl. pose proof (len_nonneg s) as Hs. unfold slice_str, clamp_index.
  unfold len in *. rewrite take_str_length.
  destruct (offset <? 0) eqn:H1; destruct (offset + limit <? 0) eqn:H2;
    try apply Z.ltb_lt in H1; try apply Z.ltb_lt in H2;
    try apply Z.ltb_ge in H1; try apply Z.ltb_ge in H2; lia.
Qed.

(** ** A sample book *)

Definition three_sentences : string := "A b. C d. E f.".

(** A tokenizer that knows the sample. *)
Definition sample_tokenize (text : string) : result (list string) :=
  Ok ["A b."; "C d."; "E f."].

(** A worker that sends the whole sample, whatever the limit. *)
Definition generous_reply (library_name : option string) (book_id limit offset : Z)
    (auto_convert : grant) : result content_reply :=
  Ok (Page three_sentences {[ "total_length" := VInt 14 ]}).

(** A worker that honours offset and limit as worker.py does. *)
Definition honest_reply (library_name : option string) (book_id limit offset : Z)
    (auto_convert : grant) : result content_reply :=
  Ok (Page (slice_str three_sentences offset (offset + limit))
           {[ "total_length" := VInt 14 ]}).

Definition shelf_conf : lib_conf :=
  {| lc_name := "main"; lc_path := "/srv/calibre/main";
     lc_permissions :=
       {| perm_read := GBool true; perm_write := GBool true;
          perm_delete := GBool false; perm_convert := GBool true |} |}.

(** X24.  What [_get_book_content_impl] returns for a page.  When the
    worker answers an object with a ["content"] text, every returned object
    holds under ["content"] a prefix of that text and under ["next_offset"]
    the offset of the call plus the length of that prefix, and keeps the
    worker's other entries except ["actual_length"]; the worker's answer is
    never handed on as it is.  Without sentence awareness, or when the text
    is not longer than the limit, the text is returned whole and only
    ["next_offset"] is added. *)
Theorem book_content_page_chains :
  forall (libs : list (string * library_entry))
         (sent_tokenize : string -> result (list string))
         (reply : option string -> Z -> Z -> Z -> grant -> result content_reply)
         (book_id : Z) (library_name : option string) (limit offset : Z)
         (sentence_aware : bool) (lib_conf : lib_conf)
         (content : string) (other : gmap string value),
    get_library_config libs library_name = Some lib_conf ->
    reply library_name book_id limit offset (auto_convert_of libs library_name)
      = Ok (Page content other) ->
    let run := _get_book_content_impl libs sent_tokenize reply book_id library_name
                 limit offset sentence_aware in
    (sentence_aware = false \/ len content <= limit ->
     run = Ok (Paged (<["next_offset" := VInt (offset + len content)]>
                        (<["content" := VStr content]> other)))) /\
    (forall r,
       run = Ok (Paged r) ->
       exists k,
         r !! "content" = Some (VStr (take_str k content)) /\
         r !! "next_offset" = Some (VInt (offset + len (take_str k content))) /\
         forall key,
           key <> "content" -> key <> "actual_length" -> key <> "next_offset" ->
           r !! key = other !! key) /\
    (forall res, run <> Ok (AsIs res)).
Proof.
  intros libs sent_tokenize reply book_id library_name limit offset sentence_aware
         lib_conf content other Hconf Hreply. cbv zeta.
  unfold _get_book_content_impl, send_content. rewrite Hconf, Hreply.
  split; [| split].
  - intros [-> | Hle]; [reflexivity |].
    apply Z.ltb_ge in Hle. rewrite Hle, andb_false_r. reflexivity.
  - intros r.
    destruct (sentence_aware && (limit <? len content)).
    + destruct (sent_tokenize content) as [sentences|e]; [| discriminate].
      intros H. injection H as <-.
      exists (Z.to_nat (find_split sentences 0 limit (len content))).
      destruct (slice_str_prefix content (find_split sentences 0 limit (len content)))
        as [Hk _]; [apply find_split_nonneg; [lia | apply len_nonneg] |].
      rewrite Hk. split; [| split].
      * rewrite 2 lookup_insert_ne by discriminate. apply lookup_insert_eq.
      * apply lookup_insert_eq.
      * intros key H1 H2 H3. rewrite !lookup_insert_ne by congruence. reflexivity.
    + intros H. injection H as <-. exists (String.length content).
      rewrite take_str_all by lia. split; [| split].
      * rewrite lookup_insert_ne by discriminate. apply lookup_insert_eq.
      * apply lookup_insert_eq.
      * intros key H1 H2 H3. rewrite !lookup_insert_ne by congruence. reflexivity.
  - intros res. destruct (sentence_aware && (limit <? len content));
      [destruct (sent_tokenize content) |]; discriminate.
Qed.

Lemma book_content_page_witness :
  _get_book_content_impl LibraryOps.shelf_libs sample_tokenize generous_reply
      7 None 20 100 true
  = Ok (Paged (<["next_offset" := VInt (100 + len three_sentences)]>
                 (<["content" := VStr three_sentences]>
                    {[ "total_length" := VInt 14 ]}))).
Proof.
  apply (proj1 (book_content_page_chains LibraryOps.shelf_libs sample_tokenize
                  generous_reply 7 None 20 100 true shelf_conf three_sentences
                  {[ "total_length" := VInt 14 ]} eq_refl eq_refl)).
  right. vm_compute. discriminate.
Defined.

(** X25.  Sentence-aware cutting never happens to a page the worker cut
    itself.  worker.py answers [full_content[offset : offset + limit]]; for
    a limit that is not negative such a text is never longer than the limit,
    so the operation returns it whole and adds only ["next_offset"], with or
    without sentence awareness and whatever the tokenizer does. *)
Theorem sentence_split_idle_under_worker_limit :
  forall (libs : list (string * library_entry))
         (sent_tokenize : string -> result (list string))
         (reply : option string -> Z -> Z -> Z -> grant -> result content_reply)
         (book_id : Z) (library_name : option string) (limit offset : Z)
         (sentence_aware : bool) (lib_conf : lib_conf)
         (full_content : string) (other : gmap string value),
    get_library_config libs library_name = Some lib_conf ->
    0 <= limit ->
    let content := slice_str full_content offset (offset + limit) in
    reply library_name book_id limit offset (auto_convert_of libs library_name)
      = Ok (Page content other) ->
    len content <= limit /\
    _get_book_content_impl libs sent_tokenize reply book_id library_name
        limit offset sentence_aware
      = Ok (Paged (<["next_offset" := VInt (offset + len content)]>
                     (<["content" := VStr content]> other))).
Proof.
  intros libs sent_tokenize reply book_id library_name limit offset sentence_aware
         lib_conf full_content other Hconf Hlimit content Hreply.
  assert (Hle : len content <= limit) by (apply slice_str_at_most, Hlimit).
  split; [exact Hle |].
  unfold _get_book_content_impl, send_content. rewrite Hconf, Hreply.
  apply Z.ltb_ge in Hle. rewrite Hle, andb_false_r. reflexivity.
Qed.

Lemma sentence_split_idle_witness :
  _get_book_content_impl LibraryOps.shelf_libs sample_tokenize honest_reply
      7 None 7 5 true
  = Ok (Paged (<["next_offset" := VInt (5 + len (slice_str three_sentences 5 (5 + 7)))]>
                 (<["content" := VStr (slice_str three_sentences 5 (5 + 7))]>
                    {[ "total_length" := VInt 14 ]}))).
Proof.
  exact (proj2 (sentence_split_idle_under_worker_limit LibraryOps.shelf_libs
                  sample_tokenize honest_reply 7 None 7 5 true shelf_conf
                  three_sentences {[ "total_length" := VInt 14 ]}
                  eq_refl ltac:(lia) eq_refl)).
Defined.

(** X26.  A sentence-aware page of a text longer than the limit is never
    empty.  When the limit is not negative, the worker's text is longer and
    the tokenizer answers, the operation returns the first [split_point]
    characters of the text, at least one, records their number under
    ["actual_length"], and moves ["next_offset"] beyond the offset of the
    call.  The split point is the length of the text when all sentences
    together fit the limit; otherwise the loop stops at the first sentence
    that ends beyond the limit, counting sentence lengths only, and takes
    the end of that sentence when it is nearer to the limit than the end of
    the sentence before it, or when nothing but empty sentences precedes it;
    else the end of the sentence before it. *)
Theorem sentence_aware_page_advances :
  forall (libs : list (string * library_entry))
         (sent_tokenize : string -> result (list string))
         (reply : option string -> Z -> Z -> Z -> grant -> result content_reply)
         (book_id : Z) (library_name : option string) (limit offset : Z)
         (lib_conf : lib_conf) (content : string) (other : gmap string value)
         (sentences : list string),
    get_library_config libs library_name = Some lib_conf ->
    reply library_name book_id limit offset (auto_convert_of libs library_name)
      = Ok (Page content other) ->
    0 <= limit -> limit < len content ->
    sent_tokenize content = Ok sentences ->
    exists split_point,
      let page := take_str (Z.to_nat split_point) content in
      _get_book_content_impl libs sent_tokenize reply book_id library_name
          limit offset true
        = Ok (Paged (<["next_offset" := VInt (offset + len page)]>
                       (<["actual_length" := VInt (len page)]>
                          (<["content" := VStr page]>
                             (<["content" := VStr content]> other))))) /\
      0 < len page /\ len page = Z.min split_point (len content) /\
      offset < offset + len page /\
      (total_len sentences <= limit /\ split_point = len content
       \/
       exists before s after,
         sentences = (before ++ s :: after)%list /\
         total_len before <= limit /\ limit < total_len before + len s /\
         split_point =
           if (total_len before + len s - limit) <? (limit - total_len before)
           then total_len before + len s
           else if 0 <? total_len before then total_len before
                else total_len before + len s).
Proof.
  intros libs sent_tokenize reply book_id library_name limit offset lib_conf content
         other sentences Hconf Hreply Hlimit Hlong Htok.
  exists (find_split sentences 0 limit (len content)). cbv zeta.
  pose proof (find_split_positive sentences 0 limit (len content)
                ltac:(lia) Hlimit Hlong) as Hpos.
  destruct (slice_str_prefix content (find_split sentences 0 limit (len content)))
    as [Hk Hlen]; [lia |].
  rewrite <- Hk.
  split; [| split; [| split; [| split]]].
  - unfold _get_book_content_impl, send_content. rewrite Hconf, Hreply.
    apply Z.ltb_lt in Hlong. rewrite Hlong. simpl. rewrite Htok. reflexivity.
  - rewrite Hlen. lia.
  - exact Hlen.
  - rewrite Hlen. lia.
  - destruct (find_split_spec sentences 0 limit (len content) Hlimit)
      as [[Hall Hsp] | (before & s & after & Hs & Hle & Hlt & Hsp)].
    + left. split; [lia | exact Hsp].
    + right. exists before, s, after. rewrite !Z.add_0_l in *.
      split; [exact Hs |]. split; [exact Hle |]. split; [exact Hlt | exact Hsp].
Qed.

Lemma sentence_aware_page_witness :
  exists split_point,
    let page := take_str (Z.to_nat split_point) three_sentences in
    _get_book_content_impl LibraryOps.shelf_libs sample_tokenize generous_reply
        7 None 9 0 true
      = Ok (Paged (<["next_offset" := VInt (0 + len page)]>
                     (<["actual_length" := VInt (len page)]>
                        (<["content" := VStr page]>
                           (<["content" := VStr three_sentences]>
                              {[ "total_length" := VInt 14 ]}))))) /\
    0 < len page.
Proof.
  destruct (sentence_aware_page_advances LibraryOps.shelf_libs sample_tokenize
              generous_reply 7 None 9 0 shelf_conf three_sentences
              {[ "total_length" := VInt 14 ]} ["A b."; "C d."; "E f."]
              eq_refl eq_refl ltac:(lia) ltac:(vm_compute; reflexivity) eq_refl)
    as (sp & Hrun & Hpos & _).
  exists sp. split; [exact Hrun | exact Hpos].
Defined.

(** The sample page: the split point is 8, the joint length of the first two
    sentences, and the page ends one character short of the second
    sentence's full stop. *)
Lemma sample_page_cut :
  _get_book_content_impl LibraryOps.shelf_libs sample_tokenize generous_reply
      7 None 9 0 true
  = Ok (Paged (<["next_offset" := VInt 8]>
                 (<["actual_length" := VInt 8]>
                    (<["content" := VStr "A b. C d"]>
                       (<["content" := VStr three_sentences]>
                          {[ "total_length" := VInt 14 ]}))))).
Proof. reflexivity. Qed.

End BookContent.
